(** * Repository insight tracker: the versioned time-series dataset manager

    A shallow embedding of [src/load.js] (the GitHub action that gathers
    repository metrics and commits them to a branch) and the properties of
    its dataset handling: the insert-or-replace step of
    [generateFileContent], the two serialisations, the loading fallback of
    [getInsightsFile], the backfill loop of [run] and the branch
    provisioning of [ensureBranchExists].

    Conventions of the embedding.
    - A JavaScript string is a [list ascii] ([str]); file contents are
      taken to be ASCII text, which is what the action itself writes.
    - A JavaScript number is an integer [Z]; the counts handled here are
      integers in the range where a double is exact, printed in plain
      decimal notation.
    - [undefined] is [None] of an [option].
    - An [async] function is a computation in the monad [M]: it threads the
      outside world (storage repository, metrics source, log of API calls)
      and either returns or throws an exception [exn].
    - The [while] loop of [run] takes fuel; running out of fuel is the
      distinct outcome [Diverge]. *)

From Stdlib Require Import ZArith List Ascii String Lia Bool.
From Stdlib Require Import Decimal DecimalFacts DecimalPos DecimalN DecimalZ.
From stdpp Require Import base decidable option list gmap strings.

Local Open Scope Z_scope.
Local Open Scope list_scope.

(** ** Strings *)

Module Str.

Definition str := list ascii.

(** A string literal of the source. *)
Definition lit (s : string) : str := list_ascii_of_string s.

Definition NL : ascii := "010"%char.
Definition DQUOTE : ascii := "034"%char.
Definition BACKSLASH : ascii := "092"%char.

(** [s.split(sep)] for a one-character separator: never the empty array. *)
Fixpoint split (sep : ascii) (s : str) : list str :=
  match s with
  | [] => [[]]
  | c :: s' =>
      if decide (c = sep) then [] :: split sep s'
      else match split sep s' with
           | l :: ls => (c :: l) :: ls
           | [] => [[c]]
           end
  end.

(** [arr.join(sep)] on an array of strings. *)
Fixpoint join (sep : str) (ls : list str) : str :=
  match ls with
  | [] => []
  | [l] => l
  | l :: ls' => l ++ sep ++ join sep ls'
  end.

(** White space as [String.prototype.trim] sees it, within ASCII:
    TAB, LF, VT, FF, CR and SPACE. *)
Definition is_space (c : ascii) : bool :=
  let n := N_of_ascii c in
  ((9 <=? n) && (n <=? 13) || (n =? 32))%N.

Fixpoint trimStart (s : str) : str :=
  match s with
  | c :: s' => if is_space c then trimStart s' else s
  | [] => []
  end.
Definition trimEnd (s : str) : str := rev (trimStart (rev s)).
Definition trim (s : str) : str := trimEnd (trimStart s).

(** [s.startsWith(p)] *)
Fixpoint startsWith (s p : str) {struct p} : bool :=
  match p, s with
  | [], _ => true
  | _ :: _, [] => false
  | c :: p', d :: s' => if decide (c = d) then startsWith s' p' else false
  end.

(** [arr.findIndex(p)]: [None] stands for the result -1. *)
Definition findIndex {A} (p : A -> bool) (arr : list A) : option nat :=
  fst <$> list_find (fun x => p x = true) arr.

(** The update that follows [findIndex] in the source:
    [if (idx !== -1) arr[idx] = x; else arr.push(x)]. *)
Definition set_or_push {A} (idx : option nat) (x : A) (arr : list A) : list A :=
  match idx with
  | Some k => <[k:=x]> arr
  | None => arr ++ [x]
  end.

(** Decimal digits of a number, as [String(n)] prints an integer. *)
Fixpoint digits (u : Decimal.uint) : str :=
  match u with
  | Nil => []
  | D0 u => "0"%char :: digits u
  | D1 u => "1"%char :: digits u
  | D2 u => "2"%char :: digits u
  | D3 u => "3"%char :: digits u
  | D4 u => "4"%char :: digits u
  | D5 u => "5"%char :: digits u
  | D6 u => "6"%char :: digits u
  | D7 u => "7"%char :: digits u
  | D8 u => "8"%char :: digits u
  | D9 u => "9"%char :: digits u
  end.

Definition numToString (z : Z) : str :=
  match Z.to_int z with
  | Decimal.Pos u => digits u
  | Decimal.Neg u => "-"%char :: digits u
  end.

Definition is_digit (c : ascii) : bool :=
  let n := N_of_ascii c in ((48 <=? n) && (n <=? 57))%N.

(** [s.toLowerCase()] within ASCII. *)
Definition lower (c : ascii) : ascii :=
  let n := N_of_ascii c in
  if ((65 <=? n) && (n <=? 90))%N then ascii_of_N (n + 32) else c.

Definition toLowerCase (s : str) : str := map lower s.

End Str.
Import Str.

(** ** The JSON library of the host: [JSON.stringify(v, null, 2)] and
    [JSON.parse]

    Values are the JSON values with integer numbers. An object is the list
    of its properties in insertion order. [JSON_parse] returns [None] where
    the host throws a [SyntaxError]; number literals with a fraction or an
    exponent and [\u] escapes beyond ASCII are outside the embedding and
    are rejected as well. *)

Module Json.

#[local] Set Warnings "-register-all".

Inductive json :=
  | JNull
  | JBool (b : bool)
  | JNum (z : Z)
  | JStr (s : str)
  | JArr (elems : list json)
  | JObj (props : list (str * json)).

(** [obj[k]]: the property named [k], [None] for [undefined]. *)
Fixpoint get_prop (k : str) (props : list (str * json)) : option json :=
  match props with
  | [] => None
  | (k', v) :: ps => if decide (k' = k) then Some v else get_prop k ps
  end.

(** [obj[k] = v]: an existing property keeps its place. *)
Fixpoint set_prop (k : str) (v : json) (props : list (str * json))
  : list (str * json) :=
  match props with
  | [] => [(k, v)]
  | (k', v') :: ps =>
      if decide (k' = k) then (k, v) :: ps else (k', v') :: set_prop k v ps
  end.

(** *** Printing *)

Definition pad (n : nat) : str := repeat " "%char n.

Definition hex_digit (n : N) : ascii :=
  if (n <? 10)%N then ascii_of_N (48 + n) else ascii_of_N (87 + n).

(** QuoteJSONString, one character. *)
Definition escape_char (c : ascii) : str :=
  let n := N_of_ascii c in
  if decide (c = DQUOTE) then [BACKSLASH; DQUOTE]
  else if decide (c = BACKSLASH) then [BACKSLASH; BACKSLASH]
  else if (n =? 8)%N then [BACKSLASH; "b"%char]
  else if (n =? 9)%N then [BACKSLASH; "t"%char]
  else if (n =? 10)%N then [BACKSLASH; "n"%char]
  else if (n =? 12)%N then [BACKSLASH; "f"%char]
  else if (n =? 13)%N then [BACKSLASH; "r"%char]
  else if (n <? 32)%N then
    [BACKSLASH; "u"%char; "0"%char; "0"%char;
     hex_digit (n / 16); hex_digit (n mod 16)]
  else [c].

Definition quote (s : str) : str :=
  DQUOTE :: flat_map escape_char s ++ [DQUOTE].

(** SerializeJSONProperty with a gap of two spaces; [ind] is the current
    indentation. *)
Fixpoint stringify_at (ind : nat) (v : json) : str :=
  match v with
  | JNull => lit "null"
  | JBool true => lit "true"
  | JBool false => lit "false"
  | JNum z => numToString z
  | JStr s => quote s
  | JArr [] => lit "[]"
  | JArr elems =>
      "["%char :: NL :: pad (2 + ind)
        ++ join (","%char :: NL :: pad (2 + ind))
                (map (stringify_at (2 + ind)) elems)
        ++ NL :: pad ind ++ ["]"%char]
  | JObj [] => lit "{}"
  | JObj props =>
      "{"%char :: NL :: pad (2 + ind)
        ++ join (","%char :: NL :: pad (2 + ind))
                (map (fun kv => quote (fst kv) ++ ":"%char :: " "%char
                                  :: stringify_at (2 + ind) (snd kv)) props)
        ++ NL :: pad ind ++ ["}"%char]
  end.

(** [JSON.stringify(v, null, 2)] *)
Definition JSON_stringify (v : json) : str := stringify_at 0 v.

(** *** Parsing *)

Definition is_ws (c : ascii) : bool :=
  let n := N_of_ascii c in
  ((n =? 32) || (n =? 10) || (n =? 13) || (n =? 9))%N.

Fixpoint skip_ws (s : str) : str :=
  match s with
  | c :: s' => if is_ws c then skip_ws s' else s
  | [] => []
  end.

Definition unescape (e : ascii) : option ascii :=
  if decide (e = DQUOTE) then Some DQUOTE
  else if decide (e = BACKSLASH) then Some BACKSLASH
  else if decide (e = "/"%char) then Some "/"%char
  else if decide (e = "b"%char) then Some "008"%char
  else if decide (e = "f"%char) then Some "012"%char
  else if decide (e = "n"%char) then Some "010"%char
  else if decide (e = "r"%char) then Some "013"%char
  else if decide (e = "t"%char) then Some "009"%char
  else None.

Definition hex_val (c : ascii) : option N :=
  let n := N_of_ascii c in
  if ((48 <=? n) && (n <=? 57))%N then Some (n - 48)%N
  else if ((97 <=? n) && (n <=? 102))%N then Some (n - 87)%N
  else if ((65 <=? n) && (n <=? 70))%N then Some (n - 55)%N
  else None.

Definition hex4 (h1 h2 h3 h4 : ascii) : option N :=
  match hex_val h1, hex_val h2, hex_val h3, hex_val h4 with
  | Some a, Some b, Some c, Some d => Some (((a * 16 + b) * 16 + c) * 16 + d)%N
  | _, _, _, _ => None
  end.

Definition cons_fst {A B} (a : A) (r : option (list A * B)) : option (list A * B) :=
  match r with
  | Some (l, b) => Some (a :: l, b)
  | None => None
  end.

(** The characters of a string literal after its opening quote; returns
    the string denoted and the input after the closing quote. *)
Fixpoint parse_chars (s : str) : option (str * str) :=
  match s with
  | [] => None
  | c :: s1 =>
      if decide (c = DQUOTE) then Some ([], s1)
      else if decide (c = BACKSLASH) then
        match s1 with
        | [] => None
        | e :: s2 =>
            if decide (e = "u"%char) then
              match s2 with
              | h1 :: h2 :: h3 :: h4 :: s3 =>
                  match hex4 h1 h2 h3 h4 with
                  | Some n =>
                      if (n <? 128)%N then cons_fst (ascii_of_N n) (parse_chars s3)
                      else None
                  | None => None
                  end
              | _ => None
              end
            else
              match unescape e with
              | Some ch => cons_fst ch (parse_chars s2)
              | None => None
              end
        end
      else if (N_of_ascii c <? 32)%N then None
      else cons_fst c (parse_chars s1)
  end.

Definition digit_of (c : ascii) : option (Decimal.uint -> Decimal.uint) :=
  match N_of_ascii c with
  | 48%N => Some D0 | 49%N => Some D1 | 50%N => Some D2 | 51%N => Some D3
  | 52%N => Some D4 | 53%N => Some D5 | 54%N => Some D6 | 55%N => Some D7
  | 56%N => Some D8 | 57%N => Some D9
  | _ => None
  end.

Fixpoint read_digits (s : str) : Decimal.uint * str :=
  match s with
  | [] => (Nil, [])
  | c :: s' =>
      match digit_of c with
      | Some d => let '(u, r) := read_digits s' in (d u, r)
      | None => (Nil, s)
      end
  end.

(** A character that would continue a number literal (fraction,
    exponent). *)
Definition continues_number (c : ascii) : bool :=
  is_digit c || bool_decide (c = "."%char) || bool_decide (c = "e"%char)
  || bool_decide (c = "E"%char).

Definition number_ends (r : str) : bool :=
  match r with
  | [] => true
  | c :: _ => negb (continues_number c)
  end.

Definition leading_zero (u : Decimal.uint) : bool :=
  match u with
  | D0 Nil => false
  | D0 _ => true
  | _ => false
  end.

(** An integer literal: an optional minus sign, then either a single 0
    or a digit string that does not start with 0. *)
Definition parse_number (s : str) : option (Z * str) :=
  let '(neg, body) :=
    match s with
    | c :: s' => if decide (c = "-"%char) then (true, s') else (false, s)
    | [] => (false, s)
    end in
  let '(u, r) := read_digits body in
  match u with
  | Nil => None
  | _ =>
      if leading_zero u then None
      else if number_ends r then
        Some (Z.of_int (if neg then Decimal.Neg u else Decimal.Pos u), r)
      else None
  end.

Fixpoint expect (kw : str) (s : str) : option str :=
  match kw, s with
  | [], _ => Some s
  | k :: kw', c :: s' => if decide (k = c) then expect kw' s' else None
  | _ :: _, [] => None
  end.

(** The object a member list denotes: a repeated name overwrites. *)
Definition obj_of_members (ms : list (str * json)) : list (str * json) :=
  fold_left (fun acc kv => set_prop (fst kv) (snd kv) acc) ms [].

Fixpoint parse_value (fuel : nat) (s : str) {struct fuel} : option (json * str) :=
  match fuel with
  | O => None
  | S fuel =>
      match skip_ws s with
      | [] => None
      | c :: r =>
          if decide (c = "["%char) then
            match skip_ws r with
            | [] => None
            | c' :: r' =>
                if decide (c' = "]"%char) then Some (JArr [], r')
                else
                  match parse_elements fuel (c' :: r') with
                  | Some (vs, r2) => Some (JArr vs, r2)
                  | None => None
                  end
            end
          else if decide (c = "{"%char) then
            match skip_ws r with
            | [] => None
            | c' :: r' =>
                if decide (c' = "}"%char) then Some (JObj [], r')
                else
                  match parse_members fuel (c' :: r') with
                  | Some (ms, r2) => Some (JObj (obj_of_members ms), r2)
                  | None => None
                  end
            end
          else if decide (c = DQUOTE) then
            match parse_chars r with
            | Some (x, r1) => Some (JStr x, r1)
            | None => None
            end
          else if decide (c = "n"%char) then
            match expect (lit "ull") r with
            | Some r1 => Some (JNull, r1)
            | None => None
            end
          else if decide (c = "t"%char) then
            match expect (lit "rue") r with
            | Some r1 => Some (JBool true, r1)
            | None => None
            end
          else if decide (c = "f"%char) then
            match expect (lit "alse") r with
            | Some r1 => Some (JBool false, r1)
            | None => None
            end
          else
            match parse_number (c :: r) with
            | Some (z, r1) => Some (JNum z, r1)
            | None => None
            end
      end
  end
with parse_elements (fuel : nat) (s : str) {struct fuel}
  : option (list json * str) :=
  match fuel with
  | O => None
  | S fuel =>
      match parse_value fuel s with
      | None => None
      | Some (v, r) =>
          match skip_ws r with
          | [] => None
          | c :: r' =>
              if decide (c = ","%char) then
                match parse_elements fuel r' with
                | Some (vs, r2) => Some (v :: vs, r2)
                | None => None
                end
              else if decide (c = "]"%char) then Some ([v], r')
              else None
          end
      end
  end
with parse_members (fuel : nat) (s : str) {struct fuel}
  : option (list (str * json) * str) :=
  match fuel with
  | O => None
  | S fuel =>
      match skip_ws s with
      | [] => None
      | c :: r =>
          if decide (c = DQUOTE) then
            match parse_chars r with
            | None => None
            | Some (k, r1) =>
                match skip_ws r1 with
                | [] => None
                | c1 :: r2 =>
                    if decide (c1 = ":"%char) then
                      match parse_value fuel r2 with
                      | None => None
                      | Some (v, r3) =>
                          match skip_ws r3 with
                          | [] => None
                          | c3 :: r4 =>
                              if decide (c3 = ","%char) then
                                match parse_members fuel r4 with
                                | Some (ms, r5) => Some ((k, v) :: ms, r5)
                                | None => None
                                end
                              else if decide (c3 = "}"%char) then Some ([(k, v)], r4)
                              else None
                          end
                      end
                    else None
                end
            end
          else None
      end
  end.

(** [JSON.parse(text)] *)
Definition JSON_parse (text : str) : option json :=
  match parse_value (2 * length text + 2) text with
  | Some (v, r) => if skip_ws r is [] then Some v else None
  | None => None
  end.

(** A value is canonical when no object in it repeats a property name:
    these are the values [JSON_parse] builds. *)
Fixpoint canonical (v : json) : bool :=
  match v with
  | JArr elems => forallb canonical elems
  | JObj props =>
      bool_decide (NoDup (map fst props))
      && forallb (fun kv => canonical (snd kv)) props
  | _ => true
  end.

(** Number of syntax nodes, which bounds the fuel [parse_value] needs. *)
Fixpoint node_count (v : json) : nat :=
  match v with
  | JArr elems => S (list_sum (map (fun x => S (node_count x)) elems))
  | JObj props => S (list_sum (map (fun kv => S (node_count (snd kv))) props))
  | _ => 1
  end.

(** The characters a printed value can start with are neither white
    space nor a closing bracket. *)
Definition value_start (c : ascii) : Prop :=
  is_ws c = false /\ c <> "]"%char /\ c <> "}"%char.

(** [v] is read back from its printed form at any indentation, with
    enough fuel, whatever follows that cannot continue a number. *)
Definition parses_back (v : json) : Prop :=
  forall ind fuel rest,
    canonical v = true -> (node_count v <= fuel)%nat -> number_ends rest = true ->
    parse_value fuel (stringify_at ind v ++ rest) = Some (v, rest).

End Json.
Import Json.

(** ** The records of the dataset *)

Module Dataset.

(** One calendar day of metrics: the [newEntry] object of
    [generateFileContent]. *)
Record entry := {
  date : str;
  stargazers : Z;
  commits : Z;
  contributors : Z;
  traffic_views : Z;
  traffic_uniques : Z;
  clones_count : Z;
  clones_uniques : Z;
}.

(** The object as [JSON.stringify] and the array operations see it: its
    properties in the order of the object literal. *)
Definition entry_json (e : entry) : json :=
  JObj [ (lit "date", JStr (date e));
         (lit "stargazers", JNum (stargazers e));
         (lit "commits", JNum (commits e));
         (lit "contributors", JNum (contributors e));
         (lit "traffic_views", JNum (traffic_views e));
         (lit "traffic_uniques", JNum (traffic_uniques e));
         (lit "clones_count", JNum (clones_count e));
         (lit "clones_uniques", JNum (clones_uniques e)) ].

Definition csvHeaders : list str :=
  [ lit "date"; lit "stargazers"; lit "commits"; lit "contributors";
    lit "traffic_views"; lit "traffic_uniques"; lit "clones_count";
    lit "clones_uniques" ].

(** [newEntry[header]] as [Array.prototype.join] prints it: a string as
    it is, a number in decimal, [undefined] as the empty string. *)
Definition entry_text (e : entry) (header : str) : str :=
  if decide (header = lit "date") then date e
  else if decide (header = lit "stargazers") then numToString (stargazers e)
  else if decide (header = lit "commits") then numToString (commits e)
  else if decide (header = lit "contributors") then numToString (contributors e)
  else if decide (header = lit "traffic_views") then numToString (traffic_views e)
  else if decide (header = lit "traffic_uniques") then numToString (traffic_uniques e)
  else if decide (header = lit "clones_count") then numToString (clones_count e)
  else if decide (header = lit "clones_uniques") then numToString (clones_uniques e)
  else [].

(** [csvHeaders.map((header) => newEntry[header]).join(",")] *)
Definition csvLine (e : entry) : str :=
  join (lit ",") (map (entry_text e) csvHeaders).

(** [csvHeaders.join(",")] *)
Definition csvHeader : str := join (lit ",") csvHeaders.

(** The filter [(line) => line.trim() !== ""]. *)
Definition nonblank (line : str) : bool :=
  negb (bool_decide (trim line = [])).

(** [content.split("\n").filter((line) => line.trim() !== "")] *)
Definition csv_lines (content : str) : list str :=
  List.filter nonblank (split NL content).

(** An ISO calendar date [YYYY-MM-DD], the form that
    [toISOString().split("T")[0]] has for the years 0 to 9999. *)
Definition iso_date (d : str) : bool :=
  match d with
  | [y1; y2; y3; y4; h1; m1; m2; h2; day1; day2] =>
      is_digit y1 && is_digit y2 && is_digit y3 && is_digit y4
      && bool_decide (h1 = "-"%char) && is_digit m1 && is_digit m2
      && bool_decide (h2 = "-"%char) && is_digit day1 && is_digit day2
  | _ => false
  end.

(** The format-agnostic [upsert(dataset, record)] in the words of the
    specification of the TimeSeriesUpserter: find an existing entry whose
    date equals the record's date; if found, replace it at the same
    position; otherwise append. The source has no function of this kind:
    [generateFileContent] does the same on the parsed array and on the
    lines, and is compared with it below. *)
Definition spec_upsert (D : list entry) (R : entry) : list entry :=
  match findIndex (fun e => bool_decide (date e = date R)) D with
  | Some k => <[k:=R]> D
  | None => D ++ [R]
  end.

End Dataset.
Import Dataset.

(** ** Exceptions and outcomes *)

Module Effects.

(** The errors the code meets or raises.
    - [HttpError status]: the request error of the API client;
    - [SyntaxError]: raised by [JSON.parse];
    - [TypeError]: a property read on [undefined] or [null], or a call of
      something that is not a function;
    - [UnsupportedFormat]: the error with the message that asks to choose
      either json or csv;
    - [GenerateFailed e]: "Unable to generate file content: " followed by
      the message of [e];
    - [BranchCheckFailed e]: "Error checking if branch exists: " followed
      by the message of [e]. *)
Inductive exn :=
  | HttpError (status : Z)
  | SyntaxError
  | TypeError
  | UnsupportedFormat
  | GenerateFailed (cause : exn)
  | BranchCheckFailed (cause : exn).

(** [error.status] *)
Definition exn_status (e : exn) : option Z :=
  match e with
  | HttpError s => Some s
  | _ => None
  end.

Inductive outcome (A : Type) :=
  | Return (a : A)
  | Throw (e : exn)
  | Diverge.
Arguments Return {A} a.
Arguments Throw {A} e.
Arguments Diverge {A}.

End Effects.
Import Effects.

(** ** [generateFileContent]

    The function reads nothing but its arguments, so it is embedded as a
    pure function into [outcome]. [insightsFile] is [None] when the caller
    holds [undefined]; the result is [None] when [fileContent] is never
    assigned (a format that is neither json nor csv). *)

Module Generate.

(** [entry.date] for an element of the parsed array: [inl TypeError] on
    [null], [None] for [undefined]. *)
Definition date_of (entry : json) : exn + option json :=
  match entry with
  | JNull => inl TypeError
  | JObj props => inr (get_prop (lit "date") props)
  | _ => inr None
  end.

(** [entry.date === d] for a string [d] *)
Definition date_is (d : str) (entry : json) : exn + bool :=
  match date_of entry with
  | inl e => inl e
  | inr (Some (JStr s)) => inr (bool_decide (s = d))
  | inr _ => inr false
  end.

(** [findIndex] with a callback that may throw. *)
Fixpoint findIndexE {A} (p : A -> exn + bool) (arr : list A) : exn + option nat :=
  match arr with
  | [] => inr None
  | x :: arr' =>
      match p x with
      | inl e => inl e
      | inr true => inr (Some 0%nat)
      | inr false =>
          match findIndexE p arr' with
          | inl e => inl e
          | inr idx => inr (S <$> idx)
          end
      end
  end.

Definition generateFileContent_json (insightsFile : option str) (newEntry : entry)
  : outcome (option str) :=
  match insightsFile with
  | None => Throw SyntaxError
  | Some text =>
      match JSON_parse text with
      | None => Throw SyntaxError
      | Some (JArr existingData) =>
          match findIndexE (date_is (date newEntry)) existingData with
          | inl e => Throw e
          | inr existingEntryIndex =>
              Return (Some (JSON_stringify
                (JArr (set_or_push existingEntryIndex (entry_json newEntry)
                                   existingData))))
          end
      | Some _ => Throw TypeError
      end
  end.

Definition generateFileContent_csv (insightsFile : option str) (newEntry : entry)
  : outcome (option str) :=
  match insightsFile with
  | None => Throw TypeError
  | Some text =>
      let csvLines := csv_lines text in
      let existingEntryIndex :=
        findIndex (fun line => startsWith line (date newEntry)) csvLines in
      let csvLine := csvLine newEntry in
      Return (Some (join [NL] (set_or_push existingEntryIndex csvLine csvLines)))
  end.

Record traffic := { count : Z; uniques : Z }.

Definition generateFileContent
    (insightsFile : option str)
    (stargazerCount commitCount contributorsCount : Z)
    (yesterdayTraffic yesterdayClones : traffic)
    (yesterdayDateString : str) (format : str) : outcome (option str) :=
  let newEntry :=
    {| date := yesterdayDateString;
       stargazers := stargazerCount;
       commits := commitCount;
       contributors := contributorsCount;
       traffic_views := count yesterdayTraffic;
       traffic_uniques := uniques yesterdayTraffic;
       clones_count := count yesterdayClones;
       clones_uniques := uniques yesterdayClones |} in
  let attempt :=
    if decide (format = lit "json") then generateFileContent_json insightsFile newEntry
    else if decide (format = lit "csv") then generateFileContent_csv insightsFile newEntry
    else Return None in
  match attempt with
  | Throw error => Throw (GenerateFailed error)
  | r => r
  end.

(** [generateFileContent] called with a record: the traffic and clone
    counts of the record are the two objects the caller passes. *)
Definition upsert_file (format : str) (insightsFile : option str) (R : entry)
  : outcome (option str) :=
  generateFileContent insightsFile (stargazers R) (commits R) (contributors R)
    {| count := traffic_views R; uniques := traffic_uniques R |}
    {| count := clones_count R; uniques := clones_uniques R |}
    (date R) format.

(** A sequence of upserts, each on the file the previous one produced. *)
Fixpoint upsert_files (format : str) (insightsFile : option str) (Rs : list entry)
  : outcome (option str) :=
  match Rs with
  | [] => Return insightsFile
  | R :: Rs' =>
      match upsert_file format insightsFile R with
      | Return file' => upsert_files format file' Rs'
      | Throw e => Throw e
      | Diverge => Diverge
      end
  end.

(** The serialised forms of a dataset: what [JSON.stringify(existingData,
    null, 2)] and [csvLines.join("\n")] write when the array holds the
    records of [D] (after the header line, for csv). *)
Definition encode_json (D : list entry) : str :=
  JSON_stringify (JArr (map entry_json D)).

Definition encode_csv (D : list entry) : str :=
  join [NL] (csvHeader :: map csvLine D).

(** What the code holds in memory after decoding a file that stores the
    dataset [D]: the parsed array, or the non-blank lines. *)
Definition represents (format : str) (content : str) (D : list entry) : Prop :=
  if decide (format = lit "json") then
    JSON_parse content = Some (JArr (map entry_json D))
  else if decide (format = lit "csv") then
    csv_lines content = csvHeader :: map csvLine D
  else False.

Definition encode (format : str) (D : list entry) : str :=
  if decide (format = lit "json") then encode_json D else encode_csv D.

Definition supported (format : str) : Prop :=
  format = lit "json" \/ format = lit "csv".

(** Dates a csv file can hold without ambiguity. The json form needs no
    condition. *)
Definition dates_ok (format : str) (D : list entry) : Prop :=
  format = lit "csv" -> Forall (fun e => iso_date (date e) = true) D.

End Generate.
Import Generate.

(** ** The outside world: storage repository, metrics source, clock *)

Module World.

(** Object names of the storage repository. *)
Definition sha := N.

Record commit_obj := {
  commit_tree : sha;
  commit_parents : list sha;
  commit_message : str;
}.

(** The git object database of the storage repository. References are
    kept under their full names ([refs/heads/...]); a tree maps the path of
    a file to its blob. *)
Record repository := {
  refs : gmap str sha;
  commit_objs : gmap sha commit_obj;
  tree_objs : gmap sha (gmap str sha);
  blob_objs : gmap sha str;
}.

(** The answer of the GraphQL query of [getRepoStats]: [nodes] holds, for
    each commit of the history page, the login of [author.user] or [None]
    where [user] is [null]. *)
Record stats_response := {
  resp_stargazerCount : Z;
  resp_totalCount : Z;
  resp_nodes : list (option str);
}.

(** One element of [viewsData.views] or [clonesData.clones]. *)
Record day_count := {
  timestamp : str;
  day_total : Z;
  day_uniques : Z;
}.

Inductive api :=
  | Graphql | GetViews | GetClones
  | GetRef | CreateRef | UpdateRef
  | GetContent | GetCommit
  | CreateBlob | CreateTree | CreateCommit.

#[export] Instance api_eq_dec : EqDecision api.
Proof. solve_decision. Defined.

(** A request sent: the endpoint and the reference, path or repository it
    names. *)
Definition event : Type := api * str.

(** The requests that change the storage repository. *)
Definition is_mutation (ev : event) : bool :=
  match fst ev with
  | CreateRef | UpdateRef | CreateBlob | CreateTree | CreateCommit => true
  | _ => false
  end.

(** The world of one run.
    - [w_repo]: the storage repository ([storage_owner]/[storage_repo]);
    - [w_next]: the next fresh object name;
    - [w_stats], [w_views], [w_clones]: what the metrics source answers for
      the tracked repository;
    - [w_fault]: the endpoints that fail for a reason of their own
      (credentials, rate limit, network), with the HTTP status they fail
      with;
    - [w_today]: the current day, counted from 1970-01-01;
    - [w_log]: the requests sent so far, oldest first;
    - [w_outputs]: the outputs set with [core.setOutput]. *)
Record world := {
  w_repo : repository;
  w_next : sha;
  w_stats : stats_response;
  w_views : list day_count;
  w_clones : list day_count;
  w_fault : api -> option Z;
  w_today : Z;
  w_log : list event;
  w_outputs : list (str * Z);
}.

Definition with_repo (r : repository) (w : world) : world :=
  {| w_repo := r; w_next := w_next w; w_stats := w_stats w;
     w_views := w_views w; w_clones := w_clones w; w_fault := w_fault w;
     w_today := w_today w; w_log := w_log w; w_outputs := w_outputs w |}.

Definition with_next (n : sha) (w : world) : world :=
  {| w_repo := w_repo w; w_next := n; w_stats := w_stats w;
     w_views := w_views w; w_clones := w_clones w; w_fault := w_fault w;
     w_today := w_today w; w_log := w_log w; w_outputs := w_outputs w |}.

Definition with_log (l : list event) (w : world) : world :=
  {| w_repo := w_repo w; w_next := w_next w; w_stats := w_stats w;
     w_views := w_views w; w_clones := w_clones w; w_fault := w_fault w;
     w_today := w_today w; w_log := l; w_outputs := w_outputs w |}.

Definition with_outputs (o : list (str * Z)) (w : world) : world :=
  {| w_repo := w_repo w; w_next := w_next w; w_stats := w_stats w;
     w_views := w_views w; w_clones := w_clones w; w_fault := w_fault w;
     w_today := w_today w; w_log := w_log w; w_outputs := o |}.

Definition set_refs (m : gmap str sha) (r : repository) : repository :=
  {| refs := m; commit_objs := commit_objs r; tree_objs := tree_objs r;
     blob_objs := blob_objs r |}.

(** *** The monad of [async] functions *)

Definition M (A : Type) : Type := world -> outcome A * world.

Definition ret {A} (a : A) : M A := fun w => (Return a, w).

Definition throw {A} (e : exn) : M A := fun w => (Throw e, w).

Definition diverge {A} : M A := fun w => (Diverge, w).

Definition bind {A B} (m : M A) (k : A -> M B) : M B :=
  fun w =>
    match m w with
    | (Return a, w') => k a w'
    | (Throw e, w') => (Throw e, w')
    | (Diverge, w') => (Diverge, w')
    end.

(** [try { m } catch (error) { handler }] *)
Definition try_catch {A} (m : M A) (handler : exn -> M A) : M A :=
  fun w =>
    match m w with
    | (Throw e, w') => handler e w'
    | r => r
    end.

(** A function that does not touch the world. *)
Definition lift {A} (o : outcome A) : M A := fun w => (o, w).

(** [await Promise.all([a, b])]: both requests are sent; the first
    rejection is the one thrown. *)
Definition promise_all {A B} (a : M A) (b : M B) : M (A * B) :=
  fun w =>
    let '(ra, w1) := a w in
    let '(rb, w2) := b w1 in
    match ra, rb with
    | Return x, Return y => (Return (x, y), w2)
    | Throw e, _ => (Throw e, w2)
    | Diverge, _ => (Diverge, w2)
    | Return _, Throw e => (Throw e, w2)
    | Return _, Diverge => (Diverge, w2)
    end.

Declare Scope async_scope.
Delimit Scope async_scope with async.
Notation "'let*' x ':=' m 'in' k" := (bind m (fun x => k))
  (at level 10, x pattern, m at level 100, k at level 200) : async_scope.
Local Open Scope async_scope.

(** *** Requests *)

(** A request is logged, then fails with the status of [w_fault] if its
    endpoint is down, and is served otherwise. *)
Definition request {A} (endpoint : api) (arg : str)
    (serve : world -> outcome A * world) : M A :=
  fun w =>
    let w1 := with_log (w_log w ++ [(endpoint, arg)]) w in
    match w_fault w endpoint with
    | Some status => (Throw (HttpError status), w1)
    | None => serve w1
    end.

Definition not_found {A} : M A := throw (HttpError 404).

Definition fresh : M sha :=
  fun w => (Return (w_next w), with_next (w_next w + 1)%N w).

(** [octokit.rest.git.getRef({ref})] with [ref] of the form [heads/...];
    yields [refData.object.sha]. *)
Definition getRef (ref : str) : M sha :=
  request GetRef ref (fun w =>
    match refs (w_repo w) !! (lit "refs/" ++ ref) with
    | Some s => (Return s, w)
    | None => (Throw (HttpError 404), w)
    end).

(** [octokit.rest.git.createRef({ref, sha})] with the full name of the
    reference; status 422 when the reference exists. *)
Definition createRef (ref : str) (s : sha) : M unit :=
  request CreateRef ref (fun w =>
    match refs (w_repo w) !! ref with
    | Some _ => (Throw (HttpError 422), w)
    | None =>
        (Return tt, with_repo (set_refs (<[ref := s]> (refs (w_repo w))) (w_repo w)) w)
    end).

(** [octokit.rest.git.updateRef({ref, sha})] with [ref] of the form
    [heads/...]. *)
Definition updateRef (ref : str) (s : sha) : M unit :=
  request UpdateRef ref (fun w =>
    match refs (w_repo w) !! (lit "refs/" ++ ref) with
    | None => (Throw (HttpError 422), w)
    | Some _ =>
        (Return tt,
         with_repo (set_refs (<[lit "refs/" ++ ref := s]> (refs (w_repo w)))
                             (w_repo w)) w)
    end).

(** The file at [path] on the branch [ref], if there is one. *)
Definition file_at (r : repository) (path ref : str) : option str :=
  match refs r !! (lit "refs/heads/" ++ ref) with
  | None => None
  | Some c =>
      match commit_objs r !! c with
      | None => None
      | Some co =>
          match tree_objs r !! commit_tree co with
          | None => None
          | Some t =>
              match t !! path with
              | None => None
              | Some b => blob_objs r !! b
              end
          end
      end
  end.

(** [octokit.rest.repos.getContent({path, ref})] followed by
    [Base64.decode(fileData.content)]: the text of the file. *)
Definition getContent (path ref : str) : M str :=
  request GetContent path (fun w =>
    match file_at (w_repo w) path ref with
    | Some text => (Return text, w)
    | None => (Throw (HttpError 404), w)
    end).

(** [octokit.rest.git.getCommit({commit_sha})]; yields
    [commitData.tree.sha]. *)
Definition getCommit (c : sha) : M sha :=
  request GetCommit [] (fun w =>
    match commit_objs (w_repo w) !! c with
    | Some co => (Return (commit_tree co), w)
    | None => (Throw (HttpError 404), w)
    end).

(** [octokit.rest.git.createBlob({content})]; yields [blobData.sha]. *)
Definition createBlob (content : str) : M sha :=
  request CreateBlob [] (fun w =>
    let b := w_next w in
    let r := w_repo w in
    (Return b,
     with_next (b + 1)%N
       (with_repo {| refs := refs r; commit_objs := commit_objs r;
                     tree_objs := tree_objs r;
                     blob_objs := <[b := content]> (blob_objs r) |} w))).

(** [octokit.rest.git.createTree({base_tree, tree: [{path, sha}]})];
    yields [newTreeData.sha]. *)
Definition createTree (base_tree : sha) (path : str) (blob : sha) : M sha :=
  request CreateTree path (fun w =>
    let r := w_repo w in
    match tree_objs r !! base_tree with
    | None => (Throw (HttpError 404), w)
    | Some base =>
        let t := w_next w in
        (Return t,
         with_next (t + 1)%N
           (with_repo {| refs := refs r; commit_objs := commit_objs r;
                         tree_objs := <[t := <[path := blob]> base]> (tree_objs r);
                         blob_objs := blob_objs r |} w))
    end).

(** [octokit.rest.git.createCommit({message, tree, parents})]; yields
    [newCommitData.sha]. *)
Definition createCommit (message : str) (tree : sha) (parents : list sha) : M sha :=
  request CreateCommit [] (fun w =>
    let r := w_repo w in
    let c := w_next w in
    (Return c,
     with_next (c + 1)%N
       (with_repo {| refs := refs r;
                     commit_objs :=
                       <[c := {| commit_tree := tree; commit_parents := parents;
                                 commit_message := message |}]> (commit_objs r);
                     tree_objs := tree_objs r; blob_objs := blob_objs r |} w))).

(** [timestamp.split("T")[0]] *)
Definition day_of (ts : str) : str :=
  match split "T"%char ts with
  | d :: _ => d
  | [] => []
  end.

(** [data.find((d) => d.timestamp.split("T")[0] === dateString)
     || { count: 0, uniques: 0 }] *)
Definition find_day (days : list day_count) (dateString : str) : traffic :=
  match List.find (fun d => bool_decide (day_of (timestamp d) = dateString)) days with
  | Some d => {| count := day_total d; uniques := day_uniques d |}
  | None => {| count := 0; uniques := 0 |}
  end.

Definition getYesterdayTraffic (dateString : str) : M traffic :=
  request GetViews dateString (fun w => (Return (find_day (w_views w) dateString), w)).

Definition getYesterdayClones (dateString : str) : M traffic :=
  request GetClones dateString (fun w => (Return (find_day (w_clones w) dateString), w)).

Record repo_stats := {
  stargazerCount : Z;
  commitCount : Z;
  contributorsCount : Z;
}.

(** [new Set(nodes.filter((node) => node.author.user)
                  .map((node) => node.author.user.login)).size] *)
Definition contributors_of (nodes : list (option str)) : Z :=
  Z.of_nat (size (list_to_set (omap id nodes) : gset str)).

Definition getRepoStats (owner repo : str) : M repo_stats :=
  request Graphql (owner ++ "/"%char :: repo) (fun w =>
    (Return {| stargazerCount := resp_stargazerCount (w_stats w);
               commitCount := resp_totalCount (w_stats w);
               contributorsCount := contributors_of (resp_nodes (w_stats w)) |},
     w)).

(** *** The clock *)

(** Year, month and day of a day number (days since 1970-01-01) in the
    proleptic Gregorian calendar. *)
Definition civil_from_days (day : Z) : Z * Z * Z :=
  let z := day + 719468 in
  let era := z / 146097 in
  let doe := z mod 146097 in
  let yoe := (doe - doe / 1460 + doe / 36524 - doe / 146096) / 365 in
  let doy := doe - (365 * yoe + yoe / 4 - yoe / 100) in
  let mp := (5 * doy + 2) / 153 in
  let d := doy - (153 * mp + 2) / 5 + 1 in
  let m := if mp <? 10 then mp + 3 else mp - 9 in
  let y := yoe + era * 400 in
  (if m <=? 2 then y + 1 else y, m, d).

Definition digit_char (n : Z) : ascii := ascii_of_N (48 + Z.to_N (n mod 10)).

Definition pad2 (n : Z) : str := [digit_char (n / 10); digit_char n].

Definition pad4 (n : Z) : str :=
  [digit_char (n / 1000); digit_char (n / 100); digit_char (n / 10); digit_char n].

Definition pad6 (n : Z) : str :=
  [digit_char (n / 100000); digit_char (n / 10000); digit_char (n / 1000);
   digit_char (n / 100); digit_char (n / 10); digit_char n].

(** [date.toISOString().split("T")[0]] for the day [day]: four digits for
    the years 0 to 9999, a sign and six digits otherwise. *)
Definition isoDate (day : Z) : str :=
  let '(y, m, d) := civil_from_days day in
  let year :=
    if (0 <=? y) && (y <=? 9999) then pad4 y
    else (if y <? 0 then "-"%char else "+"%char) :: pad6 (Z.abs y) in
  year ++ "-"%char :: pad2 m ++ "-"%char :: pad2 d.

(** [const today = new Date(); today.setDate(today.getDate() - i);
     today.toISOString().split("T")[0]]: the clock is read in days, so
    local time and UTC are taken to name the same day. *)
Definition daysAgo (i : Z) : M str :=
  fun w => (Return (isoDate (w_today w - i)), w).

Definition getYesterdayDateString : M str := daysAgo 1.

End World.
Import World.

(** ** The action: [getInsightsFile], [ensureBranchExists],
    [commitFileToBranch] and [run] *)

Module Action.

Local Open Scope async_scope.

(** [path.join(rootDir, owner, repo)] and [path.join(dirPath,
    `stats.${format}`)], on path segments that need no normalisation. *)
Definition statsPath (rootDir owner repo format : str) : str :=
  rootDir ++ "/"%char :: owner ++ "/"%char :: repo ++ "/"%char
    :: lit "stats." ++ format.

(** [value.length] of a parsed JSON value: [inl TypeError] on [null],
    [None] for [undefined]. An array and a string have a length; a number
    and a boolean have none; an object is taken to have no property named
    [length]. *)
Definition js_length (v : json) : exn + option Z :=
  match v with
  | JNull => inl TypeError
  | JArr elems => inr (Some (Z.of_nat (length elems)))
  | JStr s => inr (Some (Z.of_nat (length s)))
  | _ => inr None
  end.

(** The empty file of the [catch] block. *)
Definition emptyFile (format : str) : M (option str * option Z) :=
  if decide (format = lit "json") then
    ret (Some (JSON_stringify (JArr [])), Some 0)
  else if decide (format = lit "csv") then
    ret (Some (csvHeader ++ [NL]), Some 0)
  else throw UnsupportedFormat.

(** [getInsightsFile({branch, rootDir, format})]; [owner] and [repo] are
    the inputs read with [core.getInput]. Returns [[insightsFile,
    insightsCount]]. *)
Definition getInsightsFile (owner repo branch rootDir format : str)
  : M (option str * option Z) :=
  let filePath := statsPath rootDir owner repo format in
  try_catch
    (let* existingContent := getContent filePath branch in
     if decide (format = lit "json") then
       match JSON_parse existingContent with
       | None => throw SyntaxError
       | Some v =>
           match js_length v with
           | inl e => throw e
           | inr insightsCount => ret (Some existingContent, insightsCount)
           end
       end
     else if decide (format = lit "csv") then
       let csvLines := csv_lines existingContent in
       ret (Some (join [NL] csvLines), Some (Z.of_nat (length csvLines) - 1))
     else throw UnsupportedFormat)
    (fun error => emptyFile format).

(** [ensureBranchExists({branch})] *)
Definition ensureBranchExists (branch : str) : M unit :=
  try_catch
    (let* _ := getRef (lit "heads/" ++ branch) in ret tt)
    (fun error =>
       if decide (exn_status error = Some 404) then
         let* mainSha := getRef (lit "heads/main") in
         let* _ := createRef (lit "refs/heads/" ++ branch) mainSha in
         ret tt
       else throw (BranchCheckFailed error)).

(** [commitFileToBranch({branch, rootDir, fileContent, format})]; a
    [fileContent] that is [undefined] is sent as the empty text. *)
Definition commitFileToBranch (owner repo branch rootDir : str)
    (fileContent : option str) (format : str) : M unit :=
  let filePath := statsPath rootDir owner repo format in
  let* commitSha := getRef (lit "heads/" ++ branch) in
  let* treeSha := getCommit commitSha in
  let* blobSha := createBlob (default [] fileContent) in
  let* newTreeSha := createTree treeSha filePath blobSha in
  let* newCommitSha :=
    createCommit (lit "Update stats file for " ++ owner ++ "/"%char :: repo)
                 newTreeSha [commitSha] in
  updateRef (lit "heads/" ++ branch) newCommitSha.

(** [insightsCount < 14], false when the count is [undefined]. *)
Definition less_than_14 (insightsCount : option Z) : bool :=
  match insightsCount with
  | Some k => k <? 14
  | None => false
  end.

(** One turn of the loop body: the dates, the two requests and the
    upsert. *)
Definition backfillDay (stats : repo_stats) (format : str) (i : Z)
    (insightsFile : option str) : M (option str) :=
  let* yesterdayDateString := daysAgo i in
  let* (yesterdayTraffic, yesterdayClones) :=
    promise_all (getYesterdayTraffic yesterdayDateString)
                (getYesterdayClones yesterdayDateString) in
  lift (generateFileContent insightsFile
          (stargazerCount stats) (commitCount stats) (contributorsCount stats)
          yesterdayTraffic yesterdayClones yesterdayDateString format).

(** [while (i != 1) { ...; i--; }] *)
Fixpoint backfillLoop (fuel : nat) (stats : repo_stats) (format : str) (i : Z)
    (insightsFile : option str) : M (option str) :=
  if decide (i <> 1) then
    match fuel with
    | O => diverge
    | S fuel' =>
        let* insightsFile' := backfillDay stats format i insightsFile in
        backfillLoop fuel' stats format (i - 1) insightsFile'
    end
  else ret insightsFile.

(** The block [if (insightsCount < 14) { let i = 14; while ... }] of
    [run]; yields the value of [insightsFile] after it. *)
Definition backfill (fuel : nat) (stats : repo_stats) (format : str)
    (insightsCount : option Z) (insightsFile : option str) : M (option str) :=
  if less_than_14 insightsCount then backfillLoop fuel stats format 14 insightsFile
  else ret insightsFile.

(** [setOutputs] *)
Definition setOutputs (stats : repo_stats) (yesterdayTraffic yesterdayClones : traffic)
  : M unit :=
  fun w =>
    (Return tt,
     with_outputs
       (w_outputs w ++
        [ (lit "stargazers", stargazerCount stats);
          (lit "commits", commitCount stats);
          (lit "contributors", contributorsCount stats);
          (lit "traffic_views", count yesterdayTraffic);
          (lit "traffic_uniques", uniques yesterdayTraffic);
          (lit "clones_count", count yesterdayClones);
          (lit "clones_uniques", uniques yesterdayClones) ]) w).

(** The inputs of the action as [core.getInput] returns them: the empty
    string for an input that is not set. The tokens and the inputs
    [storage_owner] and [storage_repo] choose the clients and the storage
    repository, which the world stands for; they are not read again. *)
Record inputs := {
  in_owner : str;
  in_repository : str;
  in_directory : str;
  in_branch : str;
  in_format : str;
}.

(** [a || b] on strings *)
Definition or_else (a b : str) : str :=
  match a with
  | [] => b
  | _ => a
  end.

(** [(core.getInput("format") || "json").toLowerCase()] *)
Definition effective_format (inp : inputs) : str :=
  toLowerCase (or_else (in_format inp) (lit "json")).

Definition effective_branch (inp : inputs) : str :=
  or_else (in_branch inp) (lit "repository-insights").

(** The body of the [try] block of [run]. *)
Definition run_body (fuel : nat) (inp : inputs) : M unit :=
  let owner := in_owner inp in
  let repo := in_repository inp in
  let rootDir := or_else (in_directory inp) (lit ".insights") in
  let branch := effective_branch inp in
  let format := effective_format inp in
  let* stats := getRepoStats owner repo in
  let* _ := ensureBranchExists branch in
  let* (insightsFile, insightsCount) :=
    getInsightsFile owner repo branch rootDir format in
  let* insightsFile := backfill fuel stats format insightsCount insightsFile in
  let* yesterdayDateString := getYesterdayDateString in
  let* (yesterdayTraffic, yesterdayClones) :=
    promise_all (getYesterdayTraffic yesterdayDateString)
                (getYesterdayClones yesterdayDateString) in
  let* _ := setOutputs stats yesterdayTraffic yesterdayClones in
  let* fileContent :=
    lift (generateFileContent insightsFile
            (stargazerCount stats) (commitCount stats) (contributorsCount stats)
            yesterdayTraffic yesterdayClones yesterdayDateString format) in
  commitFileToBranch owner repo branch rootDir fileContent format.

(** How a run ends: [core.setFailed] is called in the [catch] block. *)
Inductive run_result :=
  | Succeeded
  | Failed (error : exn)
  | Hangs.

Definition run (fuel : nat) (inp : inputs) (w : world) : run_result * world :=
  match run_body fuel inp w with
  | (Return _, w') => (Succeeded, w')
  | (Throw error, w') => (Failed error, w')
  | (Diverge, w') => (Hangs, w')
  end.

(** The offsets of the backfill, in the order of the loop. *)
Definition backfillOffsets : list Z := [14; 13; 12; 11; 10; 9; 8; 7; 6; 5; 4; 3; 2].

(** Running the loop body once per offset of a list. *)
Fixpoint backfillDays (stats : repo_stats) (format : str) (offsets : list Z)
    (insightsFile : option str) : M (option str) :=
  match offsets with
  | [] => ret insightsFile
  | i :: offsets' =>
      let* insightsFile' := backfillDay stats format i insightsFile in
      backfillDays stats format offsets' insightsFile'
  end.

(** The record the loop body upserts for the offset [i]. *)
Definition backfillEntry (w : world) (stats : repo_stats) (i : Z) : entry :=
  let d := isoDate (w_today w - i) in
  {| date := d;
     stargazers := stargazerCount stats;
     commits := commitCount stats;
     contributors := contributorsCount stats;
     traffic_views := count (find_day (w_views w) d);
     traffic_uniques := uniques (find_day (w_views w) d);
     clones_count := count (find_day (w_clones w) d);
     clones_uniques := uniques (find_day (w_clones w) d) |}.

(** The offsets [n + 1] down to 2. *)
Fixpoint countdown (n : nat) : list Z :=
  match n with
  | O => []
  | S n' => (Z.of_nat n + 1) :: countdown n'
  end.

(** The requests a run sent, given the worlds before and after. *)
Definition sent (w w' : world) : list event := drop (length (w_log w)) (w_log w').

(** The requests of one turn of the loop. *)
Definition day_requests (w : world) (i : Z) : list event :=
  [(GetViews, isoDate (w_today w - i)); (GetClones, isoDate (w_today w - i))].

(** The totals the metrics source holds at the start of the run: what
    [getRepoStats] returns when it is answered. *)
Definition run_start_stats (w : world) : repo_stats :=
  {| stargazerCount := resp_stargazerCount (w_stats w);
     commitCount := resp_totalCount (w_stats w);
     contributorsCount := contributors_of (resp_nodes (w_stats w)) |}.

(** [m] sends only requests that satisfy [P]. *)
Definition emits {A} (P : event -> Prop) (m : M A) : Prop :=
  forall w, exists l, w_log (snd (m w)) = w_log w ++ l /\ Forall P l.

(** [m] returns or throws in every world. *)
Definition terminates {A} (m : M A) : Prop :=
  forall w, fst (m w) <> Diverge.

(** The metrics source answers: none of its endpoints is down. *)
Definition metrics_up (w : world) : Prop :=
  w_fault w GetViews = None /\ w_fault w GetClones = None.

End Action.
Import Action.

(** ** Sample data *)

Module Samples.

Definition day1 : entry :=
  {| date := lit "2024-01-01"; stargazers := 10; commits := 5; contributors := 2;
     traffic_views := 3; traffic_uniques := 1; clones_count := 0;
     clones_uniques := 0 |}.

Definition day2 : entry :=
  {| date := lit "2024-01-02"; stargazers := 12; commits := 5; contributors := 2;
     traffic_views := 4; traffic_uniques := 2; clones_count := 1;
     clones_uniques := 1 |}.

(** A second measurement of the first day. *)
Definition day1_again : entry :=
  {| date := lit "2024-01-01"; stargazers := 15; commits := 6; contributors := 2;
     traffic_views := 3; traffic_uniques := 1; clones_count := 0;
     clones_uniques := 0 |}.

(** A storage repository with a [main] branch at commit 1, whose tree 2
    is empty, and no other branch. *)
Definition fresh_repo : repository :=
  {| refs := {[ lit "refs/heads/main" := 1%N ]};
     commit_objs :=
       {[ 1%N := {| commit_tree := 2%N; commit_parents := [];
                    commit_message := lit "initial" |} ]};
     tree_objs := {[ 2%N := ∅ ]};
     blob_objs := ∅ |}.

Definition sample_stats : stats_response :=
  {| resp_stargazerCount := 10; resp_totalCount := 50;
     resp_nodes := [Some (lit "ann"); None; Some (lit "bob"); Some (lit "ann")] |}.

(** 2024-01-15, every endpoint up. *)
Definition fresh_world : world :=
  {| w_repo := fresh_repo; w_next := 3%N; w_stats := sample_stats;
     w_views := [ {| timestamp := lit "2024-01-10T00:00:00Z"; day_total := 7;
                     day_uniques := 3 |} ];
     w_clones := [];
     w_fault := fun _ => None;
     w_today := 19737;
     w_log := []; w_outputs := [] |}.

(** The same world with one endpoint failing with a status. *)
Definition with_fault (endpoint : api) (status : Z) (w : world) : world :=
  {| w_repo := w_repo w; w_next := w_next w; w_stats := w_stats w;
     w_views := w_views w; w_clones := w_clones w;
     w_fault := fun a => if decide (a = endpoint) then Some status else w_fault w a;
     w_today := w_today w; w_log := w_log w; w_outputs := w_outputs w |}.

(** A repository whose insights branch holds [text] at the json path of
    the tracked repository [o/r]. *)
Definition repo_with_file (text : str) : repository :=
  {| refs := {[ lit "refs/heads/main" := 1%N;
                lit "refs/heads/repository-insights" := 3%N ]};
     commit_objs :=
       {[ 1%N := {| commit_tree := 2%N; commit_parents := [];
                    commit_message := lit "initial" |};
          3%N := {| commit_tree := 4%N; commit_parents := [1%N];
                    commit_message := lit "stats" |} ]};
     tree_objs := {[ 2%N := ∅; 4%N := {[ lit ".insights/o/r/stats.json" := 5%N ]} ]};
     blob_objs := {[ 5%N := text ]} |}.

Definition world_with_file (text : str) : world :=
  {| w_repo := repo_with_file text; w_next := 6%N; w_stats := sample_stats;
     w_views := []; w_clones := [];
     w_fault := fun _ => None;
     w_today := 19737;
     w_log := []; w_outputs := [] |}.

(** A record of an earlier month, and a storage repository that holds it
    as its whole history. *)
Definition old_day : entry :=
  {| date := lit "2023-06-01"; stargazers := 4; commits := 20; contributors := 1;
     traffic_views := 9; traffic_uniques := 5; clones_count := 2;
     clones_uniques := 2 |}.

Definition world_with_history : world := world_with_file (encode_json [old_day]).

(** The records a run writes on 2024-01-15 for the days 14 to 1 before,
    in the sample worlds (no views or clones on record but those of
    2024-01-10 in [fresh_world]). *)
Definition written_records (w : world) : list entry :=
  map (backfillEntry w (run_start_stats w)) (backfillOffsets ++ [1]).

(** The stats file on the insights branch after a run. *)
Definition stats_file_after (format : str) (r : run_result * world) : option str :=
  file_at (w_repo (snd r)) (lit ".insights/o/r/stats." ++ format)
          (lit "repository-insights").

(** A record whose date is not a calendar date but the prefix of one. *)
Definition year_only : entry :=
  {| date := lit "2024"; stargazers := 0; commits := 0; contributors := 0;
     traffic_views := 0; traffic_uniques := 0; clones_count := 0;
     clones_uniques := 0 |}.

Definition sample_inputs (format : str) : inputs :=
  {| in_owner := lit "o"; in_repository := lit "r"; in_directory := [];
     in_branch := []; in_format := format |}.

End Samples.

(** ** The storage repository as a run leaves it *)

Module Store.

(** Every object name the repository mentions is below [n]. *)
Definition names_below (n : sha) (r : repository) : Prop :=
  map_Forall (fun _ c => (c < n)%N) (refs r)
  /\ map_Forall (fun c co => (c < n)%N /\ (commit_tree co < n)%N) (commit_objs r)
  /\ map_Forall (fun t entries => (t < n)%N /\ map_Forall (fun _ b => (b < n)%N) entries)
                (tree_objs r)
  /\ map_Forall (fun b _ => (b < n)%N) (blob_objs r).

(** Every reference points to a commit of the database whose tree is in
    the database. *)
Definition heads_complete (r : repository) : Prop :=
  map_Forall (fun _ c =>
                is_Some (commit_objs r !! c
                         ≫= fun co => tree_objs r !! commit_tree co))
             (refs r).

(** A well-formed store: the names in use are below the next fresh name,
    and the heads are complete. *)
Definition store_ok (w : world) : Prop :=
  names_below (w_next w) (w_repo w) /\ heads_complete (w_repo w).

(** The objects named below [n] are the same in [r] and [r']. *)
Definition agree_below (n : sha) (r r' : repository) : Prop :=
  forall k : sha, (k < n)%N ->
    commit_objs r' !! k = commit_objs r !! k
    /\ tree_objs r' !! k = tree_objs r !! k
    /\ blob_objs r' !! k = blob_objs r !! k.

(** Every endpoint answers. *)
Definition all_up (w : world) : Prop := forall endpoint, w_fault w endpoint = None.

(** The branch a run reads its history from: the target branch when it
    exists, [main] otherwise. *)
Definition base_branch (r : repository) (branch : str) : str :=
  match refs r !! (lit "refs/heads/" ++ branch) with
  | Some _ => branch
  | None => lit "main"
  end.

(** The path of the stats file of a run. *)
Definition stats_path (inp : inputs) : str :=
  statsPath (or_else (in_directory inp) (lit ".insights")) (in_owner inp)
            (in_repository inp) (effective_format inp).

(** The dataset a run finds: the empty one when the base branch holds no
    stats file, the one the file stores otherwise. *)
Definition stored (inp : inputs) (w : world) (D : list entry) : Prop :=
  match file_at (w_repo w) (stats_path inp)
                (base_branch (w_repo w) (effective_branch inp)) with
  | None => D = []
  | Some text => represents (effective_format inp) text D
  end.

(** The record of the day before, as a run writes it. *)
Definition yesterdayEntry (w : world) : entry :=
  backfillEntry w (run_start_stats w) 1.

(** The dataset a run writes when it finds [D]. *)
Definition next_dataset (w : world) (D : list entry) : list entry :=
  spec_upsert
    (if Z.of_nat (length D) <? 14
     then fold_left spec_upsert (map (backfillEntry w (run_start_stats w)) backfillOffsets) D
     else D)
    (yesterdayEntry w).

(** The seven outputs of a run. *)
Definition run_outputs (w : world) : list (str * Z) :=
  let y := yesterdayEntry w in
  [ (lit "stargazers", stargazers y);
    (lit "commits", commits y);
    (lit "contributors", contributors y);
    (lit "traffic_views", traffic_views y);
    (lit "traffic_uniques", traffic_uniques y);
    (lit "clones_count", clones_count y);
    (lit "clones_uniques", clones_uniques y) ].

(** The metrics source, the failing endpoints and the clock are the same
    in [w] and [w']. *)
Definition same_env (w w' : world) : Prop :=
  w_stats w' = w_stats w /\ w_views w' = w_views w /\ w_clones w' = w_clones w
  /\ w_fault w' = w_fault w /\ w_today w' = w_today w.

(** From [w] to [w'] object names were only added, the objects that
    existed are as they were, and no reference but [target] has changed. *)
Definition frame (target : str) (w w' : world) : Prop :=
  same_env w w'
  /\ (w_next w <= w_next w')%N
  /\ agree_below (w_next w) (w_repo w) (w_repo w')
  /\ (forall name, name <> target -> refs (w_repo w') !! name = refs (w_repo w) !! name).

(** From [w] to [w'] objects were only added and no reference has
    changed. *)
Definition quiet (w w' : world) : Prop :=
  same_env w w'
  /\ (w_next w <= w_next w')%N
  /\ agree_below (w_next w) (w_repo w) (w_repo w')
  /\ refs (w_repo w') = refs (w_repo w).

(** As [frame], and the reference [target] is as it was if it existed. *)
Definition evolves (target : str) (w w' : world) : Prop :=
  frame target w w'
  /\ (forall s, refs (w_repo w) !! target = Some s ->
                 refs (w_repo w') !! target = Some s).



(** [m] takes every world to one that [I] relates to it. *)
Definition keeps {A} (I : world -> world -> Prop) (m : M A) : Prop :=
  forall w, I w (snd (m w)).

(** [m] is a sequence of steps that [I] relates, followed, if they all
    return, by the update of the reference [ref]. *)
Definition then_updates (I : world -> world -> Prop) (ref : str) (m : M unit) : Prop :=
  forall w, exists (o : outcome sha) w1,
    I w w1
    /\ m w = match o with
             | Return c => updateRef ref c w1
             | Throw e => (Throw e, w1)
             | Diverge => (Diverge, w1)
             end.

(** The repository after a commit of [content] at [path] on top of the
    commit [head], whose tree is [base]: blob [n], tree [n + 1] and commit
    [n + 2] are new, and the reference [name] points to the commit. *)
Definition committed (r : repository) (n : sha) (name path content message : str)
    (head : sha) (base : gmap str sha) : repository :=
  {| refs := <[name := (n + 2)%N]> (refs r);
     commit_objs :=
       <[(n + 2)%N := {| commit_tree := (n + 1)%N; commit_parents := [head];
                         commit_message := message |}]> (commit_objs r);
     tree_objs := <[(n + 1)%N := <[path := n]> base]> (tree_objs r);
     blob_objs := <[n := content]> (blob_objs r) |}.

(** The requests of a commit that goes through. *)
Definition commit_requests (branch path : str) : list event :=
  [ (GetRef, lit "heads/" ++ branch); (GetCommit, []); (CreateBlob, []);
    (CreateTree, path); (CreateCommit, []); (UpdateRef, lit "heads/" ++ branch) ].

(** The head commit of a branch. *)
Definition head_of (r : repository) (branch : str) : option commit_obj :=
  match refs r !! (lit "refs/heads/" ++ branch) with
  | Some c => commit_objs r !! c
  | None => None
  end.

(** A world in which a run meets no obstacle: every endpoint answers, the
    store is well-formed, the branch the history is read from exists, the
    format is supported, the stats file, if there is one, stores the
    dataset [D], and the clock shows a day between 1970 and 9600. *)
Definition ready (inp : inputs) (w : world) (D : list entry) : Prop :=
  all_up w
  /\ store_ok w
  /\ is_Some (refs (w_repo w)
               !! (lit "refs/heads/" ++ base_branch (w_repo w) (effective_branch inp)))
  /\ supported (effective_format inp)
  /\ stored inp w D
  /\ dates_ok (effective_format inp) D
  /\ 0 <= w_today w < 2786860.

(** A parsed JSON value that is neither an array nor [null]. *)
Definition no_array (v : json) : bool :=
  match v with
  | JArr _ | JNull => false
  | _ => true
  end.

End Store.
Import Store.

(** ** More sample worlds *)

Module MoreSamples.
Import Samples.

(** A repository whose insights branch holds [text] at the csv path of
    the tracked repository [o/r], and a note beside it. *)
Definition repo_with_csv (text : str) : repository :=
  {| refs := {[ lit "refs/heads/main" := 1%N;
                lit "refs/heads/repository-insights" := 3%N ]};
     commit_objs :=
       {[ 1%N := {| commit_tree := 2%N; commit_parents := [];
                    commit_message := lit "initial" |};
          3%N := {| commit_tree := 4%N; commit_parents := [1%N];
                    commit_message := lit "stats" |} ]};
     tree_objs := {[ 2%N := ∅;
                     4%N := {[ lit ".insights/o/r/stats.csv" := 5%N;
                               lit "README.md" := 6%N ]} ]};
     blob_objs := {[ 5%N := text; 6%N := lit "notes" ]} |}.

Definition world_with_csv (text : str) : world :=
  {| w_repo := repo_with_csv text; w_next := 7%N; w_stats := sample_stats;
     w_views := []; w_clones := [];
     w_fault := fun _ => None;
     w_today := 19737;
     w_log := []; w_outputs := [] |}.

(** The csv file of a repository that has one day on record. *)
Definition world_with_rows : world := world_with_csv (encode_csv [old_day]).

(** A world whose stats file holds a JSON object. *)
Definition world_with_object : world :=
  world_with_file (lit "{" ++ quote (lit "date") ++ lit ": 1}").

End MoreSamples.

(** * Properties *)

(** ** Facts about strings *)

Module StrFacts.

Lemma split_nonempty sep s : split sep s <> [].
Proof.
  destruct s as [|c s]; simpl; [done|].
  case_decide; [done|]. by destruct (split sep s).
Qed.

(** Splitting a separator-free string yields the string itself. *)
Lemma split_no_sep sep s : sep ∉ s -> split sep s = [s].
Proof.
  induction s as [|c s IH]; intros Hs; simpl; [done|].
  apply not_elem_of_cons in Hs as [Hc Hs].
  case_decide; [congruence|]. by rewrite IH.
Qed.

Lemma split_app_sep sep l s :
  sep ∉ l -> split sep (l ++ sep :: s) = l :: split sep s.
Proof.
  induction l as [|c l IH]; intros Hl; simpl.
  - by case_decide.
  - apply not_elem_of_cons in Hl as [Hc Hl].
    case_decide; [congruence|]. by rewrite IH.
Qed.

(** [split] undoes [join] on a non-empty array of separator-free lines. *)
Lemma split_join sep ls :
  ls <> [] -> Forall (fun l => sep ∉ l) ls -> split sep (join [sep] ls) = ls.
Proof.
  induction ls as [|l ls IH]; intros Hne Hall; [done|].
  apply Forall_cons in Hall as [Hl Hall].
  destruct ls as [|l' ls].
  - simpl. by apply split_no_sep.
  - change (join [sep] (l :: l' :: ls)) with (l ++ sep :: join [sep] (l' :: ls)).
    rewrite split_app_sep by done. by rewrite IH.
Qed.

Lemma trimStart_nonspace c s : is_space c = false -> trimStart (c :: s) = c :: s.
Proof. intros H. simpl. by rewrite H. Qed.

Lemma trimStart_nil_iff s : trimStart s = [] <-> Forall (fun c => is_space c = true) s.
Proof.
  induction s as [|c s IH]; simpl.
  - split; [constructor|done].
  - destruct (is_space c) eqn:Hc.
    + rewrite IH. split; [by constructor|]. by inversion 1.
    + split; [done|]. inversion 1; congruence.
Qed.

(** A line survives the blank-line filter exactly when it holds a
    character that is not white space. *)
Lemma trim_nil_iff s : trim s = [] <-> Forall (fun c => is_space c = true) s.
Proof.
  unfold trim, trimEnd. split.
  - intros H. apply (f_equal (@rev ascii)) in H. rewrite rev_involutive in H.
    simpl in H. apply trimStart_nil_iff in H.
    apply Forall_forall. intros c Hc.
    destruct (is_space c) eqn:Hsp; [done|exfalso].
    assert (Hin : c ∈ trimStart s).
    { clear H. induction s as [|d s IH]; [done|]. simpl.
      destruct (is_space d) eqn:Hd.
      - apply IH. apply elem_of_cons in Hc as [->|Hc]; [congruence|done].
      - done. }
    rewrite Forall_forall in H. specialize (H c).
    assert (Hr : c ∈ rev (trimStart s)) by (apply list_elem_of_In; rewrite <- in_rev; by apply list_elem_of_In).
    specialize (H Hr). congruence.
  - intros H. apply trimStart_nil_iff in H. by rewrite H.
Qed.

Lemma trim_nonblank c s : c ∈ s -> is_space c = false -> trim s <> [].
Proof.
  intros Hc Hsp H. apply trim_nil_iff in H.
  rewrite Forall_forall in H. specialize (H c Hc). congruence.
Qed.


Lemma startsWith_prefix s p : startsWith s p = true <-> exists r, s = p ++ r.
Proof.
  revert s. induction p as [|c p IH]; intros s; simpl.
  - split; [by exists s|done].
  - destruct s as [|d s]; [split; [done|by intros [r Hr]]|].
    case_decide as Hcd.
    + subst d. rewrite IH. split; intros [r Hr]; exists r; simpl in *; congruence.
    + split; [done|]. intros [r Hr]. simpl in Hr. congruence.
Qed.

Lemma findIndex_Some {A} (p : A -> bool) arr k :
  findIndex p arr = Some k <->
  exists x, arr !! k = Some x /\ p x = true /\
            forall j y, arr !! j = Some y -> (j < k)%nat -> p y = false.
Proof.
  unfold findIndex. split.
  - intros H. apply fmap_Some in H as ([i x] & Hf & ->).
    apply list_find_Some in Hf as (Hl & Hp & Hlt).
    exists x. repeat split; [done..|].
    intros j y Hj Hjk. specialize (Hlt j y Hj Hjk).
    by destruct (p y).
  - intros (x & Hl & Hp & Hlt). apply fmap_Some. exists (k, x). split; [|done].
    apply list_find_Some. repeat split; [done..|].
    intros j y Hj Hjk. rewrite (Hlt j y Hj Hjk). done.
Qed.

Lemma findIndex_None {A} (p : A -> bool) arr :
  findIndex p arr = None <-> Forall (fun x => p x = false) arr.
Proof.
  unfold findIndex. rewrite fmap_None, list_find_None.
  apply Forall_iff. intros x. by destruct (p x).
Qed.

End StrFacts.

(** ** Facts about the JSON library *)

Module JsonFacts.

Lemma json_nested_ind (P : json -> Prop) :
  P JNull -> (forall b, P (JBool b)) -> (forall z, P (JNum z)) ->
  (forall s, P (JStr s)) ->
  (forall elems, Forall P elems -> P (JArr elems)) ->
  (forall props, Forall (fun kv => P (snd kv)) props -> P (JObj props)) ->
  forall v, P v.
Proof.
  intros Hnull Hbool Hnum Hstr Harr Hobj.
  fix IH 1. intros [| b | z | s | elems | props].
  - exact Hnull.
  - apply Hbool.
  - apply Hnum.
  - apply Hstr.
  - apply Harr. induction elems as [|x elems IHl]; constructor; [apply IH|exact IHl].
  - apply Hobj. induction props as [|[k x] props IHl]; constructor; [apply IH|exact IHl].
Qed.

(** *** String literals *)

Lemma parse_chars_escape c tail :
  parse_chars (escape_char c ++ tail) = cons_fst c (parse_chars tail).
Proof.
  destruct c as [[] [] [] [] [] [] [] []]; reflexivity.
Qed.

Lemma parse_chars_escaped s rest :
  parse_chars (flat_map escape_char s ++ DQUOTE :: rest) = Some (s, rest).
Proof.
  induction s as [|c s IH]; [reflexivity|].
  change (flat_map escape_char (c :: s)) with (escape_char c ++ flat_map escape_char s).
  rewrite <- app_assoc, parse_chars_escape, IH. reflexivity.
Qed.

Lemma quote_app s rest :
  quote s ++ rest = DQUOTE :: flat_map escape_char s ++ DQUOTE :: rest.
Proof. unfold quote. simpl. by rewrite <- app_assoc. Qed.

(** *** Number literals *)

Lemma read_digits_digits u rest :
  match rest with [] => True | c :: _ => digit_of c = None end ->
  read_digits (digits u ++ rest) = (u, rest).
Proof.
  intros Hrest.
  induction u as [|u IH|u IH|u IH|u IH|u IH|u IH|u IH|u IH|u IH|u IH];
    try (simpl; unfold digit_of; simpl; rewrite IH; reflexivity).
  simpl. destruct rest as [|c rest]; [done|]. simpl. by rewrite Hrest.
Qed.

Lemma number_ends_digit_of rest :
  number_ends rest = true ->
  match rest with [] => True | c :: _ => digit_of c = None end.
Proof.
  destruct rest as [|c rest]; [done|]. simpl.
  destruct c as [[] [] [] [] [] [] [] []]; (reflexivity || discriminate).
Qed.

Lemma unorm_fixed u : unorm u = u -> u <> Nil /\ leading_zero u = false.
Proof.
  intros H. split.
  - rewrite <- H. apply unorm_nonnil.
  - destruct u as [|u| | | | | | | | | ]; try reflexivity.
    destruct u as [|u| | | | | | | | | ]; try reflexivity; try discriminate.
    exfalso. unfold unorm in H. simpl in H.
    pose proof (nzhead_nonzero u) as Hnz.
    destruct (nzhead u) eqn:E; try discriminate. by eapply Hnz.
Qed.

Lemma nzhead_fixed u : nzhead u = u -> leading_zero u = false.
Proof.
  intros H. destruct u as [|u| | | | | | | | | ]; try reflexivity.
  exfalso. by eapply (nzhead_nonzero (D0 u)).
Qed.

Lemma to_int_norm z : norm (Z.to_int z) = Z.to_int z.
Proof. rewrite <- (DecimalZ.of_to z) at 2. by rewrite DecimalZ.to_of. Qed.

Lemma to_int_shape z :
  match Z.to_int z with
  | Decimal.Pos u | Decimal.Neg u => u <> Nil /\ leading_zero u = false
  end.
Proof.
  pose proof (to_int_norm z) as H. destruct (Z.to_int z) as [u|u]; simpl in H.
  - apply unorm_fixed. congruence.
  - destruct (nzhead u) eqn:E; try discriminate;
      injection H as H; split; try (rewrite <- H; discriminate);
      apply nzhead_fixed; congruence.
Qed.

Lemma digits_head u :
  u <> Nil -> exists c r, digits u = c :: r /\ is_digit c = true.
Proof. destruct u; [done|..]; intros _; simpl; eauto. Qed.

Lemma parse_number_numToString z rest :
  number_ends rest = true ->
  parse_number (numToString z ++ rest) = Some (z, rest).
Proof.
  intros Hrest. pose proof (to_int_shape z) as Hz.
  pose proof (DecimalZ.of_to z) as Hof.
  unfold numToString. destruct (Z.to_int z) as [u|u]; destruct Hz as [Hnil Hlz].
  - destruct (digits_head u Hnil) as (c & r & Hd & Hc).
    unfold parse_number. rewrite Hd. cbn [app].
    destruct (decide (c = "-"%char)) as [->|_]; [discriminate|].
    change (c :: r ++ rest) with ((c :: r) ++ rest). rewrite <- Hd.
    rewrite read_digits_digits by by apply number_ends_digit_of.
    rewrite Hlz, Hrest, Hof. by destruct u.
  - unfold parse_number. cbn [app].
    destruct (decide ("-"%char = "-"%char)); [|done].
    rewrite read_digits_digits by by apply number_ends_digit_of.
    rewrite Hlz, Hrest, Hof. by destruct u.
Qed.

(** *** White space *)

Lemma skip_ws_idem s : skip_ws (skip_ws s) = skip_ws s.
Proof.
  induction s as [|c s IH]; [done|]. simpl.
  destruct (is_ws c) eqn:E; [done|]. simpl. by rewrite E.
Qed.

Lemma skip_ws_pad n s : skip_ws (pad n ++ s) = skip_ws s.
Proof. induction n as [|n IH]; [done|]. simpl. exact IH. Qed.

Lemma skip_ws_NL_pad n s : skip_ws (NL :: pad n ++ s) = skip_ws s.
Proof. apply (skip_ws_pad n s). Qed.

Lemma parse_value_skip fuel s : parse_value fuel (skip_ws s) = parse_value fuel s.
Proof. destruct fuel; [done|]. simpl. by rewrite skip_ws_idem. Qed.

Lemma parse_elements_skip fuel s :
  parse_elements fuel (skip_ws s) = parse_elements fuel s.
Proof. destruct fuel; [done|]. simpl. by rewrite parse_value_skip. Qed.

Lemma parse_members_skip fuel s :
  parse_members fuel (skip_ws s) = parse_members fuel s.
Proof. destruct fuel; [done|]. simpl. by rewrite skip_ws_idem. Qed.

(** *** The first character of a printed value *)

Lemma numToString_head z :
  exists c r, numToString z = c :: r /\
              (is_digit c = true \/ c = "-"%char).
Proof.
  pose proof (to_int_shape z) as Hz. unfold numToString.
  destruct (Z.to_int z) as [u|u]; destruct Hz as [Hnil _].
  - destruct (digits_head u Hnil) as (c & r & -> & Hc). eauto.
  - eauto.
Qed.

Lemma number_start c : is_digit c = true \/ c = "-"%char -> value_start c.
Proof.
  intros [H| ->]; [|by repeat split].
  destruct c as [[] [] [] [] [] [] [] []]; try discriminate H; by repeat split.
Qed.

Lemma stringify_head ind v :
  exists c r, stringify_at ind v = c :: r /\ value_start c.
Proof.
  destruct v as [| [] | z | s | [|x elems] | [|kv props]]; simpl;
    try (eexists _, _; split; [reflexivity|by repeat split]).
  destruct (numToString_head z) as (c & r & -> & Hc).
  exists c, r. split; [done|]. by apply number_start.
Qed.

Lemma skip_ws_stringify ind v rest :
  skip_ws (stringify_at ind v ++ rest) = stringify_at ind v ++ rest.
Proof.
  destruct (stringify_head ind v) as (c & r & -> & Hws & _).
  simpl. by rewrite Hws.
Qed.

(** *** Unfolding the parser on the shapes the printer emits *)

Lemma parse_value_number fuel c r :
  is_digit c = true \/ c = "-"%char ->
  parse_value (S fuel) (c :: r) =
  match parse_number (c :: r) with
  | Some (z, r1) => Some (JNum z, r1)
  | None => None
  end.
Proof.
  intros [H| ->]; [|reflexivity].
  destruct c as [[] [] [] [] [] [] [] []]; try discriminate H; reflexivity.
Qed.

Lemma parse_value_string fuel r :
  parse_value (S fuel) (DQUOTE :: r) =
  match parse_chars r with
  | Some (x, r1) => Some (JStr x, r1)
  | None => None
  end.
Proof. reflexivity. Qed.

Lemma parse_value_array fuel r c r' :
  skip_ws r = c :: r' -> c <> "]"%char ->
  parse_value (S fuel) ("["%char :: r) =
  match parse_elements fuel (c :: r') with
  | Some (vs, r2) => Some (JArr vs, r2)
  | None => None
  end.
Proof.
  intros Hr Hc. cbn [parse_value]. change (skip_ws ("["%char :: r)) with ("["%char :: r).
  destruct (decide ("["%char = "["%char)); [|done].
  rewrite Hr. by destruct (decide (c = "]"%char)).
Qed.

Lemma parse_value_object fuel r c r' :
  skip_ws r = c :: r' -> c <> "}"%char ->
  parse_value (S fuel) ("{"%char :: r) =
  match parse_members fuel (c :: r') with
  | Some (ms, r2) => Some (JObj (obj_of_members ms), r2)
  | None => None
  end.
Proof.
  intros Hr Hc. cbn [parse_value]. change (skip_ws ("{"%char :: r)) with ("{"%char :: r).
  destruct (decide ("{"%char = "["%char)); [done|].
  destruct (decide ("{"%char = "{"%char)); [|done].
  rewrite Hr. by destruct (decide (c = "}"%char)).
Qed.

Lemma parse_elements_step fuel s v r :
  parse_value fuel s = Some (v, r) ->
  parse_elements (S fuel) s =
  match skip_ws r with
  | [] => None
  | c :: r' =>
      if decide (c = ","%char) then
        match parse_elements fuel r' with
        | Some (vs, r2) => Some (v :: vs, r2)
        | None => None
        end
      else if decide (c = "]"%char) then Some ([v], r')
      else None
  end.
Proof. intros H. cbn [parse_elements]. by rewrite H. Qed.

Lemma parse_members_step fuel k r v r3 :
  parse_value fuel r = Some (v, r3) ->
  parse_members (S fuel) (quote k ++ ":"%char :: r) =
  match skip_ws r3 with
  | [] => None
  | c3 :: r4 =>
      if decide (c3 = ","%char) then
        match parse_members fuel r4 with
        | Some (ms, r5) => Some ((k, v) :: ms, r5)
        | None => None
        end
      else if decide (c3 = "}"%char) then Some ([(k, v)], r4)
      else None
  end.
Proof.
  intros H. rewrite quote_app. cbn [parse_members].
  change (skip_ws (DQUOTE :: ?x)) with (DQUOTE :: x).
  destruct (decide (DQUOTE = DQUOTE)); [|done].
  rewrite parse_chars_escaped.
  change (skip_ws (":"%char :: r)) with (":"%char :: r).
  destruct (decide (":"%char = ":"%char)); [|done].
  by rewrite H.
Qed.

(** *** Objects *)

Lemma set_prop_fresh k v props :
  k ∉ map fst props -> set_prop k v props = props ++ [(k, v)].
Proof.
  induction props as [|[k' v'] props IH]; intros Hk; simpl; [done|].
  simpl in Hk. apply not_elem_of_cons in Hk as [Hne Hk].
  case_decide; [congruence|]. by rewrite IH.
Qed.

Lemma obj_of_members_app acc ms :
  NoDup (map fst (acc ++ ms)) ->
  fold_left (fun a kv => set_prop (fst kv) (snd kv) a) ms acc = acc ++ ms.
Proof.
  revert acc. induction ms as [|[k v] ms IH]; intros acc Hnd; simpl.
  - by rewrite app_nil_r.
  - rewrite set_prop_fresh.
    + rewrite IH; rewrite <- app_assoc; [done|exact Hnd].
    + rewrite map_app in Hnd. apply NoDup_app in Hnd as (_ & Hdis & _).
      intros Hin. apply (Hdis k Hin). simpl. left.
Qed.

Lemma obj_of_members_NoDup ms :
  NoDup (map fst ms) -> obj_of_members ms = ms.
Proof. intros H. unfold obj_of_members. by rewrite obj_of_members_app. Qed.

(** *** Printing, then parsing *)

Lemma join_cons_app sep (a : str) l tail :
  join sep (a :: l) ++ tail =
  a ++ match l with [] => tail | _ :: _ => sep ++ join sep l ++ tail end.
Proof.
  destruct l as [|b l]; [done|].
  change (join sep (a :: b :: l)) with (a ++ sep ++ join sep (b :: l)).
  by rewrite <- !app_assoc.
Qed.

Lemma stringify_array_app ind x elems rest :
  stringify_at ind (JArr (x :: elems)) ++ rest =
  "["%char :: NL :: pad (2 + ind)
    ++ (join (","%char :: NL :: pad (2 + ind))
             (map (stringify_at (2 + ind)) (x :: elems))
          ++ NL :: pad ind ++ "]"%char :: rest).
Proof.
  cbn [stringify_at]. cbn [app]. do 2 f_equal.
  rewrite <- !app_assoc. do 2 f_equal. cbn [app]. f_equal.
  by rewrite <- app_assoc.
Qed.

Lemma stringify_object_app ind kv props rest :
  stringify_at ind (JObj (kv :: props)) ++ rest =
  "{"%char :: NL :: pad (2 + ind)
    ++ (join (","%char :: NL :: pad (2 + ind))
             (map (fun kv => quote (fst kv) ++ ":"%char :: " "%char
                               :: stringify_at (2 + ind) (snd kv))
                  (kv :: props))
          ++ NL :: pad ind ++ "}"%char :: rest).
Proof.
  cbn [stringify_at]. cbn [app]. do 2 f_equal.
  rewrite <- !app_assoc. do 2 f_equal. cbn [app]. f_equal.
  by rewrite <- app_assoc.
Qed.

Lemma parse_elements_printed k ind elems rest :
  elems <> [] ->
  Forall parses_back elems ->
  forall fuel,
    forallb canonical elems = true ->
    (list_sum (map (fun x => S (node_count x)) elems) <= fuel)%nat ->
    parse_elements fuel
      (join (","%char :: NL :: pad k) (map (stringify_at k) elems)
         ++ NL :: pad ind ++ "]"%char :: rest)
    = Some (elems, rest).
Proof.
  intros Hne Hall. induction Hall as [|x elems Hx Hall IH]; [done|].
  intros fuel Hc Hf. clear Hne.
  cbn [forallb] in Hc. apply andb_true_iff in Hc as [Hcx Hc].
  cbn [map list_sum fold_right] in Hf.
  destruct fuel as [|fuel]; [lia|].
  cbn [map]. rewrite join_cons_app.
  destruct elems as [|y elems].
  - cbn [map]. erewrite parse_elements_step; last first.
    { apply Hx; [done|simpl in Hf; lia|reflexivity]. }
    rewrite skip_ws_NL_pad. reflexivity.
  - erewrite parse_elements_step; last first.
    { apply Hx; [done|lia|reflexivity]. }
    cbn [map] in *. cbn [app]. change (skip_ws (","%char :: ?x)) with (","%char :: x).
    destruct (decide (","%char = ","%char)); [|done].
    rewrite <- parse_elements_skip, skip_ws_NL_pad, parse_elements_skip.
    rewrite IH; [done|done|done|unfold list_sum in *; lia].
Qed.

Lemma parse_members_printed k ind props rest :
  props <> [] ->
  Forall (fun kv => parses_back (snd kv)) props ->
  forall fuel,
    forallb (fun kv => canonical (snd kv)) props = true ->
    (list_sum (map (fun kv => S (node_count (snd kv))) props) <= fuel)%nat ->
    parse_members fuel
      (join (","%char :: NL :: pad k)
            (map (fun kv => quote (fst kv) ++ ":"%char :: " "%char
                              :: stringify_at k (snd kv)) props)
         ++ NL :: pad ind ++ "}"%char :: rest)
    = Some (props, rest).
Proof.
  intros Hne Hall. induction Hall as [|[key x] props Hx Hall IH]; [done|].
  intros fuel Hc Hf. clear Hne.
  cbn [forallb] in Hc. apply andb_true_iff in Hc as [Hcx Hc].
  cbn [map list_sum fold_right] in Hf. cbn [fst snd] in *.
  destruct fuel as [|fuel]; [lia|].
  cbn [map]. rewrite join_cons_app. cbn [fst snd]. rewrite <- app_assoc. cbn [app].
  destruct props as [|y props].
  - erewrite parse_members_step; last first.
    { rewrite <- parse_value_skip.
      change (skip_ws (" "%char :: ?x)) with (skip_ws x).
      rewrite parse_value_skip.
      apply Hx; [done|simpl in Hf; lia|reflexivity]. }
    cbn [map]. rewrite skip_ws_NL_pad. reflexivity.
  - erewrite parse_members_step; last first.
    { rewrite <- parse_value_skip.
      change (skip_ws (" "%char :: ?x)) with (skip_ws x).
      rewrite parse_value_skip.
      apply Hx; [done|lia|reflexivity]. }
    cbn [map] in *. cbn [app]. change (skip_ws (","%char :: ?x)) with (","%char :: x).
    destruct (decide (","%char = ","%char)); [|done].
    rewrite <- parse_members_skip, skip_ws_NL_pad, parse_members_skip.
    rewrite IH; [done|done|done|unfold list_sum in *; lia].
Qed.

Lemma elements_head k x elems tail :
  exists c r,
    join (","%char :: NL :: pad k) (map (stringify_at k) (x :: elems)) ++ tail
    = c :: r /\ value_start c.
Proof.
  cbn [map]. rewrite join_cons_app.
  destruct (stringify_head k x) as (c & r & -> & Hc).
  eexists c, _. split; [reflexivity|done].
Qed.

Lemma members_head k (kv : str * json) props tail :
  exists r,
    join (","%char :: NL :: pad k)
         (map (fun kv => quote (fst kv) ++ ":"%char :: " "%char
                           :: stringify_at k (snd kv)) (kv :: props)) ++ tail
    = DQUOTE :: r.
Proof. cbn [map]. rewrite join_cons_app. eexists. reflexivity. Qed.

(** Every canonical value is read back from its printed form, whatever
    follows it, as long as what follows cannot continue a number. *)
Lemma parse_stringify_at v : parses_back v.
Proof.
  induction v as [| b | z | s | elems IH | props IH] using json_nested_ind;
    intros ind fuel rest Hc Hf Hrest.
  - destruct fuel as [|fuel]; [simpl in Hf; lia|]. reflexivity.
  - destruct fuel as [|fuel]; [simpl in Hf; lia|]. by destruct b.
  - destruct fuel as [|fuel]; [simpl in Hf; lia|].
    destruct (numToString_head z) as (c & r & Hz & Hd).
    cbn [stringify_at]. rewrite Hz. cbn [app]. rewrite parse_value_number by done.
    change (c :: r ++ rest) with ((c :: r) ++ rest).
    by rewrite <- Hz, parse_number_numToString.
  - destruct fuel as [|fuel]; [simpl in Hf; lia|].
    cbn [stringify_at]. by rewrite quote_app, parse_value_string, parse_chars_escaped.
  - destruct fuel as [|fuel]; [simpl in Hf; lia|].
    destruct elems as [|x elems]; [reflexivity|].
    rewrite stringify_array_app.
    match goal with
    | |- parse_value _ (_ :: _ :: _ ++ ?B ++ ?T) = _ =>
        destruct (elements_head (2 + ind) x elems T) as (c & r & Hb & Hws & Hsq & _);
        rewrite (parse_value_array fuel _ c r)
    end.
    + rewrite <- Hb, parse_elements_printed; [done|done|done|done|].
      cbn [node_count] in Hf. lia.
    + rewrite skip_ws_NL_pad, Hb. simpl. by rewrite Hws.
    + exact Hsq.
  - destruct fuel as [|fuel]; [simpl in Hf; lia|].
    destruct props as [|kv props]; [reflexivity|].
    cbn [canonical] in Hc. apply andb_true_iff in Hc as [Hnd Hc].
    apply bool_decide_eq_true in Hnd.
    rewrite stringify_object_app.
    match goal with
    | |- parse_value _ (_ :: _ :: _ ++ ?B ++ ?T) = _ =>
        destruct (members_head (2 + ind) kv props T) as (r & Hb);
        rewrite (parse_value_object fuel _ DQUOTE r)
    end.
    + rewrite <- Hb, parse_members_printed; [|done|done|done|cbn [node_count] in Hf; lia].
      by rewrite obj_of_members_NoDup.
    + by rewrite skip_ws_NL_pad, Hb.
    + done.
Qed.

(** *** Fuel: the length of the text is enough *)

Lemma join_length_bound {A} (f : A -> str) (g : A -> nat) sep l :
  (1 <= length sep)%nat ->
  Forall (fun x => (g x <= length (f x))%nat) l ->
  (list_sum (map (fun x => S (g x)) l) <= length (join sep (map f l)) + 1)%nat.
Proof.
  intros Hsep Hall. induction Hall as [|x l Hx Hall IH]; [simpl; lia|].
  destruct l as [|y l].
  - simpl. lia.
  - change (join sep (map f (x :: y :: l)))
      with (f x ++ sep ++ join sep (map f (y :: l))).
    rewrite !length_app. cbn [map list_sum fold_right] in *.
    unfold list_sum in *. lia.
Qed.

Lemma node_count_le_length v : forall ind, (node_count v <= length (stringify_at ind v))%nat.
Proof.
  induction v as [| b | z | s | elems IH | props IH] using json_nested_ind;
    intros ind.
  - simpl. lia.
  - destruct b; simpl; lia.
  - destruct (numToString_head z) as (c & r & Hz & _).
    cbn [stringify_at node_count]. rewrite Hz. simpl. lia.
  - cbn [stringify_at node_count]. unfold quote. simpl. lia.
  - destruct elems as [|x elems]; [simpl; lia|].
    cbn [stringify_at node_count].
    pose proof (join_length_bound (stringify_at (2 + ind)) node_count
                  (","%char :: NL :: pad (2 + ind)) (x :: elems)) as Hj.
    cbn [length] in *. rewrite !length_app. cbn [length].
    assert (Hall : Forall (fun x => (node_count x <= length (stringify_at (2 + ind) x))%nat)
                     (x :: elems)).
    { eapply Forall_impl; [exact IH|]. intros y Hy. apply Hy. }
    specialize (Hj ltac:(lia) Hall). lia.
  - destruct props as [|kv props]; [simpl; lia|].
    cbn [stringify_at node_count].
    pose proof (join_length_bound
                  (fun kv : str * json =>
                     quote (fst kv) ++ ":"%char :: " "%char
                       :: stringify_at (2 + ind) (snd kv))
                  (fun kv => node_count (snd kv))
                  (","%char :: NL :: pad (2 + ind)) (kv :: props)) as Hj.
    cbn [length] in *. rewrite !length_app. cbn [length].
    assert (Hall : Forall (fun kv : str * json =>
                     (node_count (snd kv) <=
                      length (quote (fst kv) ++ ":"%char :: " "%char
                                :: stringify_at (2 + ind) (snd kv)))%nat)
                     (kv :: props)).
    { eapply Forall_impl; [exact IH|]. intros y Hy. cbn beta in *.
      rewrite length_app. cbn [length]. specialize (Hy (2 + ind)%nat). lia. }
    specialize (Hj ltac:(lia) Hall). cbn beta in Hj.
    eapply Nat.le_trans; [apply le_n_S, Hj|].
    match goal with
    | |- (S (?a + 1) <= S (S (?p + (?b + S ?q))))%nat =>
        change b with a; generalize a p q; intros; lia
    end.
Qed.

(** [JSON.parse(JSON.stringify(v, null, 2))] gives [v] back. *)
Lemma JSON_parse_stringify v :
  canonical v = true -> JSON_parse (JSON_stringify v) = Some v.
Proof.
  intros Hc. unfold JSON_parse, JSON_stringify.
  pose proof (parse_stringify_at v 0%nat
                (2 * length (stringify_at 0 v) + 2)%nat [] Hc) as H.
  rewrite app_nil_r in H. rewrite H; [done| |done].
  pose proof (node_count_le_length v 0). lia.
Qed.

End JsonFacts.

(** ** Facts about records, lines and the list-level upsert *)

Module DatasetFacts.
Import StrFacts JsonFacts.

Lemma findIndex_nil {A} (p : A -> bool) : findIndex p [] = None.
Proof. reflexivity. Qed.

Lemma findIndex_cons {A} (p : A -> bool) x l :
  findIndex p (x :: l) = if p x then Some 0%nat else S <$> findIndex p l.
Proof.
  unfold findIndex. cbn [list_find].
  destruct (decide (p x = true)) as [Hp|Hp].
  - by rewrite Hp.
  - destruct (p x); [done|]. by destruct (list_find _ l) as [[i y]|].
Qed.

Lemma findIndex_map {A B} (f : A -> B) (p : B -> bool) l :
  findIndex p (map f l) = findIndex (fun x => p (f x)) l.
Proof.
  induction l as [|x l IH]; [done|].
  cbn [map]. rewrite !findIndex_cons, IH. done.
Qed.

Lemma findIndex_ext {A} (p q : A -> bool) l :
  Forall (fun x => p x = q x) l -> findIndex p l = findIndex q l.
Proof.
  induction 1 as [|x l Hx _ IH]; [done|].
  rewrite !findIndex_cons, Hx, IH. done.
Qed.

Lemma findIndex_lt {A} (p : A -> bool) l k :
  findIndex p l = Some k -> (k < length l)%nat.
Proof.
  intros H. apply findIndex_Some in H as (x & Hx & _).
  by eapply lookup_lt_Some.
Qed.

(** *** The list-level upsert *)

Lemma spec_upsert_nil R : spec_upsert [] R = [R].
Proof. reflexivity. Qed.

Lemma spec_upsert_cons e D R :
  spec_upsert (e :: D) R =
  if bool_decide (date e = date R) then R :: D else e :: spec_upsert D R.
Proof.
  unfold spec_upsert. rewrite findIndex_cons.
  destruct (bool_decide (date e = date R)); [done|].
  by destruct (findIndex _ D).
Qed.

Lemma spec_upsert_dates D R d :
  d ∈ map date (spec_upsert D R) -> d = date R \/ d ∈ map date D.
Proof.
  induction D as [|e D IH]; intros H.
  - rewrite spec_upsert_nil in H. simpl in H.
    apply elem_of_cons in H as [->|H]; [by left|by right].
  - rewrite spec_upsert_cons in H. case_bool_decide as He.
    + simpl in *. apply elem_of_cons in H as [->|H]; [by left|].
      right. by apply elem_of_cons; right.
    + simpl in *. apply elem_of_cons in H as [->|H].
      * right. by apply elem_of_cons; left.
      * destruct (IH H) as [->|Hin]; [by left|].
        right. by apply elem_of_cons; right.
Qed.

Lemma spec_upsert_idempotent D R : spec_upsert (spec_upsert D R) R = spec_upsert D R.
Proof.
  induction D as [|e D IH].
  - rewrite spec_upsert_nil, spec_upsert_cons. by rewrite bool_decide_eq_true_2.
  - rewrite spec_upsert_cons. case_bool_decide as He.
    + rewrite spec_upsert_cons. by rewrite bool_decide_eq_true_2.
    + rewrite spec_upsert_cons. rewrite bool_decide_eq_false_2 by done. by rewrite IH.
Qed.

Lemma spec_upsert_NoDup D R : NoDup (map date D) -> NoDup (map date (spec_upsert D R)).
Proof.
  induction D as [|e D IH]; intros Hnd.
  - rewrite spec_upsert_nil. simpl. apply NoDup_singleton.
  - rewrite spec_upsert_cons. simpl in Hnd. apply NoDup_cons in Hnd as [Hnot Hnd].
    case_bool_decide as He.
    + simpl. apply NoDup_cons. split; [by rewrite <- He|done].
    + simpl. apply NoDup_cons. split; [|by apply IH].
      intros Hin. apply spec_upsert_dates in Hin as [Heq|Hin]; [congruence|done].
Qed.

Lemma spec_upsert_length D R :
  length (spec_upsert D R) =
  match findIndex (fun e => bool_decide (date e = date R)) D with
  | Some _ => length D
  | None => S (length D)
  end.
Proof.
  unfold spec_upsert. destruct (findIndex _ D).
  - by rewrite length_insert.
  - rewrite length_app. simpl. lia.
Qed.

(** *** ISO dates *)

Lemma is_digit_not c : is_digit c = true ->
  c <> ","%char /\ c <> NL /\ c <> "-"%char /\ c <> "d"%char /\ is_space c = false.
Proof.
  destruct c as [[] [] [] [] [] [] [] []]; try discriminate; by repeat split.
Qed.

Lemma iso_date_chars d :
  iso_date d = true ->
  length d = 10%nat /\
  Forall (fun c => is_digit c = true \/ c = "-"%char) d /\
  exists c r, d = c :: r /\ is_digit c = true.
Proof.
  intros H.
  do 10 (destruct d as [|? d]; [discriminate H|]).
  destruct d; [|discriminate H]. unfold iso_date in H.
  rewrite !andb_true_iff, !bool_decide_eq_true in H.
  destruct H as (((((((((?&?)&?)&?)&?)&?)&?)&?)&?)&?). subst.
  split; [done|]. split; [|eexists _, _; split; [reflexivity|done]].
  repeat (constructor; [first [by left | by right]|]). constructor.
Qed.

Lemma iso_date_length d : iso_date d = true -> length d = 10%nat.
Proof. intros H. by apply iso_date_chars in H as [? _]. Qed.

Lemma iso_date_no_NL d : iso_date d = true -> NL ∉ d.
Proof.
  intros H Hin. apply iso_date_chars in H as (_ & Hall & _).
  rewrite Forall_forall in Hall. destruct (Hall _ Hin) as [Hd|Hd]; [|done].
  by apply is_digit_not in Hd as (_ & ? & _).
Qed.

(** *** Lines *)

Lemma digits_chars u : Forall (fun c => is_digit c = true) (digits u).
Proof. induction u; simpl; constructor; done. Qed.

Lemma numToString_chars z :
  Forall (fun c => is_digit c = true \/ c = "-"%char) (numToString z).
Proof.
  unfold numToString. destruct (Z.to_int z) as [u|u].
  - eapply Forall_impl; [apply digits_chars|]. auto.
  - constructor; [by right|]. eapply Forall_impl; [apply digits_chars|]. auto.
Qed.

Lemma numToString_no_NL z : NL ∉ numToString z.
Proof.
  intros Hin. pose proof (numToString_chars z) as Hall.
  rewrite Forall_forall in Hall. destruct (Hall _ Hin) as [Hd|Hd]; [|done].
  by apply is_digit_not in Hd as (_ & ? & _).
Qed.

Lemma csvLine_unfold e :
  csvLine e =
  date e ++ ","%char :: numToString (stargazers e)
         ++ ","%char :: numToString (commits e)
         ++ ","%char :: numToString (contributors e)
         ++ ","%char :: numToString (traffic_views e)
         ++ ","%char :: numToString (traffic_uniques e)
         ++ ","%char :: numToString (clones_count e)
         ++ ","%char :: numToString (clones_uniques e).
Proof. reflexivity. Qed.

Lemma csvLine_no_NL e : NL ∉ date e -> NL ∉ csvLine e.
Proof.
  intros Hd. rewrite csvLine_unfold.
  repeat (rewrite not_elem_of_app || rewrite not_elem_of_cons).
  repeat split; try done; apply numToString_no_NL.
Qed.

Lemma csvLine_nonblank e : nonblank (csvLine e) = true.
Proof.
  unfold nonblank. apply negb_true_iff, bool_decide_eq_false.
  apply (trim_nonblank ","%char); [|done].
  rewrite csvLine_unfold. set_solver.
Qed.

Lemma csvHeader_nonblank : nonblank csvHeader = true.
Proof. by vm_compute. Qed.

Lemma csvHeader_no_NL : NL ∉ csvHeader.
Proof. apply (bool_decide_unpack _). by vm_compute. Qed.

Lemma filter_all {A} (p : A -> bool) l :
  Forall (fun x => p x = true) l -> List.filter p l = l.
Proof.
  induction 1 as [|x l Hx _ IH]; [done|]. simpl. by rewrite Hx, IH.
Qed.

(** The lines of a file are read back from their joined form. *)
Lemma csv_lines_join lines :
  lines <> [] ->
  Forall (fun l => NL ∉ l) lines ->
  Forall (fun l => nonblank l = true) lines ->
  csv_lines (join [NL] lines) = lines.
Proof.
  intros Hne Hnl Hnb. unfold csv_lines.
  rewrite split_join by done. by apply filter_all.
Qed.

Lemma csv_lines_no_NL text : Forall (fun l => NL ∉ l) (csv_lines text).
Proof.
  unfold csv_lines.
  assert (H : Forall (fun l => NL ∉ l) (split NL text)).
  { induction text as [|c text IH]; simpl.
    - repeat constructor. apply not_elem_of_nil.
    - case_decide as Hc.
      + constructor; [apply not_elem_of_nil|done].
      + destruct (split NL text) as [|l ls].
        * repeat constructor. apply not_elem_of_cons. split; [congruence|].
          apply not_elem_of_nil.
        * apply Forall_cons in IH as [Hl Hls]. constructor; [|done].
          apply not_elem_of_cons. split; [congruence|done]. }
  rewrite Forall_forall in *. intros l Hl.
  apply list_elem_of_In, filter_In in Hl as [Hl _]. apply H. by apply list_elem_of_In.
Qed.

Lemma csv_lines_nonblank text : Forall (fun l => nonblank l = true) (csv_lines text).
Proof.
  unfold csv_lines. rewrite Forall_forall. intros l Hl.
  by apply list_elem_of_In, filter_In in Hl as [_ Hl].
Qed.

Lemma startsWith_same_length d d' r :
  length d = length d' -> startsWith (d' ++ r) d = bool_decide (d' = d).
Proof.
  revert d'. induction d as [|c d IH]; intros [|c' d'] Hlen; try discriminate Hlen.
  - done.
  - simpl. case_decide as Hc.
    + subst c'. rewrite IH by (simpl in Hlen; lia).
      apply bool_decide_ext. split; congruence.
    + symmetry. apply bool_decide_eq_false. congruence.
Qed.

Lemma startsWith_csvLine e d :
  iso_date (date e) = true -> iso_date d = true ->
  startsWith (csvLine e) d = bool_decide (date e = d).
Proof.
  intros He Hd. rewrite csvLine_unfold.
  apply startsWith_same_length.
  by rewrite (iso_date_length _ He), (iso_date_length _ Hd).
Qed.

Lemma startsWith_csvHeader d : iso_date d = true -> startsWith csvHeader d = false.
Proof.
  intros Hd. apply iso_date_chars in Hd as (_ & _ & c & r & -> & Hc).
  apply is_digit_not in Hc as (_ & _ & _ & Hne & _).
  change csvHeader with ("d"%char :: lit "ate,stargazers,commits,contributors,traffic_views,traffic_uniques,clones_count,clones_uniques").
  simpl. by case_decide.
Qed.

End DatasetFacts.

(** ** [generateFileContent] refines the list-level upsert *)

Module GenerateFacts.
Import StrFacts JsonFacts DatasetFacts.

Lemma csv_ne_json : lit "csv" <> lit "json".
Proof. discriminate. Qed.

Lemma entry_eta R :
  {| date := date R; stargazers := stargazers R; commits := commits R;
     contributors := contributors R; traffic_views := traffic_views R;
     traffic_uniques := traffic_uniques R; clones_count := clones_count R;
     clones_uniques := clones_uniques R |} = R.
Proof. by destruct R. Qed.

Lemma upsert_file_json file R :
  upsert_file (lit "json") file R =
  match generateFileContent_json file R with
  | Throw e => Throw (GenerateFailed e)
  | r => r
  end.
Proof.
  unfold upsert_file, generateFileContent. cbn [count uniques].
  rewrite entry_eta. rewrite decide_True by done.
  by destruct (generateFileContent_json file R).
Qed.

Lemma upsert_file_csv file R :
  upsert_file (lit "csv") file R =
  match generateFileContent_csv file R with
  | Throw e => Throw (GenerateFailed e)
  | r => r
  end.
Proof.
  unfold upsert_file, generateFileContent. cbn [count uniques].
  rewrite entry_eta. rewrite decide_False by apply csv_ne_json.
  rewrite decide_True by done.
  by destruct (generateFileContent_csv file R).
Qed.

(** *** The json branch *)

Lemma date_is_entry d e : date_is d (entry_json e) = inr (bool_decide (date e = d)).
Proof. reflexivity. Qed.

Lemma findIndexE_entries d D :
  findIndexE (date_is d) (map entry_json D)
  = inr (findIndex (fun e => bool_decide (date e = d)) D).
Proof.
  induction D as [|e D IH]; [done|].
  cbn [map findIndexE]. rewrite date_is_entry, findIndex_cons.
  destruct (bool_decide (date e = d)); [done|]. by rewrite IH.
Qed.

Lemma set_or_push_map {A B} (f : A -> B) idx x l :
  set_or_push idx (f x) (map f l) = map f (set_or_push idx x l).
Proof.
  destruct idx as [k|]; simpl.
  - by rewrite <- list_fmap_insert.
  - by rewrite map_app.
Qed.

Lemma entry_json_canonical e : canonical (entry_json e) = true.
Proof. by vm_compute. Qed.

Lemma entries_canonical D : canonical (JArr (map entry_json D)) = true.
Proof.
  cbn [canonical]. induction D as [|e D IH]; [done|].
  cbn [map forallb]. by rewrite entry_json_canonical, IH.
Qed.

Lemma entry_json_inj e1 e2 : entry_json e1 = entry_json e2 -> e1 = e2.
Proof. destruct e1, e2. unfold entry_json. simpl. intros H. by simplify_eq. Qed.

(** The parsed array of the encoded dataset is the array of its records. *)
Lemma parse_encode_json D :
  JSON_parse (encode_json D) = Some (JArr (map entry_json D)).
Proof. apply JSON_parse_stringify, entries_canonical. Qed.

Lemma upsert_file_json_refines text D R :
  JSON_parse text = Some (JArr (map entry_json D)) ->
  upsert_file (lit "json") (Some text) R = Return (Some (encode_json (spec_upsert D R))).
Proof.
  intros Hparse. rewrite upsert_file_json. unfold generateFileContent_json.
  rewrite Hparse, findIndexE_entries, set_or_push_map. reflexivity.
Qed.

(** *** The csv branch *)

Lemma csv_findIndex D d :
  Forall (fun e => iso_date (date e) = true) D -> iso_date d = true ->
  findIndex (fun line => startsWith line d) (csvHeader :: map csvLine D)
  = S <$> findIndex (fun e => bool_decide (date e = d)) D.
Proof.
  intros HD Hd. rewrite findIndex_cons, startsWith_csvHeader by done.
  f_equal. rewrite findIndex_map. apply findIndex_ext.
  eapply Forall_impl; [exact HD|]. intros e He. by apply startsWith_csvLine.
Qed.

Lemma csv_set_or_push D R :
  set_or_push (S <$> findIndex (fun e => bool_decide (date e = date R)) D)
              (csvLine R) (csvHeader :: map csvLine D)
  = csvHeader :: map csvLine (spec_upsert D R).
Proof.
  unfold spec_upsert. destruct (findIndex _ D) as [k|]; simpl.
  - by rewrite <- list_fmap_insert.
  - by rewrite map_app.
Qed.

Lemma encoded_lines_ok D :
  Forall (fun e => NL ∉ date e) D ->
  Forall (fun l => NL ∉ l) (csvHeader :: map csvLine D) /\
  Forall (fun l => nonblank l = true) (csvHeader :: map csvLine D).
Proof.
  intros HD. split; (constructor; [first [apply csvHeader_no_NL|apply csvHeader_nonblank]|]).
  - apply Forall_map. eapply Forall_impl; [exact HD|]. intros e He. by apply csvLine_no_NL.
  - apply Forall_map, Forall_forall. intros e _. apply csvLine_nonblank.
Qed.

(** The lines of the encoded dataset are its header and its rows. *)
Lemma lines_encode_csv D :
  Forall (fun e => NL ∉ date e) D ->
  csv_lines (encode_csv D) = csvHeader :: map csvLine D.
Proof.
  intros HD. destruct (encoded_lines_ok D HD) as [Hnl Hnb].
  by apply csv_lines_join.
Qed.

Lemma upsert_file_csv_refines text D R :
  csv_lines text = csvHeader :: map csvLine D ->
  Forall (fun e => iso_date (date e) = true) D -> iso_date (date R) = true ->
  upsert_file (lit "csv") (Some text) R = Return (Some (encode_csv (spec_upsert D R))).
Proof.
  intros Hlines HD HR. rewrite upsert_file_csv. unfold generateFileContent_csv.
  cbn zeta. rewrite Hlines, csv_findIndex, csv_set_or_push by done. reflexivity.
Qed.

Lemma numToString_inj z1 z2 : numToString z1 = numToString z2 -> z1 = z2.
Proof.
  intros H.
  pose proof (parse_number_numToString z1 [] eq_refl) as H1.
  pose proof (parse_number_numToString z2 [] eq_refl) as H2.
  rewrite H in H1. congruence.
Qed.

Lemma numToString_no_comma z : ","%char ∉ numToString z.
Proof.
  intros Hin. pose proof (numToString_chars z) as Hall.
  rewrite Forall_forall in Hall. destruct (Hall _ Hin) as [Hd|Hd]; [|done].
  by apply is_digit_not in Hd as (? & _).
Qed.

(** Two comma-free fields followed by a comma and equal as texts are
    equal field by field. *)
Lemma field_split (a b x y : str) :
  ","%char ∉ a -> ","%char ∉ b ->
  a ++ ","%char :: x = b ++ ","%char :: y -> a = b /\ x = y.
Proof.
  revert b. induction a as [|c a IH]; intros [|c' b] Ha Hb H; simpl in H.
  - split; congruence.
  - injection H as <- _. exfalso. apply Hb. by left.
  - injection H as -> _. exfalso. apply Ha. by left.
  - injection H as -> H. apply not_elem_of_cons in Ha as [_ Ha].
    apply not_elem_of_cons in Hb as [_ Hb].
    destruct (IH b Ha Hb H) as [-> ->]. done.
Qed.

Lemma iso_date_no_comma d : iso_date d = true -> ","%char ∉ d.
Proof.
  intros H Hin. apply iso_date_chars in H as (_ & Hall & _).
  rewrite Forall_forall in Hall. destruct (Hall _ Hin) as [Hd|Hd]; [|done].
  by apply is_digit_not in Hd as (? & _).
Qed.

Lemma csvLine_inj e1 e2 :
  iso_date (date e1) = true -> iso_date (date e2) = true ->
  csvLine e1 = csvLine e2 -> e1 = e2.
Proof.
  intros H1 H2 H. rewrite !csvLine_unfold in H.
  apply field_split in H as [Hd H]; [|by apply iso_date_no_comma..].
  do 6 (apply field_split in H as [? H]; [|by apply numToString_no_comma..]).
  destruct e1, e2; simpl in *.
  repeat match goal with
         | H : numToString _ = numToString _ |- _ => apply numToString_inj in H
         end.
  by subst.
Qed.

(** [generateFileContent] returns or throws. *)
Lemma generateFileContent_total file s c n t cl d fmt :
  generateFileContent file s c n t cl d fmt <> Diverge.
Proof.
  unfold generateFileContent, generateFileContent_json, generateFileContent_csv.
  repeat case_decide; repeat case_match; congruence.
Qed.

Lemma upsert_files_total fmt Rs : forall file, upsert_files fmt file Rs <> Diverge.
Proof.
  induction Rs as [|R Rs IH]; intros file; cbn [upsert_files]; [done|].
  destruct (upsert_file fmt file R) as [file'| |] eqn:E; [apply IH|done|].
  by apply generateFileContent_total in E.
Qed.

End GenerateFacts.

(** ** The upsert of [generateFileContent] *)

Module UpsertClaims.
Import StrFacts JsonFacts DatasetFacts GenerateFacts Samples.

Lemma dates_ok_cons fmt R D :
  dates_ok fmt (R :: D) ->
  (fmt = lit "csv" -> iso_date (date R) = true) /\ dates_ok fmt D.
Proof.
  intros H. split; intros Hf; specialize (H Hf); by apply Forall_cons in H as [? ?].
Qed.

Lemma dates_ok_upsert fmt R D : dates_ok fmt (R :: D) -> dates_ok fmt (spec_upsert D R).
Proof.
  intros H Hf. specialize (H Hf). apply Forall_cons in H as [HR HD].
  unfold spec_upsert. destruct (findIndex _ D) as [k|].
  - by apply Forall_insert.
  - apply Forall_app. split; [done|]. by constructor.
Qed.

Lemma represents_json text D :
  represents (lit "json") text D <-> JSON_parse text = Some (JArr (map entry_json D)).
Proof. unfold represents. by rewrite decide_True. Qed.

Lemma represents_csv text D :
  represents (lit "csv") text D <-> csv_lines text = csvHeader :: map csvLine D.
Proof.
  unfold represents. rewrite decide_False by apply csv_ne_json.
  by rewrite decide_True.
Qed.

Lemma encode_json_eq D : encode (lit "json") D = encode_json D.
Proof. unfold encode. by rewrite decide_True. Qed.

Lemma encode_csv_eq D : encode (lit "csv") D = encode_csv D.
Proof. unfold encode. by rewrite decide_False by apply csv_ne_json. Qed.

Lemma iso_dates_no_NL D :
  Forall (fun e => iso_date (date e) = true) D -> Forall (fun e => NL ∉ date e) D.
Proof. intros H. eapply Forall_impl; [exact H|]. intros e. apply iso_date_no_NL. Qed.

(** The encoded dataset decodes to the dataset. *)
Lemma represents_encode fmt D :
  supported fmt -> dates_ok fmt D -> represents fmt (encode fmt D) D.
Proof.
  intros [-> | ->] Hok.
  - rewrite represents_json, encode_json_eq. apply parse_encode_json.
  - rewrite represents_csv, encode_csv_eq. by apply lines_encode_csv, iso_dates_no_NL, Hok.
Qed.

(** What a file decodes to is a function of the file. *)
Lemma represents_functional fmt text D D' :
  dates_ok fmt D -> dates_ok fmt D' ->
  represents fmt text D -> represents fmt text D' -> D = D'.
Proof.
  intros Hok Hok' H H'. unfold represents in *.
  destruct (decide (fmt = lit "json")) as [->|Hj].
  - rewrite H in H'. injection H' as H'. clear H Hok Hok'.
    revert D' H'. induction D as [|e D IH]; intros [|e' D'] H'; try discriminate; [done|].
    cbn [map] in H'.
    assert (He : entry_json e = entry_json e') by congruence.
    assert (HD : map entry_json D = map entry_json D') by congruence.
    apply entry_json_inj in He as ->. by rewrite (IH D').
  - destruct (decide (fmt = lit "csv")) as [->|]; [|done].
    specialize (Hok eq_refl). specialize (Hok' eq_refl).
    rewrite H in H'. injection H' as H'. clear H.
    revert D' Hok' H'. induction Hok as [|e D He HD IH]; intros [|e' D'] Hok' H';
      try discriminate; [done|].
    apply Forall_cons in Hok' as [He' HD'].
    cbn [map] in H'.
    assert (Hl : csvLine e = csvLine e') by congruence.
    assert (HD'' : map csvLine D = map csvLine D') by congruence.
    apply csvLine_inj in Hl as ->; [|done..]. by rewrite (IH D').
Qed.

(** One upsert on a file that stores [D] writes the file that stores
    [spec_upsert D R]. *)
Lemma upsert_file_refines fmt text D R :
  supported fmt -> represents fmt text D -> dates_ok fmt (R :: D) ->
  upsert_file fmt (Some text) R = Return (Some (encode fmt (spec_upsert D R))).
Proof.
  intros [-> | ->] Hrep Hok.
  - rewrite encode_json_eq. apply upsert_file_json_refines. by apply represents_json.
  - rewrite encode_csv_eq. specialize (Hok eq_refl). apply Forall_cons in Hok as [HR HD].
    apply upsert_file_csv_refines; [by apply represents_csv|done..].
Qed.

(** C1: upsert is idempotent per date. In both formats, for a file that
    stores the dataset [D] and a record [R], upserting [R] twice writes the
    very file that upserting it once writes, and that file stores [spec_upsert D
    R]: the second application replaces the entry written by the first. *)
Theorem upsert_idempotent_per_date fmt text D R :
  supported fmt -> represents fmt text D -> dates_ok fmt (R :: D) ->
  exists text1,
    upsert_file fmt (Some text) R = Return (Some text1)
    /\ upsert_file fmt (Some text1) R = Return (Some text1)
    /\ represents fmt text1 (spec_upsert D R)
    /\ spec_upsert (spec_upsert D R) R = spec_upsert D R.
Proof.
  intros Hfmt Hrep Hok. exists (encode fmt (spec_upsert D R)).
  pose proof (dates_ok_upsert _ _ _ Hok) as Hok1.
  assert (Hrep1 : represents fmt (encode fmt (spec_upsert D R)) (spec_upsert D R))
    by by apply represents_encode.
  split; [by apply upsert_file_refines|].
  split; [|split; [done|apply spec_upsert_idempotent]].
  rewrite (upsert_file_refines fmt _ (spec_upsert D R) R Hfmt Hrep1).
  - by rewrite spec_upsert_idempotent.
  - intros Hf. constructor; [|by apply Hok1]. specialize (Hok Hf).
    by apply Forall_cons in Hok as [? _].
Qed.

Lemma upsert_idempotent_per_date_witness :
  exists text1,
    upsert_file (lit "csv") (Some (encode (lit "csv") [day1; day2])) day1_again
      = Return (Some text1)
    /\ upsert_file (lit "csv") (Some text1) day1_again = Return (Some text1)
    /\ represents (lit "csv") text1 (spec_upsert [day1; day2] day1_again)
    /\ spec_upsert (spec_upsert [day1; day2] day1_again) day1_again
       = spec_upsert [day1; day2] day1_again.
Proof.
  apply upsert_idempotent_per_date.
  - right. reflexivity.
  - vm_compute. reflexivity.
  - intros _. repeat constructor.
Defined.

(** C2: date uniqueness is an invariant. In both formats, from a file that
    stores a dataset with pairwise distinct dates (the empty dataset
    included), any sequence of upserts ends with a file that stores a
    dataset with pairwise distinct dates. *)
Theorem date_uniqueness_invariant fmt Rs : forall text D,
  supported fmt -> represents fmt text D -> dates_ok fmt (Rs ++ D) ->
  NoDup (map date D) ->
  exists text' D',
    upsert_files fmt (Some text) Rs = Return (Some text')
    /\ represents fmt text' D'
    /\ D' = fold_left spec_upsert Rs D
    /\ NoDup (map date D').
Proof.
  induction Rs as [|R Rs IH]; intros text D Hfmt Hrep Hok Hnd.
  - exists text, D. by repeat split.
  - assert (HokR : dates_ok fmt (R :: D)).
    { intros Hf. specialize (Hok Hf). cbn [app] in Hok.
      apply Forall_cons in Hok as [HR Hok]. apply Forall_app in Hok as [_ HD].
      by constructor. }
    assert (Hok' : dates_ok fmt (Rs ++ spec_upsert D R)).
    { intros Hf. apply Forall_app. split.
      - specialize (Hok Hf). cbn [app] in Hok.
        apply Forall_cons in Hok as [_ Hok]. by apply Forall_app in Hok as [? _].
      - by apply (dates_ok_upsert fmt R D HokR). }
    destruct (IH (encode fmt (spec_upsert D R)) (spec_upsert D R)) as (text' & D' & Hrun & Hrep' & HD' & Hnd');
      [done| |done|by apply spec_upsert_NoDup|].
    { apply represents_encode; [done|]. by apply dates_ok_upsert. }
    exists text', D'. cbn [upsert_files fold_left].
    rewrite (upsert_file_refines fmt text D R) by done. done.
Qed.

Lemma date_uniqueness_invariant_witness :
  exists text' D',
    upsert_files (lit "json") (Some (lit "[]")) [day1; day2; day1_again]
      = Return (Some text')
    /\ represents (lit "json") text' D'
    /\ D' = fold_left spec_upsert [day1; day2; day1_again] []
    /\ NoDup (map date D').
Proof.
  apply date_uniqueness_invariant.
  - left. reflexivity.
  - reflexivity.
  - intros H. discriminate H.
  - constructor.
Defined.

(** C6: upsert placement. In both formats, upserting [R] into a file that
    stores [D] writes a file that stores [D']. If [D] has an entry with
    the date of [R], the first such at index [k], then [D'] is [D] with [R]
    at index [k]: same length, every other index unchanged. If [D] has no
    such entry, [D'] is [D] followed by [R]. *)
Theorem upsert_placement fmt text D R :
  supported fmt -> represents fmt text D -> dates_ok fmt (R :: D) ->
  exists text' D',
    upsert_file fmt (Some text) R = Return (Some text')
    /\ represents fmt text' D'
    /\ (forall k old,
          D !! k = Some old -> date old = date R ->
          (forall j e, (j < k)%nat -> D !! j = Some e -> date e <> date R) ->
          D' = <[k:=R]> D /\ length D' = length D /\ D' !! k = Some R
          /\ forall j, j <> k -> D' !! j = D !! j)
    /\ ((forall e, e ∈ D -> date e <> date R) ->
        D' = D ++ [R] /\ forall j, (j < length D)%nat -> D' !! j = D !! j).
Proof.
  intros Hfmt Hrep Hok. exists (encode fmt (spec_upsert D R)), (spec_upsert D R).
  split; [by apply upsert_file_refines|].
  split; [by apply represents_encode, dates_ok_upsert|].
  split.
  - intros k old Hk Hdate Hfirst.
    assert (Hidx : findIndex (fun e => bool_decide (date e = date R)) D = Some k).
    { apply findIndex_Some. exists old. repeat split; [done|by apply bool_decide_eq_true|].
      intros j e Hj Hjk. apply bool_decide_eq_false. by eapply Hfirst. }
    unfold spec_upsert. rewrite Hidx.
    pose proof (lookup_lt_Some _ _ _ Hk) as Hlt.
    repeat split.
    + apply length_insert.
    + by apply list_lookup_insert_eq.
    + intros j Hj. by apply list_lookup_insert_ne.
  - intros Hnone.
    assert (Hidx : findIndex (fun e => bool_decide (date e = date R)) D = None).
    { apply findIndex_None, Forall_forall. intros e He.
      apply bool_decide_eq_false. by apply Hnone. }
    unfold spec_upsert. rewrite Hidx. split; [done|].
    intros j Hj. by apply lookup_app_l.
Qed.

Lemma upsert_placement_witness :
  exists text' D',
    upsert_file (lit "csv") (Some (encode (lit "csv") [day1; day2])) day1_again
      = Return (Some text')
    /\ represents (lit "csv") text' D'
    /\ (forall k old,
          [day1; day2] !! k = Some old -> date old = date day1_again ->
          (forall j e, (j < k)%nat -> [day1; day2] !! j = Some e ->
                       date e <> date day1_again) ->
          D' = <[k:=day1_again]> [day1; day2]
          /\ length D' = length [day1; day2] /\ D' !! k = Some day1_again
          /\ forall j, j <> k -> D' !! j = [day1; day2] !! j)
    /\ ((forall e, e ∈ [day1; day2] -> date e <> date day1_again) ->
        D' = [day1; day2] ++ [day1_again]
        /\ forall j, (j < length [day1; day2])%nat -> D' !! j = [day1; day2] !! j).
Proof.
  apply upsert_placement.
  - right. reflexivity.
  - vm_compute. reflexivity.
  - intros _. repeat constructor.
Defined.

(** C7: serialization round trip. For each of the two formats and every
    well-formed dataset [D], decoding the encoding of [D] yields [D]: the
    parsed array (json) or the non-blank lines after the header (csv) are
    those of [D], and of no other dataset. *)
Theorem serialization_round_trip fmt D :
  supported fmt -> dates_ok fmt D ->
  represents fmt (encode fmt D) D
  /\ forall D', dates_ok fmt D' -> represents fmt (encode fmt D) D' -> D' = D.
Proof.
  intros Hfmt Hok.
  assert (Hrep : represents fmt (encode fmt D) D) by by apply represents_encode.
  split; [done|]. intros D' Hok' Hrep'.
  by apply (represents_functional fmt (encode fmt D)).
Qed.

Lemma serialization_round_trip_witness :
  represents (lit "csv") (encode (lit "csv") [day1; day2]) [day1; day2]
  /\ forall D', dates_ok (lit "csv") D' ->
       represents (lit "csv") (encode (lit "csv") [day1; day2]) D' ->
       D' = [day1; day2].
Proof.
  apply serialization_round_trip.
  - right. reflexivity.
  - intros _. repeat constructor.
Defined.

End UpsertClaims.

(** ** Loading and branch provisioning *)

Module StorageClaims.
Import StrFacts JsonFacts DatasetFacts GenerateFacts UpsertClaims Samples.

Lemma sent_app w l : sent w (with_log (w_log w ++ l) w) = l.
Proof. unfold sent. simpl. by rewrite drop_app_length. Qed.

(** *** [getInsightsFile] *)

Lemma emptyFile_supported fmt w :
  supported fmt ->
  emptyFile fmt w =
  (Return (Some (if decide (fmt = lit "json") then lit "[]" else csvHeader ++ [NL]),
           Some 0), w).
Proof.
  intros [-> | ->]; unfold emptyFile.
  - by rewrite !decide_True.
  - rewrite !decide_False by apply csv_ne_json. by rewrite decide_True.
Qed.

Lemma empty_file_represents fmt :
  supported fmt ->
  represents fmt (if decide (fmt = lit "json") then lit "[]" else csvHeader ++ [NL]) [].
Proof. intros [-> | ->]; by vm_compute. Qed.

(** C5: missing-file fallback. For every load in a supported format
    against a path that holds no file on the target branch (the request is
    answered with status 404), [getInsightsFile] returns normally, with the
    empty dataset (json: the text of the empty array; csv: the header line
    and a line break) and the count 0; the only effect is the request. *)
Theorem missing_file_fallback w owner repo branch rootDir fmt :
  supported fmt ->
  w_fault w GetContent = None ->
  file_at (w_repo w) (statsPath rootDir owner repo fmt) branch = None ->
  exists text,
    getInsightsFile owner repo branch rootDir fmt w
    = (Return (Some text, Some 0),
       with_log (w_log w ++ [(GetContent, statsPath rootDir owner repo fmt)]) w)
    /\ text = (if decide (fmt = lit "json") then lit "[]" else csvHeader ++ [NL])
    /\ represents fmt text [].
Proof.
  intros Hfmt Hup Hmissing. eexists. split; [|split; [reflexivity|]].
  - unfold getInsightsFile, try_catch, bind, getContent, request.
    rewrite Hup. cbn [w_repo with_log]. rewrite Hmissing.
    by rewrite emptyFile_supported.
  - by apply empty_file_represents.
Qed.

Lemma missing_file_fallback_witness :
  exists text,
    getInsightsFile (lit "o") (lit "r") (lit "repository-insights") (lit ".insights")
                    (lit "csv") fresh_world
    = (Return (Some text, Some 0),
       with_log (w_log fresh_world
                 ++ [(GetContent, statsPath (lit ".insights") (lit "o") (lit "r") (lit "csv"))])
                fresh_world)
    /\ text = (if decide (lit "csv" = lit "json") then lit "[]" else csvHeader ++ [NL])
    /\ represents (lit "csv") text [].
Proof.
  apply missing_file_fallback.
  - right. reflexivity.
  - reflexivity.
  - vm_compute. reflexivity.
Defined.

(** Every failure of the load is answered with the empty file: a request
    that fails with any status, not only 404, and a file that [JSON.parse]
    rejects both make [getInsightsFile] return the empty dataset with the
    count 0; nothing is thrown. *)
Lemma load_recovers_every_failure w owner repo branch rootDir fmt :
  supported fmt ->
  (forall status,
      w_fault w GetContent = Some status ->
      fst (getInsightsFile owner repo branch rootDir fmt w)
      = Return (Some (if decide (fmt = lit "json") then lit "[]"
                      else csvHeader ++ [NL]), Some 0))
  /\ (forall text,
        fmt = lit "json" ->
        w_fault w GetContent = None ->
        file_at (w_repo w) (statsPath rootDir owner repo fmt) branch = Some text ->
        JSON_parse text = None ->
        fst (getInsightsFile owner repo branch rootDir fmt w)
        = Return (Some (lit "[]"), Some 0)).
Proof.
  intros Hfmt. split.
  - intros status Hdown.
    unfold getInsightsFile, try_catch, bind, getContent, request.
    rewrite Hdown. by rewrite emptyFile_supported.
  - intros text -> Hup Hfile Hbad.
    unfold getInsightsFile, try_catch, bind, getContent, request.
    rewrite Hup. cbn [w_repo with_log]. rewrite Hfile.
    rewrite decide_True by done. rewrite Hbad. unfold throw.
    by rewrite emptyFile_supported.
Qed.

(** C4: the load at two failures that are not "not found". With the
    content request refused with status 403, and with a stored file that is
    not JSON, [getInsightsFile] returns the empty dataset and the count 0:
    it raises neither an access error nor a malformed-data error. *)
Theorem load_hides_access_and_decoding_failures :
  fst (getInsightsFile (lit "o") (lit "r") (lit "repository-insights")
         (lit ".insights") (lit "json") (with_fault GetContent 403 fresh_world))
  = Return (Some (lit "[]"), Some 0)
  /\ file_at (w_repo (world_with_file (lit "not json")))
             (statsPath (lit ".insights") (lit "o") (lit "r") (lit "json"))
             (lit "repository-insights") = Some (lit "not json")
  /\ JSON_parse (lit "not json") = None
  /\ fst (getInsightsFile (lit "o") (lit "r") (lit "repository-insights")
            (lit ".insights") (lit "json") (world_with_file (lit "not json")))
     = Return (Some (lit "[]"), Some 0).
Proof. by vm_compute. Qed.

(** *** [ensureBranchExists] *)

Lemma refs_name branch :
  lit "refs/" ++ lit "heads/" ++ branch = lit "refs/heads/" ++ branch.
Proof. reflexivity. Qed.

Lemma getRef_hit w ref s :
  w_fault w GetRef = None -> refs (w_repo w) !! (lit "refs/" ++ ref) = Some s ->
  getRef ref w = (Return s, with_log (w_log w ++ [(GetRef, ref)]) w).
Proof.
  intros Hup Hs. unfold getRef, request. rewrite Hup.
  cbn [w_repo with_log]. by rewrite Hs.
Qed.

Lemma getRef_miss w ref :
  w_fault w GetRef = None -> refs (w_repo w) !! (lit "refs/" ++ ref) = None ->
  getRef ref w = (Throw (HttpError 404), with_log (w_log w ++ [(GetRef, ref)]) w).
Proof.
  intros Hup Hs. unfold getRef, request. rewrite Hup.
  cbn [w_repo with_log]. by rewrite Hs.
Qed.

Lemma getRef_down w ref status :
  w_fault w GetRef = Some status ->
  getRef ref w = (Throw (HttpError status), with_log (w_log w ++ [(GetRef, ref)]) w).
Proof. intros Hdown. unfold getRef, request. by rewrite Hdown. Qed.

Lemma createRef_new w ref s :
  w_fault w CreateRef = None -> refs (w_repo w) !! ref = None ->
  createRef ref s w
  = (Return tt,
     with_repo (set_refs (<[ref := s]> (refs (w_repo w))) (w_repo w))
               (with_log (w_log w ++ [(CreateRef, ref)]) w)).
Proof.
  intros Hup Hs. unfold createRef, request. rewrite Hup.
  cbn [w_repo with_log]. by rewrite Hs.
Qed.

Lemma ensure_existing w branch head :
  w_fault w GetRef = None ->
  refs (w_repo w) !! (lit "refs/heads/" ++ branch) = Some head ->
  ensureBranchExists branch w
  = (Return tt, with_log (w_log w ++ [(GetRef, lit "heads/" ++ branch)]) w).
Proof.
  intros Hup Hhead. unfold ensureBranchExists, try_catch, bind.
  by rewrite (getRef_hit w _ head).
Qed.

Lemma ensure_missing w branch base :
  w_fault w GetRef = None -> w_fault w CreateRef = None ->
  refs (w_repo w) !! (lit "refs/heads/" ++ branch) = None ->
  refs (w_repo w) !! lit "refs/heads/main" = Some base ->
  ensureBranchExists branch w
  = (Return tt,
     with_repo (set_refs (<[lit "refs/heads/" ++ branch := base]> (refs (w_repo w)))
                         (w_repo w))
       (with_log (w_log w ++ [(GetRef, lit "heads/" ++ branch);
                              (GetRef, lit "heads/main");
                              (CreateRef, lit "refs/heads/" ++ branch)]) w)).
Proof.
  intros Hget Hcreate Hbranch Hmain. unfold ensureBranchExists, try_catch, bind.
  rewrite getRef_miss by done. cbn [exn_status]. rewrite decide_True by done.
  rewrite (getRef_hit _ _ base) by done.
  rewrite createRef_new by done. unfold ret.
  cbn [w_log w_repo with_log with_repo]. by rewrite <- !app_assoc.
Qed.

Lemma ensure_no_base w branch :
  w_fault w GetRef = None ->
  refs (w_repo w) !! (lit "refs/heads/" ++ branch) = None ->
  refs (w_repo w) !! lit "refs/heads/main" = None ->
  ensureBranchExists branch w
  = (Throw (HttpError 404),
     with_log (w_log w ++ [(GetRef, lit "heads/" ++ branch);
                           (GetRef, lit "heads/main")]) w).
Proof.
  intros Hget Hbranch Hmain. unfold ensureBranchExists, try_catch, bind.
  rewrite getRef_miss by done. cbn [exn_status]. rewrite decide_True by done.
  rewrite getRef_miss by done.
  cbn [w_log w_repo with_log with_repo]. by rewrite <- !app_assoc.
Qed.

(** C9: branch provisioning. With the reference endpoints up, for every
    branch name: if the branch exists, [ensureBranchExists] returns after
    the one lookup and leaves the repository as it is; if the branch does
    not exist and the base branch [main] is at commit [base], it returns
    after creating the branch at [base], changing nothing else, and a
    second call then leaves the repository as it is; if [main] does not
    exist either, it throws the 404 of the second lookup and changes
    nothing. *)
Theorem branch_provisioning w branch :
  w_fault w GetRef = None -> w_fault w CreateRef = None ->
  let name := lit "refs/heads/" ++ branch in
  let '(r, w1) := ensureBranchExists branch w in
  match refs (w_repo w) !! name with
  | Some head =>
      r = Return tt /\ w_repo w1 = w_repo w
      /\ sent w w1 = [(GetRef, lit "heads/" ++ branch)]
  | None =>
      match refs (w_repo w) !! lit "refs/heads/main" with
      | Some base =>
          r = Return tt
          /\ w_repo w1 = set_refs (<[name := base]> (refs (w_repo w))) (w_repo w)
          /\ refs (w_repo w1) !! name = Some base
          /\ sent w w1 = [(GetRef, lit "heads/" ++ branch);
                          (GetRef, lit "heads/main"); (CreateRef, name)]
          /\ (let '(r2, w2) := ensureBranchExists branch w1 in
              r2 = Return tt /\ w_repo w2 = w_repo w1)
      | None => r = Throw (HttpError 404) /\ w_repo w1 = w_repo w
      end
  end.
Proof.
  intros Hget Hcreate name.
  destruct (refs (w_repo w) !! name) as [head|] eqn:Hbranch.
  - rewrite (ensure_existing w branch head) by done.
    repeat split. apply sent_app.
  - destruct (refs (w_repo w) !! lit "refs/heads/main") as [base|] eqn:Hmain.
    + rewrite (ensure_missing w branch base) by done. fold name.
      set (w1 := with_repo _ _).
      assert (Hnew : refs (w_repo w1) !! name = Some base)
        by apply lookup_insert_eq.
      rewrite (ensure_existing w1 branch base) by done.
      repeat split; [done|].
      unfold sent, w1. cbn [w_log with_repo with_log]. by rewrite drop_app_length.
    + by rewrite (ensure_no_base w branch).
Qed.

Lemma branch_provisioning_witness :
  let name := lit "refs/heads/" ++ lit "repository-insights" in
  let '(r, w1) := ensureBranchExists (lit "repository-insights") fresh_world in
  match refs (w_repo fresh_world) !! name with
  | Some head =>
      r = Return tt /\ w_repo w1 = w_repo fresh_world
      /\ sent fresh_world w1 = [(GetRef, lit "heads/" ++ lit "repository-insights")]
  | None =>
      match refs (w_repo fresh_world) !! lit "refs/heads/main" with
      | Some base =>
          r = Return tt
          /\ w_repo w1
             = set_refs (<[name := base]> (refs (w_repo fresh_world))) (w_repo fresh_world)
          /\ refs (w_repo w1) !! name = Some base
          /\ sent fresh_world w1
             = [(GetRef, lit "heads/" ++ lit "repository-insights");
                (GetRef, lit "heads/main"); (CreateRef, name)]
          /\ (let '(r2, w2) := ensureBranchExists (lit "repository-insights") w1 in
              r2 = Return tt /\ w_repo w2 = w_repo w1)
      | None => r = Throw (HttpError 404) /\ w_repo w1 = w_repo fresh_world
      end
  end.
Proof.
  apply (branch_provisioning fresh_world (lit "repository-insights")); reflexivity.
Defined.

End StorageClaims.

(** ** The backfill loop *)

Module BackfillClaims.
Import StrFacts JsonFacts DatasetFacts GenerateFacts UpsertClaims StorageClaims Samples.

Lemma backfillOffsets_countdown : backfillOffsets = countdown 13.
Proof. reflexivity. Qed.

Lemma backfillLoop_done fuel stats fmt file w :
  backfillLoop fuel stats fmt 1 file w = (Return file, w).
Proof. by destruct fuel. Qed.

(** With enough fuel the loop started at [n + 1] runs its body for
    [n + 1], [n], ..., 2 and stops. *)
Lemma backfillLoop_countdown stats fmt n : forall fuel file w,
  (n <= fuel)%nat ->
  backfillLoop fuel stats fmt (Z.of_nat n + 1) file w
  = backfillDays stats fmt (countdown n) file w.
Proof.
  induction n as [|n IH]; intros fuel file w Hfuel.
  - apply backfillLoop_done.
  - destruct fuel as [|fuel]; [lia|].
    cbn [backfillLoop countdown backfillDays].
    rewrite decide_True by lia. unfold bind.
    destruct (backfillDay stats fmt (Z.of_nat (S n) + 1) file w) as [[file'| |] w1];
      [|done..].
    replace (Z.of_nat (S n) + 1 - 1) with (Z.of_nat n + 1) by lia.
    apply IH. lia.
Qed.

Lemma backfill_unfold fuel stats fmt k file w :
  (13 <= fuel)%nat ->
  backfill fuel stats fmt (Some k) file w =
  if k <? 14 then backfillDays stats fmt backfillOffsets file w
  else (Return file, w).
Proof.
  intros Hfuel. unfold backfill, less_than_14. destruct (k <? 14); [|done].
  rewrite backfillOffsets_countdown.
  by apply (backfillLoop_countdown stats fmt 13).
Qed.

Lemma backfillDay_up stats fmt i file w :
  metrics_up w ->
  backfillDay stats fmt i file w
  = (upsert_file fmt file (backfillEntry w stats i),
     with_log (w_log w ++ day_requests w i) w).
Proof.
  intros [Hviews Hclones].
  unfold backfillDay, bind, daysAgo, promise_all, getYesterdayTraffic,
    getYesterdayClones, request, lift.
  rewrite Hviews. cbn [w_fault with_log]. rewrite Hclones.
  cbn [w_log w_views w_clones with_log]. rewrite <- app_assoc. reflexivity.
Qed.

(** With the metrics source up, running the loop body over a list of
    offsets is the sequence of upserts of the records of these offsets;
    when the sequence succeeds, the requests sent are the two of each
    offset, in order. *)
Lemma backfillDays_up stats fmt offsets : forall file w,
  metrics_up w ->
  fst (backfillDays stats fmt offsets file w)
  = upsert_files fmt file (map (backfillEntry w stats) offsets)
  /\ (forall file',
        fst (backfillDays stats fmt offsets file w) = Return file' ->
        snd (backfillDays stats fmt offsets file w)
        = with_log (w_log w ++ flat_map (day_requests w) offsets) w).
Proof.
  induction offsets as [|i offsets IH]; intros file w Hup.
  - cbn. split; [done|]. intros _ _. rewrite app_nil_r. by destruct w.
  - cbn [backfillDays map upsert_files flat_map]. unfold bind.
    rewrite backfillDay_up by done.
    destruct (upsert_file fmt file (backfillEntry w stats i)) as [file1| |]; [|done..].
    set (w1 := with_log _ w).
    destruct (IH file1 w1 Hup) as [Hfst Hsnd].
    split; [exact Hfst|].
    intros file' Hret. rewrite (Hsnd file' Hret).
    unfold w1. cbn [w_log with_log]. unfold with_log. cbn. by rewrite <- app_assoc.
Qed.

(** C3: the backfill threshold is all-or-nothing. With enough fuel for the
    loop and the metrics source up, for a loaded count [k]: when [k < 14]
    the backfill block is exactly the sequence of 13 upserts of the records
    for the day offsets 14 down to 2, it returns or throws, and, when the
    upserts succeed, it has sent exactly the two requests of each of the 13
    days; when [k >= 14] it performs no upsert and sends nothing. *)
Theorem backfill_threshold fuel stats fmt k file w :
  (13 <= fuel)%nat -> metrics_up w ->
  let days := [14; 13; 12; 11; 10; 9; 8; 7; 6; 5; 4; 3; 2] in
  let '(r, w') := backfill fuel stats fmt (Some k) file w in
  if k <? 14 then
    r = upsert_files fmt file (map (backfillEntry w stats) days)
    /\ length (map (backfillEntry w stats) days) = 13%nat
    /\ r <> Diverge
    /\ (forall file', r = Return file' -> sent w w' = flat_map (day_requests w) days)
  else r = Return file /\ w' = w.
Proof.
  intros Hfuel Hup days. rewrite backfill_unfold by done.
  destruct (k <? 14); [|done].
  destruct (backfillDays_up stats fmt backfillOffsets file w Hup) as [Hfst Hsnd].
  destruct (backfillDays stats fmt backfillOffsets file w) as [r w'].
  cbn [fst snd] in *. split; [exact Hfst|]. split; [done|].
  split; [rewrite Hfst; apply upsert_files_total|].
  intros file' Hret. rewrite (Hsnd file' Hret). apply sent_app.
Qed.

Lemma backfill_threshold_witness :
  let days := [14; 13; 12; 11; 10; 9; 8; 7; 6; 5; 4; 3; 2] in
  let '(r, w') :=
    backfill 13 (run_start_stats fresh_world) (lit "csv") (Some 0)
             (Some (csvHeader ++ [NL])) fresh_world in
  if 0 <? 14 then
    r = upsert_files (lit "csv") (Some (csvHeader ++ [NL]))
          (map (backfillEntry fresh_world (run_start_stats fresh_world)) days)
    /\ length (map (backfillEntry fresh_world (run_start_stats fresh_world)) days)
       = 13%nat
    /\ r <> Diverge
    /\ (forall file', r = Return file' ->
        sent fresh_world w' = flat_map (day_requests fresh_world) days)
  else r = Return (Some (csvHeader ++ [NL])) /\ w' = fresh_world.
Proof.
  apply (backfill_threshold 13 (run_start_stats fresh_world) (lit "csv") 0
           (Some (csvHeader ++ [NL])) fresh_world).
  - lia.
  - split; reflexivity.
Defined.

(** *** The records of the backfill *)

Lemma spec_upsert_In D R : R ∈ spec_upsert D R.
Proof.
  induction D as [|e D IH].
  - rewrite spec_upsert_nil. by left.
  - rewrite spec_upsert_cons. case_bool_decide; [by left|by right].
Qed.

Lemma spec_upsert_keeps D R r : r ∈ D -> date r <> date R -> r ∈ spec_upsert D R.
Proof.
  induction D as [|e D IH]; intros Hin Hne; [by apply elem_of_nil in Hin|].
  rewrite spec_upsert_cons. apply elem_of_cons in Hin as [->|Hin].
  - rewrite bool_decide_eq_false_2 by done. by left.
  - case_bool_decide; right; [done|by apply IH].
Qed.

Lemma fold_spec_upsert_keeps Rs : forall D r,
  r ∈ D -> (forall R, R ∈ Rs -> date R = date r -> R = r) ->
  r ∈ fold_left spec_upsert Rs D.
Proof.
  induction Rs as [|R Rs IH]; intros D r Hin Hsame; [done|].
  cbn [fold_left]. apply IH.
  - destruct (decide (date R = date r)) as [Heq|Hne].
    + rewrite <- (Hsame R) by (done || by left). apply spec_upsert_In.
    + apply spec_upsert_keeps; [done|congruence].
  - intros R' HR'. apply Hsame. by right.
Qed.

(** When records of one date are equal, every upserted record is in the
    final dataset. *)
Lemma fold_spec_upsert_In Rs : forall D R,
  (forall R1 R2, R1 ∈ Rs -> R2 ∈ Rs -> date R1 = date R2 -> R1 = R2) ->
  R ∈ Rs -> R ∈ fold_left spec_upsert Rs D.
Proof.
  induction Rs as [|R0 Rs IH]; intros D R Hsame Hin; [by apply elem_of_nil in Hin|].
  cbn [fold_left]. apply elem_of_cons in Hin as [->|Hin].
  - apply fold_spec_upsert_keeps; [apply spec_upsert_In|].
    intros R' HR' Hd. apply Hsame; [by right|by left|done].
  - apply IH; [|done]. intros R1 R2 H1 H2. apply Hsame; by right.
Qed.

Lemma backfillEntry_same_date w stats i j :
  date (backfillEntry w stats i) = date (backfillEntry w stats j) ->
  backfillEntry w stats i = backfillEntry w stats j.
Proof. unfold backfillEntry. cbn [date]. by intros ->. Qed.

Lemma upsert_files_refines fmt Rs : forall text D,
  supported fmt -> represents fmt text D -> dates_ok fmt (Rs ++ D) ->
  exists text',
    upsert_files fmt (Some text) Rs = Return (Some text')
    /\ represents fmt text' (fold_left spec_upsert Rs D).
Proof.
  induction Rs as [|R Rs IH]; intros text D Hfmt Hrep Hok.
  - by exists text.
  - assert (HokR : dates_ok fmt (R :: D)).
    { intros Hf. specialize (Hok Hf). cbn [app] in Hok.
      apply Forall_cons in Hok as [HR Hok]. apply Forall_app in Hok as [_ HD].
      by constructor. }
    cbn [upsert_files fold_left].
    rewrite (upsert_file_refines fmt text D R) by done.
    apply IH; [done| |].
    + apply represents_encode; [done|]. by apply dates_ok_upsert.
    + intros Hf. apply Forall_app. split.
      * specialize (Hok Hf). cbn [app] in Hok.
        apply Forall_cons in Hok as [_ Hok]. by apply Forall_app in Hok as [? _].
      * by apply (dates_ok_upsert fmt R D HokR).
Qed.

Lemma getRepoStats_up owner repo w :
  w_fault w Graphql = None ->
  getRepoStats owner repo w
  = (Return (run_start_stats w),
     with_log (w_log w ++ [(Graphql, owner ++ "/"%char :: repo)]) w).
Proof. intros Hup. unfold getRepoStats, request. by rewrite Hup. Qed.

End BackfillClaims.

(** ** A run with an unsupported format *)

Module FormatClaims.
Import StrFacts JsonFacts DatasetFacts GenerateFacts UpsertClaims StorageClaims
  BackfillClaims Samples.

Lemma with_repo_same w l : with_repo (w_repo w) (with_log l w) = with_log l w.
Proof. by destruct w. Qed.

Lemma emptyFile_unsupported fmt w :
  ~ supported fmt -> emptyFile fmt w = (Throw UnsupportedFormat, w).
Proof.
  intros Hfmt. unfold emptyFile, supported in *.
  destruct (decide (fmt = lit "json")); [tauto|].
  destruct (decide (fmt = lit "csv")); [tauto|done].
Qed.

(** With a format that is neither json nor csv the load throws the
    unsupported-format error, whatever the content request answers. *)
Lemma getInsightsFile_unsupported owner repo branch rootDir fmt w :
  ~ supported fmt ->
  getInsightsFile owner repo branch rootDir fmt w
  = (Throw UnsupportedFormat,
     with_log (w_log w ++ [(GetContent, statsPath rootDir owner repo fmt)]) w).
Proof.
  intros Hfmt. pose proof Hfmt as Hfmt'. unfold supported in Hfmt'.
  unfold getInsightsFile, try_catch, bind, getContent, request.
  destruct (w_fault w GetContent) as [status|].
  - by rewrite emptyFile_unsupported.
  - destruct (file_at _ _ _) as [text|].
    + destruct (decide (fmt = lit "json")); [tauto|].
      destruct (decide (fmt = lit "csv")); [tauto|].
      unfold throw. by rewrite emptyFile_unsupported.
    + by rewrite emptyFile_unsupported.
Qed.

Lemma createRef_down w ref s status :
  w_fault w CreateRef = Some status ->
  createRef ref s w
  = (Throw (HttpError status), with_log (w_log w ++ [(CreateRef, ref)]) w).
Proof. intros Hdown. unfold createRef, request. by rewrite Hdown. Qed.

(** What branch provisioning can do to the world, in every case: it
    returns or throws; it leaves the repository as it is or, when it
    returns, may have added the one reference of the branch at the head of
    [main]; the only mutating request it sends is the creation of that
    reference. *)
Lemma ensure_effect w branch :
  let name := lit "refs/heads/" ++ branch in
  exists r R l,
    ensureBranchExists branch w = (r, with_repo R (with_log (w_log w ++ l) w))
    /\ r <> Diverge
    /\ (R = w_repo w
        \/ (r = Return tt /\ refs (w_repo w) !! name = None
            /\ exists base, refs (w_repo w) !! lit "refs/heads/main" = Some base
                 /\ R = set_refs (<[name := base]> (refs (w_repo w))) (w_repo w)))
    /\ Forall (fun ev => is_mutation ev = true -> ev = (CreateRef, name)) l.
Proof.
  intros name.
  destruct (w_fault w GetRef) as [status|] eqn:Hget.
  - unfold ensureBranchExists, try_catch, bind.
    rewrite (getRef_down w _ status) by done. cbn [exn_status].
    destruct (decide (Some status = Some 404)) as [Heq|Hne].
    + rewrite (getRef_down _ _ status) by done.
      eexists _, (w_repo w), _. split.
      { rewrite with_repo_same. cbn [w_log with_log]. rewrite <- app_assoc.
        reflexivity. }
      split; [done|]. split; [by left|]. by repeat constructor.
    + eexists _, (w_repo w), _. split.
      { rewrite with_repo_same. reflexivity. }
      split; [done|]. split; [by left|]. by repeat constructor.
  - destruct (refs (w_repo w) !! name) as [head|] eqn:Hbranch.
    { rewrite (ensure_existing w branch head) by done.
      eexists _, (w_repo w), _. split; [by rewrite with_repo_same|].
      split; [done|]. split; [by left|]. by repeat constructor. }
    destruct (refs (w_repo w) !! lit "refs/heads/main") as [base|] eqn:Hmain.
    2: { rewrite (ensure_no_base w branch) by done.
         eexists _, (w_repo w), _. split; [by rewrite with_repo_same|].
         split; [done|]. split; [by left|]. by repeat constructor. }
    destruct (w_fault w CreateRef) as [status|] eqn:Hcreate.
    + unfold ensureBranchExists, try_catch, bind.
      rewrite getRef_miss by done. cbn [exn_status]. rewrite decide_True by done.
      rewrite (getRef_hit _ _ base) by done.
      rewrite (createRef_down _ _ _ status) by done.
      eexists _, (w_repo w), _. split.
      { rewrite with_repo_same. cbn [w_log with_log]. rewrite <- !app_assoc.
        reflexivity. }
      split; [done|]. split; [by left|]. by repeat constructor.
    + rewrite (ensure_missing w branch base) by done.
      eexists _, _, _. split; [reflexivity|].
      split; [done|]. split; [right; eauto|]. by repeat constructor.
Qed.

(** C8, as the code has it: a run whose effective format (the input in
    lower case, json when the input is empty) is neither json nor csv
    fails, and fails with the unsupported-format error when the stats query
    and the branch provisioning before the load succeed. Before the abort
    no blob, tree or commit is created and no reference is updated: the
    only mutation that can have happened is the creation of the target
    branch at the head of [main]. *)
Theorem unsupported_format_aborts fuel inp w :
  ~ supported (effective_format inp) ->
  let name := lit "refs/heads/" ++ effective_branch inp in
  let '(res, w') := run fuel inp w in
  (exists error, res = Failed error)
  /\ (w_repo w' = w_repo w
      \/ (refs (w_repo w) !! name = None
          /\ exists base, refs (w_repo w) !! lit "refs/heads/main" = Some base
               /\ w_repo w' = set_refs (<[name := base]> (refs (w_repo w))) (w_repo w)))
  /\ Forall (fun ev => is_mutation ev = true -> ev = (CreateRef, name)) (sent w w')
  /\ (forall stats w1,
        getRepoStats (in_owner inp) (in_repository inp) w = (Return stats, w1) ->
        fst (ensureBranchExists (effective_branch inp) w1) = Return tt ->
        res = Failed UnsupportedFormat).
Proof.
  intros Hfmt name. unfold run, run_body, bind.
  unfold getRepoStats at 1, request.
  destruct (w_fault w Graphql) as [status|] eqn:Hstats.
  - split; [eauto|]. split; [by left|]. split.
    + rewrite sent_app. by repeat constructor.
    + intros stats w1 H. unfold getRepoStats, request in H. rewrite Hstats in H.
      discriminate H.
  - set (w1 := with_log _ w).
    destruct (ensure_effect w1 (effective_branch inp)) as (r & R & l & Hens & Hr & HR & Hl).
    fold name in HR, Hl. rewrite Hens.
    assert (Hrepo : forall l',
              w_repo (with_repo R (with_log l' w1)) = w_repo w
              \/ (refs (w_repo w) !! name = None
                  /\ exists base, refs (w_repo w) !! lit "refs/heads/main" = Some base
                       /\ w_repo (with_repo R (with_log l' w1))
                          = set_refs (<[name := base]> (refs (w_repo w))) (w_repo w))).
    { intros l'. cbn [w_repo with_repo]. destruct HR as [->|(_ & Hnone & base & Hbase & ->)].
      - by left.
      - right. split; [exact Hnone|]. by exists base. }
    destruct r as [[]|error|]; [| |done].
    + rewrite getInsightsFile_unsupported by done.
      split; [eauto|]. split; [apply Hrepo|]. split.
      * unfold sent, w1. cbn [w_log with_repo with_log].
        rewrite <- !app_assoc, drop_app_length. constructor; [done|].
        apply Forall_app. split; [done|]. by repeat constructor.
      * done.
    + split; [eauto|]. split; [apply Hrepo|]. split.
      * unfold sent, w1. cbn [w_log with_repo with_log].
        rewrite <- !app_assoc, drop_app_length. by constructor.
      * intros stats w1' H. unfold getRepoStats, request in H. rewrite Hstats in H.
        injection H as _ <-. fold w1. rewrite Hens. discriminate.
Qed.

Lemma unsupported_format_aborts_witness :
  let name := lit "refs/heads/" ++ effective_branch (sample_inputs (lit "xml")) in
  let '(res, w') := run 0 (sample_inputs (lit "xml")) fresh_world in
  (exists error, res = Failed error)
  /\ (w_repo w' = w_repo fresh_world
      \/ (refs (w_repo fresh_world) !! name = None
          /\ exists base,
               refs (w_repo fresh_world) !! lit "refs/heads/main" = Some base
               /\ w_repo w'
                  = set_refs (<[name := base]> (refs (w_repo fresh_world)))
                             (w_repo fresh_world)))
  /\ Forall (fun ev => is_mutation ev = true -> ev = (CreateRef, name))
            (sent fresh_world w')
  /\ (forall stats w1,
        getRepoStats (in_owner (sample_inputs (lit "xml")))
                     (in_repository (sample_inputs (lit "xml"))) fresh_world
        = (Return stats, w1) ->
        fst (ensureBranchExists (effective_branch (sample_inputs (lit "xml"))) w1)
        = Return tt ->
        res = Failed UnsupportedFormat).
Proof.
  apply (unsupported_format_aborts 0 (sample_inputs (lit "xml")) fresh_world).
  unfold supported. vm_compute. intros [H|H]; discriminate H.
Defined.

(** C8 as stated fails: in a repository without the insights branch, a run
    configured with the format xml fails with the unsupported-format error
    after it has created the branch. *)
Lemma branch_created_before_format_error :
  let '(res, w') := run 0 (sample_inputs (lit "xml")) fresh_world in
  res = Failed UnsupportedFormat
  /\ refs (w_repo fresh_world) !! lit "refs/heads/repository-insights" = None
  /\ refs (w_repo w') !! lit "refs/heads/repository-insights" = Some 1%N
  /\ sent fresh_world w'
     = [ (Graphql, lit "o/r");
         (GetRef, lit "heads/repository-insights");
         (GetRef, lit "heads/main");
         (CreateRef, lit "refs/heads/repository-insights");
         (GetContent, lit ".insights/o/r/stats.xml") ]
  /\ is_mutation (CreateRef, lit "refs/heads/repository-insights") = true.
Proof. by vm_compute. Qed.

End FormatClaims.

(** ** The requests of a run *)

Module LogFacts.
Import StorageClaims BackfillClaims.

Section Emits.
Context (P : event -> Prop).

Lemma emits_silent {A} (m : M A) :
  (forall w, w_log (snd (m w)) = w_log w) -> emits P m.
Proof. intros H w. exists []. rewrite app_nil_r. by split. Qed.

Lemma emits_ret {A} (a : A) : emits P (ret a).
Proof. by apply emits_silent. Qed.

Lemma emits_throw {A} e : emits P (@throw A e).
Proof. by apply emits_silent. Qed.

Lemma emits_lift {A} (o : outcome A) : emits P (lift o).
Proof. by apply emits_silent. Qed.

Lemma emits_bind {A B} (m : M A) (k : A -> M B) :
  emits P m -> (forall a, emits P (k a)) -> emits P (bind m k).
Proof.
  intros Hm Hk w. unfold bind. destruct (Hm w) as (l & Hl & HP).
  destruct (m w) as [[a|e|] w1]; cbn [snd] in *; [|by exists l..].
  destruct (Hk a w1) as (l' & Hl' & HP'). exists (l ++ l').
  rewrite Hl', Hl, app_assoc. split; [done|]. by apply Forall_app.
Qed.

Lemma emits_try_catch {A} (m : M A) (h : exn -> M A) :
  emits P m -> (forall e, emits P (h e)) -> emits P (try_catch m h).
Proof.
  intros Hm Hh w. unfold try_catch. destruct (Hm w) as (l & Hl & HP).
  destruct (m w) as [[a|e|] w1]; cbn [snd] in *; [by exists l| |by exists l].
  destruct (Hh e w1) as (l' & Hl' & HP'). exists (l ++ l').
  rewrite Hl', Hl, app_assoc. split; [done|]. by apply Forall_app.
Qed.

Lemma emits_promise_all {A B} (a : M A) (b : M B) :
  emits P a -> emits P b -> emits P (promise_all a b).
Proof.
  intros Ha Hb w. unfold promise_all. destruct (Ha w) as (l & Hl & HP).
  destruct (a w) as [ra w1]. cbn [snd] in *.
  destruct (Hb w1) as (l' & Hl' & HP').
  destruct (b w1) as [rb w2]. cbn [snd] in *.
  exists (l ++ l'). split; [|by apply Forall_app].
  destruct ra, rb; cbn [snd]; by rewrite Hl', Hl, app_assoc.
Qed.

Lemma emits_request {A} endpoint arg (serve : world -> outcome A * world) :
  P (endpoint, arg) -> (forall w, w_log (snd (serve w)) = w_log w) ->
  emits P (request endpoint arg serve).
Proof.
  intros HP Hserve w. unfold request. exists [(endpoint, arg)].
  split; [|by repeat constructor].
  destruct (w_fault w endpoint); [done|]. by rewrite Hserve.
Qed.

Lemma emits_getRef ref : P (GetRef, ref) -> emits P (getRef ref).
Proof.
  intros HP. apply emits_request; [done|]. intros w. by destruct (_ !! _).
Qed.

Lemma emits_createRef ref s : P (CreateRef, ref) -> emits P (createRef ref s).
Proof.
  intros HP. apply emits_request; [done|]. intros w. by destruct (_ !! _).
Qed.

Lemma emits_updateRef ref s : P (UpdateRef, ref) -> emits P (updateRef ref s).
Proof.
  intros HP. apply emits_request; [done|]. intros w. by destruct (_ !! _).
Qed.

Lemma emits_getContent path ref : P (GetContent, path) -> emits P (getContent path ref).
Proof.
  intros HP. apply emits_request; [done|]. intros w. by destruct (file_at _ _ _).
Qed.

Lemma emits_getCommit c : P (GetCommit, []) -> emits P (getCommit c).
Proof.
  intros HP. apply emits_request; [done|]. intros w. by destruct (_ !! _).
Qed.

Lemma emits_createBlob content : P (CreateBlob, []) -> emits P (createBlob content).
Proof. intros HP. by apply emits_request. Qed.

Lemma emits_createTree base path blob :
  P (CreateTree, path) -> emits P (createTree base path blob).
Proof.
  intros HP. apply emits_request; [done|]. intros w.
  destruct (tree_objs (w_repo w) !! base) eqn:E; cbn; rewrite E; done.
Qed.

Lemma emits_createCommit message tree parents :
  P (CreateCommit, []) -> emits P (createCommit message tree parents).
Proof. intros HP. by apply emits_request. Qed.

Lemma emits_traffic d : P (GetViews, d) -> emits P (getYesterdayTraffic d).
Proof. intros HP. by apply emits_request. Qed.

Lemma emits_clones d : P (GetClones, d) -> emits P (getYesterdayClones d).
Proof. intros HP. by apply emits_request. Qed.

(** Everything after the stats query sends through endpoints other than
    the GraphQL one. *)
Hypothesis P_rest : forall ev, fst ev <> Graphql -> P ev.

Lemma emits_ensureBranchExists branch : emits P (ensureBranchExists branch).
Proof.
  apply emits_try_catch.
  - apply emits_bind; [by apply emits_getRef, P_rest|]. intros _. apply emits_ret.
  - intros e. case_decide; [|apply emits_throw].
    apply emits_bind; [by apply emits_getRef, P_rest|]. intros mainSha.
    apply emits_bind; [by apply emits_createRef, P_rest|]. intros _. apply emits_ret.
Qed.

Lemma emits_emptyFile fmt : emits P (emptyFile fmt).
Proof. unfold emptyFile. repeat case_decide; (apply emits_ret || apply emits_throw). Qed.

Lemma emits_getInsightsFile owner repo branch rootDir fmt :
  emits P (getInsightsFile owner repo branch rootDir fmt).
Proof.
  apply emits_try_catch; [|intros e; apply emits_emptyFile].
  apply emits_bind; [by apply emits_getContent, P_rest|]. intros text.
  repeat case_decide; try apply emits_ret; try apply emits_throw.
  destruct (JSON_parse text) as [v|]; [|apply emits_throw].
  destruct (js_length v); [apply emits_throw|apply emits_ret].
Qed.

Lemma emits_backfillDay stats fmt i file : emits P (backfillDay stats fmt i file).
Proof.
  apply emits_bind; [by apply emits_silent|]. intros d.
  apply emits_bind.
  - apply emits_promise_all; [by apply emits_traffic, P_rest|by apply emits_clones, P_rest].
  - intros [t c]. apply emits_lift.
Qed.

Lemma emits_backfillLoop fuel stats fmt : forall i file,
  emits P (backfillLoop fuel stats fmt i file).
Proof.
  induction fuel as [|fuel IH]; intros i file; cbn [backfillLoop]; case_decide;
    try apply emits_ret; [by apply emits_silent|].
  apply emits_bind; [apply emits_backfillDay|]. intros file'. apply IH.
Qed.

Lemma emits_backfill fuel stats fmt count file :
  emits P (backfill fuel stats fmt count file).
Proof.
  unfold backfill. destruct (less_than_14 count); [apply emits_backfillLoop|apply emits_ret].
Qed.

Lemma emits_commitFileToBranch owner repo branch rootDir content fmt :
  emits P (commitFileToBranch owner repo branch rootDir content fmt).
Proof.
  apply emits_bind; [by apply emits_getRef, P_rest|]. intros commitSha.
  apply emits_bind; [by apply emits_getCommit, P_rest|]. intros treeSha.
  apply emits_bind; [by apply emits_createBlob, P_rest|]. intros blobSha.
  apply emits_bind; [by apply emits_createTree, P_rest|]. intros newTreeSha.
  apply emits_bind; [by apply emits_createCommit, P_rest|]. intros newCommitSha.
  by apply emits_updateRef, P_rest.
Qed.

End Emits.

(** *** Termination *)

Lemma terminates_ret {A} (a : A) : terminates (ret a).
Proof. by intros w. Qed.

Lemma terminates_throw {A} e : terminates (@throw A e).
Proof. by intros w. Qed.

Lemma terminates_lift {A} (o : outcome A) : o <> Diverge -> terminates (lift o).
Proof. by intros H w. Qed.

Lemma terminates_bind {A B} (m : M A) (k : A -> M B) :
  terminates m -> (forall a, terminates (k a)) -> terminates (bind m k).
Proof.
  intros Hm Hk w. unfold bind. specialize (Hm w).
  destruct (m w) as [[a|e|] w1]; cbn [fst] in *; [apply Hk|done|done].
Qed.

Lemma terminates_try_catch {A} (m : M A) (h : exn -> M A) :
  terminates m -> (forall e, terminates (h e)) -> terminates (try_catch m h).
Proof.
  intros Hm Hh w. unfold try_catch. specialize (Hm w).
  destruct (m w) as [[a|e|] w1]; cbn [fst] in *; [done|apply Hh|done].
Qed.

Lemma terminates_promise_all {A B} (a : M A) (b : M B) :
  terminates a -> terminates b -> terminates (promise_all a b).
Proof.
  intros Ha Hb w. unfold promise_all. specialize (Ha w).
  destruct (a w) as [ra w1]. specialize (Hb w1). destruct (b w1) as [rb w2].
  cbn [fst] in *. by destruct ra, rb.
Qed.

Lemma terminates_request {A} endpoint arg (serve : world -> outcome A * world) :
  (forall w, fst (serve w) <> Diverge) -> terminates (request endpoint arg serve).
Proof. intros Hs w. unfold request. by destruct (w_fault w endpoint). Qed.

Lemma terminates_getRef ref : terminates (getRef ref).
Proof. apply terminates_request. intros w. by destruct (_ !! _). Qed.

Lemma terminates_createRef ref s : terminates (createRef ref s).
Proof. apply terminates_request. intros w. by destruct (_ !! _). Qed.

Lemma terminates_updateRef ref s : terminates (updateRef ref s).
Proof. apply terminates_request. intros w. by destruct (_ !! _). Qed.

Lemma terminates_getContent path ref : terminates (getContent path ref).
Proof. apply terminates_request. intros w. by destruct (file_at _ _ _). Qed.

Lemma terminates_getCommit c : terminates (getCommit c).
Proof. apply terminates_request. intros w. by destruct (_ !! _). Qed.

Lemma terminates_createTree base path blob : terminates (createTree base path blob).
Proof.
  apply terminates_request. intros w.
  destruct (tree_objs (w_repo w) !! base) eqn:E; cbn; rewrite E; done.
Qed.

Lemma terminates_ensureBranchExists branch : terminates (ensureBranchExists branch).
Proof.
  apply terminates_try_catch.
  - apply terminates_bind; [apply terminates_getRef|]. intros _. apply terminates_ret.
  - intros e. case_decide; [|apply terminates_throw].
    apply terminates_bind; [apply terminates_getRef|]. intros mainSha.
    apply terminates_bind; [apply terminates_createRef|]. intros _. apply terminates_ret.
Qed.

Lemma terminates_emptyFile fmt : terminates (emptyFile fmt).
Proof.
  unfold emptyFile. repeat case_decide; (apply terminates_ret || apply terminates_throw).
Qed.

Lemma terminates_getInsightsFile owner repo branch rootDir fmt :
  terminates (getInsightsFile owner repo branch rootDir fmt).
Proof.
  apply terminates_try_catch; [|intros e; apply terminates_emptyFile].
  apply terminates_bind; [apply terminates_getContent|]. intros text.
  repeat case_decide; try apply terminates_ret; try apply terminates_throw.
  destruct (JSON_parse text) as [v|]; [|apply terminates_throw].
  destruct (js_length v); [apply terminates_throw|apply terminates_ret].
Qed.

Lemma terminates_day d :
  terminates (promise_all (getYesterdayTraffic d) (getYesterdayClones d)).
Proof. apply terminates_promise_all; by apply terminates_request. Qed.

Lemma terminates_backfillDay stats fmt i file : terminates (backfillDay stats fmt i file).
Proof.
  apply terminates_bind; [by intros w|]. intros d.
  apply terminates_bind; [apply terminates_day|]. intros [t c].
  apply terminates_lift, GenerateFacts.generateFileContent_total.
Qed.

Lemma terminates_backfillDays stats fmt offsets : forall file,
  terminates (backfillDays stats fmt offsets file).
Proof.
  induction offsets as [|i offsets IH]; intros file; [apply terminates_ret|].
  cbn [backfillDays]. apply terminates_bind; [apply terminates_backfillDay|]. apply IH.
Qed.

(** Thirteen units of fuel are enough for the loop. *)
Lemma terminates_backfill fuel stats fmt count file :
  (13 <= fuel)%nat -> terminates (backfill fuel stats fmt count file).
Proof.
  intros Hfuel w. destruct count as [k|]; [|done].
  rewrite backfill_unfold by done.
  destruct (k <? 14); [apply terminates_backfillDays|done].
Qed.

Lemma terminates_commitFileToBranch owner repo branch rootDir content fmt :
  terminates (commitFileToBranch owner repo branch rootDir content fmt).
Proof.
  apply terminates_bind; [apply terminates_getRef|]. intros commitSha.
  apply terminates_bind; [apply terminates_getCommit|]. intros treeSha.
  apply terminates_bind; [by apply terminates_request|]. intros blobSha.
  apply terminates_bind; [apply terminates_createTree|]. intros newTreeSha.
  apply terminates_bind; [by apply terminates_request|]. intros newCommitSha.
  apply terminates_updateRef.
Qed.

(** With thirteen units of fuel or more a run succeeds or fails: the
    loop of the source always ends. *)
Lemma run_terminates fuel inp w : (13 <= fuel)%nat -> fst (run fuel inp w) <> Hangs.
Proof.
  intros Hfuel. unfold run.
  assert (H : terminates (run_body fuel inp)).
  { apply terminates_bind; [by apply terminates_request|]. intros stats.
    apply terminates_bind; [apply terminates_ensureBranchExists|]. intros _.
    apply terminates_bind; [apply terminates_getInsightsFile|]. intros [file count].
    apply terminates_bind; [by apply terminates_backfill|]. intros file'.
    apply terminates_bind; [by intros ?|]. intros d.
    apply terminates_bind; [apply terminates_day|]. intros [t c].
    apply terminates_bind; [by intros ?|]. intros _.
    apply terminates_bind;
      [apply terminates_lift, GenerateFacts.generateFileContent_total|].
    intros content. apply terminates_commitFileToBranch. }
  specialize (H w). by destruct (run_body fuel inp w) as [[| |] ?].
Qed.

(** The first request of a run is the stats query, and it is the only
    request to that endpoint. *)
Lemma run_queries_stats_once fuel inp w :
  exists l,
    sent w (snd (run fuel inp w))
    = (Graphql, in_owner inp ++ "/"%char :: in_repository inp) :: l
    /\ Forall (fun ev => fst ev <> Graphql) l.
Proof.
  set (P := fun ev : event => fst ev <> Graphql).
  assert (HP : forall ev, fst ev <> Graphql -> P ev) by done.
  unfold run, run_body.
  match goal with
  | |- context [bind (getRepoStats ?o ?r) ?K] => set (rest := K)
  end.
  unfold bind, getRepoStats at 1, request.
  destruct (w_fault w Graphql) as [status|].
  - cbn [snd]. exists []. unfold sent. cbn [w_log with_log].
    by rewrite drop_app_length.
  - set (w1 := with_log _ w). set (stats := Build_repo_stats _ _ _).
    assert (Hrest : emits P (rest stats)).
    { unfold rest.
      apply emits_bind; [by apply emits_ensureBranchExists|]. intros _.
      apply emits_bind; [by apply emits_getInsightsFile|]. intros [file count].
      apply emits_bind; [by apply emits_backfill|]. intros file'.
      apply emits_bind; [by apply emits_silent|]. intros d.
      apply emits_bind.
      { apply emits_promise_all; [by apply emits_traffic|by apply emits_clones]. }
      intros [t c].
      apply emits_bind; [by apply emits_silent|]. intros _.
      apply emits_bind; [apply emits_lift|]. intros content.
      by apply emits_commitFileToBranch. }
    destruct (Hrest w1) as (l & Hl & HPl). exists l. split; [|done].
    assert (Hw : w_log (snd (match rest stats w1 with
                             | (Return _, w') => (Succeeded, w')
                             | (Throw error, w') => (Failed error, w')
                             | (Diverge, w') => (Hangs, w')
                             end)) = w_log (snd (rest stats w1))).
    { by destruct (rest stats w1) as [[| |] ?]. }
    unfold sent. rewrite Hw, Hl. unfold w1. cbn [w_log with_log].
    rewrite <- app_assoc. by rewrite drop_app_length.
Qed.

End LogFacts.

(** ** The dates of the clock *)

Module ClockFacts.
Import DatasetFacts.

Lemma digit_char_digit k : is_digit (digit_char k) = true.
Proof.
  unfold digit_char. pose proof (Z.mod_pos_bound k 10 ltac:(lia)) as H.
  assert (Hc : k mod 10 = 0 \/ k mod 10 = 1 \/ k mod 10 = 2 \/ k mod 10 = 3
               \/ k mod 10 = 4 \/ k mod 10 = 5 \/ k mod 10 = 6 \/ k mod 10 = 7
               \/ k mod 10 = 8 \/ k mod 10 = 9) by lia.
  destruct Hc as [->|[->|[->|[->|[->|[->|[->|[->|[->| ->]]]]]]]]]; reflexivity.
Qed.

(** From 0000-03-01 to the end of February 9600 the year has four
    digits. *)
Lemma civil_year_range n :
  -719468 <= n < 2786860 -> 0 <= fst (fst (civil_from_days n)) <= 9999.
Proof.
  intros Hn. unfold civil_from_days. cbv zeta. cbn [fst].
  set (z := n + 719468).
  set (era := z / 146097). set (doe := z mod 146097).
  assert (Hdoe : 0 <= doe < 146097) by (apply Z.mod_pos_bound; lia).
  assert (Hera : 0 <= era <= 23).
  { unfold era. split.
    - apply Z.div_pos; lia.
    - apply Z.lt_succ_r. apply Z.div_lt_upper_bound; lia. }
  set (yoe := (doe - doe / 1460 + doe / 36524 - doe / 146096) / 365).
  assert (Hyoe : 0 <= yoe <= 399).
  { unfold yoe. clearbody doe. clear -Hdoe.
    Z.div_mod_to_equations. lia. }
  clearbody yoe era.
  match goal with |- context [if ?c then _ else _] => destruct c end; lia.
Qed.

(** In that range the clock prints ISO dates of the form YYYY-MM-DD. *)
Lemma isoDate_iso n : -719468 <= n < 2786860 -> iso_date (isoDate n) = true.
Proof.
  intros Hn. pose proof (civil_year_range n Hn) as Hy.
  unfold isoDate. destruct (civil_from_days n) as [[y m] d]. cbn [fst] in Hy.
  replace ((0 <=? y) && (y <=? 9999)) with true
    by (symmetry; apply andb_true_iff; lia).
  unfold pad4, pad2, iso_date. cbn [app].
  rewrite !digit_char_digit. reflexivity.
Qed.

Example isoDate_samples :
  map isoDate [0; 19723; 19782; -1; 2932896; 2932897]
  = [lit "1970-01-01"; lit "2024-01-01"; lit "2024-02-29"; lit "1969-12-31";
     lit "9999-12-31"; lit "+010000-01-01"].
Proof. by vm_compute. Qed.

End ClockFacts.

(** ** The totals of backfilled records *)

Module TotalsClaims.
Import StrFacts JsonFacts DatasetFacts GenerateFacts UpsertClaims StorageClaims
  BackfillClaims LogFacts ClockFacts Samples.

Lemma backfill_dates_ok fmt stats D w :
  0 <= w_today w < 2786860 -> dates_ok fmt D ->
  dates_ok fmt (map (backfillEntry w stats) backfillOffsets ++ D).
Proof.
  intros Htoday HD Hf. apply Forall_app. split; [|by apply HD].
  apply Forall_map, Forall_forall. intros i Hi. cbn [backfillEntry date].
  apply isoDate_iso.
  assert (2 <= i <= 14); [|lia].
  unfold backfillOffsets in Hi.
  repeat (apply elem_of_cons in Hi as [->|Hi]; [lia|]). by apply elem_of_nil in Hi.
Qed.

(** C10: backfilled records reuse the totals of the start of the run. A
    run sends the stats query once, as its first request. When the query
    is answered, the metrics source is up, the clock shows a day between
    1970 and 9600, and the backfill runs on a loaded file that stores [D]
    (count below 14), the backfill returns a file that stores a dataset in
    which, for each of the 13 offsets 14 down to 2, the record of that day
    carries the stargazers, commits and contributors that the one stats
    query returned, and the views and clones found for that day; during the
    backfill the only requests sent are the views and clones requests of
    these days. *)
Theorem backfilled_records_reuse_totals fuel inp k text D w :
  let fmt := effective_format inp in
  let days := [14; 13; 12; 11; 10; 9; 8; 7; 6; 5; 4; 3; 2] in
  (13 <= fuel)%nat -> supported fmt ->
  w_fault w Graphql = None -> metrics_up w -> 0 <= w_today w < 2786860 ->
  k < 14 -> represents fmt text D -> dates_ok fmt D ->
  (exists rest,
      sent w (snd (run fuel inp w))
      = (Graphql, in_owner inp ++ "/"%char :: in_repository inp) :: rest
      /\ Forall (fun ev => fst ev <> Graphql) rest)
  /\ exists stats w1 w2 text' D',
       getRepoStats (in_owner inp) (in_repository inp) w = (Return stats, w1)
       /\ backfill fuel stats fmt (Some k) (Some text) w1 = (Return (Some text'), w2)
       /\ sent w1 w2 = flat_map (day_requests w) days
       /\ represents fmt text' D'
       /\ forall i, i ∈ days ->
            exists r, r ∈ D'
              /\ date r = isoDate (w_today w - i)
              /\ stargazers r = resp_stargazerCount (w_stats w)
              /\ commits r = resp_totalCount (w_stats w)
              /\ contributors r = contributors_of (resp_nodes (w_stats w))
              /\ traffic_views r = count (find_day (w_views w) (date r))
              /\ traffic_uniques r = uniques (find_day (w_views w) (date r))
              /\ clones_count r = count (find_day (w_clones w) (date r))
              /\ clones_uniques r = uniques (find_day (w_clones w) (date r)).
Proof.
  intros fmt days Hfuel Hfmt Hstats Hup Htoday Hk Hrep HD.
  split; [apply run_queries_stats_once|].
  set (stats := run_start_stats w).
  set (w1 := with_log (w_log w ++ [(Graphql, in_owner inp ++ "/"%char :: in_repository inp)]) w).
  pose proof (backfill_dates_ok fmt stats D w Htoday HD) as Hok.
  destruct (upsert_files_refines fmt (map (backfillEntry w stats) days) text D Hfmt Hrep Hok)
    as (text' & Hrun & Hrep').
  assert (Hup1 : metrics_up w1) by exact Hup.
  destruct (backfillDays_up stats fmt backfillOffsets (Some text) w1 Hup1) as [Hfst Hsnd].
  change (map (backfillEntry w1 stats) backfillOffsets)
    with (map (backfillEntry w stats) days) in Hfst.
  rewrite Hrun in Hfst. specialize (Hsnd _ Hfst).
  exists stats, w1, (snd (backfillDays stats fmt backfillOffsets (Some text) w1)),
    text', (fold_left spec_upsert (map (backfillEntry w stats) days) D).
  split; [by apply getRepoStats_up|].
  split.
  { rewrite backfill_unfold by done. apply Z.ltb_lt in Hk. rewrite Hk.
    destruct (backfillDays stats fmt backfillOffsets (Some text) w1) as [r w2].
    cbn [fst snd] in *. by rewrite Hfst. }
  split; [rewrite Hsnd; apply sent_app|].
  split; [done|].
  intros i Hi. exists (backfillEntry w stats i).
  split; [|by repeat split].
  apply fold_spec_upsert_In.
  - intros R1 R2 H1 H2 Hd.
    apply list_elem_of_fmap in H1 as (i1 & -> & _).
    apply list_elem_of_fmap in H2 as (i2 & -> & _).
    by apply backfillEntry_same_date.
  - apply list_elem_of_fmap. by exists i.
Qed.

Lemma backfilled_records_reuse_totals_witness :
  let inp := sample_inputs (lit "csv") in
  let w := fresh_world in
  let fmt := effective_format inp in
  let days := [14; 13; 12; 11; 10; 9; 8; 7; 6; 5; 4; 3; 2] in
  (exists rest,
      sent w (snd (run 13 inp w))
      = (Graphql, in_owner inp ++ "/"%char :: in_repository inp) :: rest
      /\ Forall (fun ev => fst ev <> Graphql) rest)
  /\ exists stats w1 w2 text' D',
       getRepoStats (in_owner inp) (in_repository inp) w = (Return stats, w1)
       /\ backfill 13 stats fmt (Some 0) (Some (csvHeader ++ [NL])) w1
          = (Return (Some text'), w2)
       /\ sent w1 w2 = flat_map (day_requests w) days
       /\ represents fmt text' D'
       /\ forall i, i ∈ days ->
            exists r, r ∈ D'
              /\ date r = isoDate (w_today w - i)
              /\ stargazers r = resp_stargazerCount (w_stats w)
              /\ commits r = resp_totalCount (w_stats w)
              /\ contributors r = contributors_of (resp_nodes (w_stats w))
              /\ traffic_views r = count (find_day (w_views w) (date r))
              /\ traffic_uniques r = uniques (find_day (w_views w) (date r))
              /\ clones_count r = count (find_day (w_clones w) (date r))
              /\ clones_uniques r = uniques (find_day (w_clones w) (date r)).
Proof.
  apply (backfilled_records_reuse_totals 13 (sample_inputs (lit "csv")) 0
           (csvHeader ++ [NL]) [] fresh_world).
  - lia.
  - right. reflexivity.
  - reflexivity.
  - split; reflexivity.
  - simpl. lia.
  - lia.
  - vm_compute. reflexivity.
  - intros _. constructor.
Defined.

End TotalsClaims.

(** ** The scenarios of the specification, and a run after a failed load *)

Module Scenarios.
Import Samples.

(** A file with the record of 2024-01-01 and a new record for 2024-01-02:
    two records, in this order. *)
Example json_append :
  upsert_file (lit "json") (Some (encode_json [day1])) day2
  = Return (Some (encode_json [day1; day2])).
Proof. by vm_compute. Qed.

(** The same file and a new record for 2024-01-01: one record, the new
    one, at index 0. *)
Example json_replace :
  upsert_file (lit "json") (Some (encode_json [day1])) day1_again
  = Return (Some (encode_json [day1_again])).
Proof. by vm_compute. Qed.

(** The csv branch looks for a line that starts with the date: a key that
    is not a full ISO date can match the row of another key. This is why
    the csv statements above are about ISO dates. *)
Example csv_matches_by_prefix :
  upsert_file (lit "csv") (Some (encode_csv [day1; day2])) year_only
  = Return (Some (encode_csv [year_only; day2])).
Proof. by vm_compute. Qed.

(** A csv file with the header only: the run backfills 13 rows and appends
    the row of the day before, 14 rows in all. *)
Example csv_first_run :
  fst (run 13 (sample_inputs (lit "csv")) fresh_world) = Succeeded
  /\ stats_file_after (lit "csv") (run 13 (sample_inputs (lit "csv")) fresh_world)
     = Some (encode_csv (written_records fresh_world))
  /\ length (written_records fresh_world) = 14%nat.
Proof. by vm_compute. Qed.

(** A run on a stored history of one record keeps that record. *)
Example history_kept :
  fst (run 13 (sample_inputs (lit "json")) world_with_history) = Succeeded
  /\ stats_file_after (lit "json") (run 13 (sample_inputs (lit "json")) world_with_history)
     = Some (encode_json (old_day :: written_records world_with_history)).
Proof. by vm_compute. Qed.

(** The same run with the content request refused (status 403): the load
    answers with the empty file, and the run commits a file without the
    stored record. *)
Example history_lost_on_refused_load :
  let w := with_fault GetContent 403 world_with_history in
  fst (run 13 (sample_inputs (lit "json")) w) = Succeeded
  /\ stats_file_after (lit "json") (run 13 (sample_inputs (lit "json")) w)
     = Some (encode_json (written_records w)).
Proof. by vm_compute. Qed.

End Scenarios.

(** * Further properties of the code *)

(** ** [JSON.parse] builds canonical values *)

Module ParseFacts.
Import JsonFacts.







End ParseFacts.

(** ** [generateFileContent] on files of any content *)

Module GenerateExtras.
Import StrFacts JsonFacts DatasetFacts GenerateFacts ParseFacts Samples.




Lemma set_or_push_nonempty {A} idx (x : A) l :
  (forall k, idx = Some k -> (k < length l)%nat) -> set_or_push idx x l <> [].
Proof.
  intros Hidx. destruct idx as [k|]; cbn.
  - specialize (Hidx k eq_refl). destruct l; [cbn in Hidx; lia|by destruct k].
  - by destruct l.
Qed.

Lemma set_or_push_Forall {A} (P : A -> Prop) idx x l :
  P x -> Forall P l -> Forall P (set_or_push idx x l).
Proof.
  intros Hx Hl. destruct idx as [k|]; cbn.
  - by apply Forall_insert.
  - apply Forall_app. split; [done|by constructor].
Qed.

Lemma set_or_push_other {A} idx (x : A) l j :
  (j < length l)%nat -> idx <> Some j -> set_or_push idx x l !! j = l !! j.
Proof.
  intros Hj Hne. destruct idx as [k|]; cbn.
  - apply list_lookup_insert_ne. congruence.
  - by apply lookup_app_l.
Qed.


(** The lines the csv branch writes: the non-blank lines of the file it
    was given, with the line of the record put in or appended. *)
Lemma csv_upsert_lines text R :
  NL ∉ date R ->
  csv_lines (join [NL] (set_or_push
                          (findIndex (fun line => startsWith line (date R)) (csv_lines text))
                          (csvLine R) (csv_lines text)))
  = set_or_push (findIndex (fun line => startsWith line (date R)) (csv_lines text))
                (csvLine R) (csv_lines text).
Proof.
  intros HR. apply csv_lines_join.
  - apply set_or_push_nonempty. intros k Hk. by eapply findIndex_lt.
  - apply set_or_push_Forall; [by apply csvLine_no_NL|apply csv_lines_no_NL].
  - apply set_or_push_Forall; [apply csvLine_nonblank|apply csv_lines_nonblank].
Qed.







(** X18: the csv branch of [generateFileContent] never fails and keeps
    the lines it does not replace. On a file of any content and a record
    whose date holds no line break, the call returns a text whose
    non-blank lines are those of the file, except that the line of the
    record is at the index of the first line that starts with the date,
    when there is one, and at the end otherwise; every other line is the
    line it was, blank lines are dropped, and the number of lines grows by
    one when no line started with the date and not at all otherwise. *)
Theorem csv_upsert_keeps_other_lines text R idx :
  NL ∉ date R ->
  findIndex (fun line => startsWith line (date R)) (csv_lines text) = idx ->
  exists text',
    upsert_file (lit "csv") (Some text) R = Return (Some text')
    /\ (forall j, (j < length (csv_lines text))%nat -> idx <> Some j ->
          csv_lines text' !! j = csv_lines text !! j)
    /\ match idx with
       | Some k => csv_lines text' !! k = Some (csvLine R)
                   /\ length (csv_lines text') = length (csv_lines text)
       | None => csv_lines text' !! length (csv_lines text) = Some (csvLine R)
                 /\ length (csv_lines text') = S (length (csv_lines text))
       end.
Proof.
  intros HR Hidx. eexists. split.
  { rewrite upsert_file_csv. unfold generateFileContent_csv. cbn zeta. reflexivity. }
  rewrite csv_upsert_lines by done. rewrite Hidx. split.
  - intros j Hj Hne. by apply set_or_push_other.
  - destruct idx as [k|]; cbn [set_or_push].
    + apply findIndex_lt in Hidx.
      split; [by apply list_lookup_insert_eq|by rewrite length_insert].
    + split.
      * rewrite lookup_app_r by done. by rewrite Nat.sub_diag.
      * rewrite length_app. cbn. lia.
Qed.

Lemma csv_upsert_keeps_other_lines_witness :
  exists text',
    upsert_file (lit "csv")
      (Some (lit "some note" ++ [NL] ++ [NL] ++ lit "2024-01-01,old")) day1
    = Return (Some text')
    /\ (forall j, (j < 2)%nat -> Some 1%nat <> Some j ->
          csv_lines text' !! j = [lit "some note"; lit "2024-01-01,old"] !! j)
    /\ csv_lines text' !! 1%nat = Some (csvLine day1)
    /\ length (csv_lines text') = 2%nat.
Proof.
  apply (csv_upsert_keeps_other_lines
           (lit "some note" ++ [NL] ++ [NL] ++ lit "2024-01-01,old") day1 (Some 1%nat)).
  - vm_compute. intros H. by repeat (apply elem_of_cons in H as [H|H]; [done|]);
      apply elem_of_nil in H.
  - vm_compute. reflexivity.
Defined.

End GenerateExtras.

(** ** [getInsightsFile] on a stored file *)

Module LoadExtras.
Import StrFacts JsonFacts DatasetFacts GenerateFacts ParseFacts UpsertClaims
  StorageClaims GenerateExtras Samples MoreSamples.

Lemma getContent_hit w path ref text :
  w_fault w GetContent = None -> file_at (w_repo w) path ref = Some text ->
  getContent path ref w = (Return text, with_log (w_log w ++ [(GetContent, path)]) w).
Proof.
  intros Hup Hfile. unfold getContent, request. rewrite Hup.
  cbn [w_repo with_log]. by rewrite Hfile.
Qed.

Lemma getContent_miss w path ref :
  w_fault w GetContent = None -> file_at (w_repo w) path ref = None ->
  getContent path ref w
  = (Throw (HttpError 404), with_log (w_log w ++ [(GetContent, path)]) w).
Proof.
  intros Hup Hfile. unfold getContent, request. rewrite Hup.
  cbn [w_repo with_log]. by rewrite Hfile.
Qed.

Lemma getContent_log w path ref :
  snd (getContent path ref w) = with_log (w_log w ++ [(GetContent, path)]) w.
Proof.
  unfold getContent, request. destruct (w_fault w GetContent); [done|].
  cbn [w_repo with_log]. by destruct (file_at _ _ _).
Qed.

(** The lines the csv branch of the load joins are the lines of the text
    it returns, when there is a line at all. *)
Lemma csv_lines_normal text :
  csv_lines text <> [] -> csv_lines (join [NL] (csv_lines text)) = csv_lines text.
Proof.
  intros Hne. apply csv_lines_join; [done|apply csv_lines_no_NL|apply csv_lines_nonblank].
Qed.

Lemma load_stored w owner repo branch rootDir fmt text D :
  supported fmt -> w_fault w GetContent = None ->
  file_at (w_repo w) (statsPath rootDir owner repo fmt) branch = Some text ->
  represents fmt text D ->
  exists text',
    getInsightsFile owner repo branch rootDir fmt w
    = (Return (Some text', Some (Z.of_nat (length D))),
       with_log (w_log w ++ [(GetContent, statsPath rootDir owner repo fmt)]) w)
    /\ represents fmt text' D.
Proof.
  intros Hfmt Hup Hfile Hrep. unfold getInsightsFile, try_catch, bind.
  rewrite (getContent_hit w _ _ text) by done.
  destruct Hfmt as [-> | ->].
  - pose proof (proj1 (represents_json _ _) Hrep) as Hparse. rewrite decide_True by done.
    rewrite Hparse. cbn [js_length]. rewrite length_map. by exists text.
  - pose proof (proj1 (represents_csv _ _) Hrep) as Hlines.
    rewrite decide_False by apply csv_ne_json. rewrite decide_True by done.
    cbn zeta. unfold ret. eexists. split.
    + rewrite Hlines at 2. cbn [length]. rewrite length_map.
      replace (Z.of_nat (S (length D)) - 1) with (Z.of_nat (length D)) by lia.
      reflexivity.
    + apply represents_csv. rewrite csv_lines_normal by by rewrite Hlines. done.
Qed.

(** X3: the load returns the stored dataset, and the upsert that follows
    works on it. With the content endpoint up and, at the stats path on
    the branch, a file that stores the dataset [D] in a supported format,
    [getInsightsFile] returns a text that stores [D] and the count
    [length D]; it sends the one content request and changes nothing else;
    and [generateFileContent] on the text returned, with a record [R],
    writes the dataset [D] with [R] upserted (csv: for ISO dates). *)
Theorem load_returns_stored_dataset w owner repo branch rootDir fmt text D R :
  supported fmt -> w_fault w GetContent = None ->
  file_at (w_repo w) (statsPath rootDir owner repo fmt) branch = Some text ->
  represents fmt text D -> dates_ok fmt (R :: D) ->
  exists text',
    getInsightsFile owner repo branch rootDir fmt w
    = (Return (Some text', Some (Z.of_nat (length D))),
       with_log (w_log w ++ [(GetContent, statsPath rootDir owner repo fmt)]) w)
    /\ represents fmt text' D
    /\ upsert_file fmt (Some text') R = Return (Some (encode fmt (spec_upsert D R))).
Proof.
  intros Hfmt Hup Hfile Hrep Hdates.
  destruct (load_stored w owner repo branch rootDir fmt text D Hfmt Hup Hfile Hrep)
    as (text' & Hload & Hrep').
  exists text'. split; [exact Hload|]. split; [exact Hrep'|].
  by apply upsert_file_refines.
Qed.

Lemma load_returns_stored_dataset_witness :
  exists text',
    getInsightsFile (lit "o") (lit "r") (lit "repository-insights") (lit ".insights")
                    (lit "json") world_with_history
    = (Return (Some text', Some (Z.of_nat (length [old_day]))),
       with_log (w_log world_with_history
                 ++ [(GetContent, statsPath (lit ".insights") (lit "o") (lit "r") (lit "json"))])
                world_with_history)
    /\ represents (lit "json") text' [old_day]
    /\ upsert_file (lit "json") (Some text') day1
       = Return (Some (encode (lit "json") (spec_upsert [old_day] day1))).
Proof.
  apply (load_returns_stored_dataset world_with_history (lit "o") (lit "r")
           (lit "repository-insights") (lit ".insights") (lit "json")
           (encode_json [old_day]) [old_day] day1).
  - left. reflexivity.
  - reflexivity.
  - vm_compute. reflexivity.
  - vm_compute. reflexivity.
  - intros Hcsv. vm_compute in Hcsv. discriminate.
Defined.

(** X4: in a supported format the load never throws and never writes.
    Whatever the world (the file present, absent or unreadable, the
    endpoint up or failing with any status), [getInsightsFile] returns a
    file text and a count, having sent exactly the one content request and
    changed nothing else. *)
Theorem load_always_returns w owner repo branch rootDir fmt :
  supported fmt ->
  exists text count,
    getInsightsFile owner repo branch rootDir fmt w
    = (Return (Some text, count),
       with_log (w_log w ++ [(GetContent, statsPath rootDir owner repo fmt)]) w).
Proof.
  intros Hfmt. unfold getInsightsFile, try_catch, bind.
  pose proof (getContent_log w (statsPath rootDir owner repo fmt) branch) as Hlog.
  assert (Hterm : fst (getContent (statsPath rootDir owner repo fmt) branch w) <> Diverge).
  { unfold getContent, request. destruct (w_fault w GetContent); [done|].
    cbn [w_repo with_log]. by destruct (file_at _ _ _). }
  destruct (getContent _ branch w) as [[text|e|] w1]; cbn [fst snd] in *; subst w1;
    [| |done].
  - destruct Hfmt as [-> | ->].
    + rewrite decide_True by done.
      destruct (JSON_parse text) as [v|].
      * destruct (js_length v) as [e|count]; unfold throw, ret.
        -- rewrite emptyFile_supported by by left. by eexists _, _.
        -- by eexists _, _.
      * unfold throw. rewrite emptyFile_supported by by left. by eexists _, _.
    + rewrite decide_False by apply csv_ne_json. rewrite decide_True by done.
      by eexists _, _.
  - rewrite emptyFile_supported by done. by eexists _, _.
Qed.

Lemma load_always_returns_witness :
  exists text count,
    getInsightsFile (lit "o") (lit "r") (lit "repository-insights") (lit ".insights")
                    (lit "csv") (with_fault GetContent 500 fresh_world)
    = (Return (Some text, count),
       with_log (w_log (with_fault GetContent 500 fresh_world)
                 ++ [(GetContent, statsPath (lit ".insights") (lit "o") (lit "r") (lit "csv"))])
                (with_fault GetContent 500 fresh_world)).
Proof.
  apply (load_always_returns (with_fault GetContent 500 fresh_world)).
  right. reflexivity.
Defined.

(** X5: a stored csv file without a non-blank line is not the empty file
    of a first run. With such a file at the stats path, the load returns
    the empty text and the count -1 (no line, minus the header line), and
    the upsert that follows writes the line of the record alone: the file
    the run goes on with has no header line. *)
Theorem csv_blank_file_loses_header w owner repo branch rootDir text R :
  w_fault w GetContent = None ->
  file_at (w_repo w) (statsPath rootDir owner repo (lit "csv")) branch = Some text ->
  csv_lines text = [] ->
  getInsightsFile owner repo branch rootDir (lit "csv") w
  = (Return (Some [], Some (-1)),
     with_log (w_log w ++ [(GetContent, statsPath rootDir owner repo (lit "csv"))]) w)
  /\ less_than_14 (Some (-1)) = true
  /\ upsert_file (lit "csv") (Some []) R = Return (Some (csvLine R)).
Proof.
  intros Hup Hfile Hlines. split; [|split; [done|]].
  - unfold getInsightsFile, try_catch, bind.
    rewrite (getContent_hit w _ _ text) by done.
    rewrite decide_False by apply csv_ne_json. rewrite decide_True by done.
    cbn zeta. by rewrite Hlines.
  - rewrite upsert_file_csv. unfold generateFileContent_csv. cbn zeta.
    change (csv_lines []) with (@nil str). rewrite findIndex_nil.
    cbn [set_or_push app]. reflexivity.
Qed.

Lemma csv_blank_file_loses_header_witness :
  let w := world_with_csv (lit "  " ++ [NL]) in
  getInsightsFile (lit "o") (lit "r") (lit "repository-insights") (lit ".insights")
                  (lit "csv") w
  = (Return (Some [], Some (-1)),
     with_log (w_log w ++ [(GetContent, statsPath (lit ".insights") (lit "o") (lit "r")
                                          (lit "csv"))]) w)
  /\ less_than_14 (Some (-1)) = true
  /\ upsert_file (lit "csv") (Some []) day1 = Return (Some (csvLine day1)).
Proof.
  apply (csv_blank_file_loses_header (world_with_csv (lit "  " ++ [NL])) (lit "o") (lit "r")
           (lit "repository-insights") (lit ".insights") (lit "  " ++ [NL]) day1).
  - reflexivity.
  - vm_compute. reflexivity.
  - vm_compute. reflexivity.
Defined.

End LoadExtras.

(** ** The metrics: [getYesterdayTraffic], [getYesterdayClones], [getRepoStats] *)

Module MetricsExtras.
Import StrFacts Samples.

Lemma day_of_timestamp d rest : "T"%char ∉ d -> day_of (d ++ "T"%char :: rest) = d.
Proof. intros Hd. unfold day_of. by rewrite split_app_sep. Qed.

Lemma day_of_plain d : "T"%char ∉ d -> day_of d = d.
Proof. intros Hd. unfold day_of. by rewrite split_no_sep. Qed.

Lemma find_day_none days d :
  Forall (fun x => day_of (timestamp x) <> d) days ->
  find_day days d = {| count := 0; uniques := 0 |}.
Proof.
  intros Hall. unfold find_day.
  induction Hall as [|x days Hx _ IH]; [done|].
  cbn [find]. by rewrite bool_decide_eq_false_2.
Qed.

Lemma find_day_first before x after d :
  Forall (fun y => day_of (timestamp y) <> d) before ->
  day_of (timestamp x) = d ->
  find_day (before ++ x :: after) d = {| count := day_total x; uniques := day_uniques x |}.
Proof.
  intros Hall Hx. unfold find_day.
  induction Hall as [|y before Hy _ IH]; cbn [app find].
  - by rewrite bool_decide_eq_true_2.
  - by rewrite bool_decide_eq_false_2.
Qed.

(** X6: the counts of a day are those of the first element of the answer
    whose timestamp starts with the date, and zero when there is none.
    With the views endpoint up and a date [d] without the letter T:
    [getYesterdayTraffic] returns the count and the uniques of the element
    with timestamp [d], T and a time of day, when no element before it is
    of that day, whatever follows it; it returns zero for both when no
    element is of that day. It changes nothing but the request log. The
    same holds of [getYesterdayClones] on the clones. *)
Theorem day_counts_of_first_match w d before time c u after :
  "T"%char ∉ d ->
  Forall (fun y => day_of (timestamp y) <> d) before ->
  let x := {| timestamp := d ++ "T"%char :: time; day_total := c; day_uniques := u |} in
  (w_fault w GetViews = None ->
     (w_views w = before ++ x :: after ->
        getYesterdayTraffic d w
        = (Return {| count := c; uniques := u |},
           with_log (w_log w ++ [(GetViews, d)]) w))
     /\ (w_views w = before ->
           getYesterdayTraffic d w
           = (Return {| count := 0; uniques := 0 |},
              with_log (w_log w ++ [(GetViews, d)]) w)))
  /\ (w_fault w GetClones = None ->
        (w_clones w = before ++ x :: after ->
           getYesterdayClones d w
           = (Return {| count := c; uniques := u |},
              with_log (w_log w ++ [(GetClones, d)]) w))
        /\ (w_clones w = before ->
              getYesterdayClones d w
              = (Return {| count := 0; uniques := 0 |},
                 with_log (w_log w ++ [(GetClones, d)]) w))).
Proof.
  intros Hd Hbefore x.
  assert (Hx : day_of (timestamp x) = d) by by apply day_of_timestamp.
  split; intros Hup; (split; intros Hdays);
    unfold getYesterdayTraffic, getYesterdayClones, request; rewrite Hup;
    cbn [w_views w_clones with_log]; rewrite Hdays.
  - by rewrite (find_day_first before x after d).
  - by rewrite find_day_none.
  - by rewrite (find_day_first before x after d).
  - by rewrite find_day_none.
Qed.

Lemma day_counts_of_first_match_witness :
  getYesterdayTraffic (lit "2024-01-10") fresh_world
  = (Return {| count := 7; uniques := 3 |},
     with_log (w_log fresh_world ++ [(GetViews, lit "2024-01-10")]) fresh_world)
  /\ getYesterdayClones (lit "2024-01-10") fresh_world
     = (Return {| count := 0; uniques := 0 |},
        with_log (w_log fresh_world ++ [(GetClones, lit "2024-01-10")]) fresh_world).
Proof.
  assert (HT : "T"%char ∉ lit "2024-01-10").
  { vm_compute. intros H.
    by repeat (apply elem_of_cons in H as [H|H]; [done|]); apply elem_of_nil in H. }
  destruct (day_counts_of_first_match fresh_world (lit "2024-01-10") [] (lit "00:00:00Z")
              7 3 [] HT (Forall_nil_2 _)) as [Hviews Hclones].
  split.
  - apply (proj1 (Hviews eq_refl)). reflexivity.
  - apply (proj2 (Hclones eq_refl)). reflexivity.
Defined.

Lemma contributors_of_cons_None nodes :
  contributors_of (None :: nodes) = contributors_of nodes.
Proof. reflexivity. Qed.

Lemma contributors_of_cons_seen login nodes :
  Some login ∈ nodes ->
  contributors_of (Some login :: nodes) = contributors_of nodes.
Proof.
  intros Hin. unfold contributors_of.
  change (omap id (Some login :: nodes)) with (login :: omap id nodes).
  rewrite list_to_set_cons.
  assert (Hseen : login ∈ (list_to_set (omap id nodes) : gset str)).
  { apply elem_of_list_to_set, list_elem_of_omap. by exists (Some login). }
  f_equal. f_equal. by apply subseteq_union_1_L, singleton_subseteq_l.
Qed.

Lemma contributors_of_cons_new login nodes :
  Some login ∉ nodes ->
  contributors_of (Some login :: nodes) = contributors_of nodes + 1.
Proof.
  intros Hnew. unfold contributors_of.
  change (omap id (Some login :: nodes)) with (login :: omap id nodes).
  rewrite list_to_set_cons.
  assert (Hfresh : login ∉ (list_to_set (omap id nodes) : gset str)).
  { rewrite elem_of_list_to_set, list_elem_of_omap. intros ([l|] & Hin & Hl); [|done].
    cbn in Hl. by simplify_eq. }
  rewrite size_union by by apply disjoint_singleton_l. rewrite size_singleton. lia.
Qed.

Lemma contributors_of_bounds nodes :
  0 <= contributors_of nodes <= Z.of_nat (length nodes).
Proof.
  induction nodes as [|[login|] nodes IH].
  - done.
  - destruct (decide (Some login ∈ nodes)).
    + rewrite contributors_of_cons_seen by done. cbn [length]. lia.
    + rewrite contributors_of_cons_new by done. cbn [length]. lia.
  - rewrite contributors_of_cons_None. cbn [length]. lia.
Qed.

(** X7: the contributors count is the number of distinct logins among the
    commits of the history page. A commit whose author has no user does not
    count; a login seen on another commit of the page does not count again;
    a new login counts once; the count is between zero and the number of
    commits. [getRepoStats] returns this count with the two totals of the
    answer. *)
Theorem contributors_are_distinct_logins w owner repo nodes :
  w_fault w Graphql = None ->
  resp_nodes (w_stats w) = nodes ->
  (exists w', getRepoStats owner repo w
              = (Return {| stargazerCount := resp_stargazerCount (w_stats w);
                           commitCount := resp_totalCount (w_stats w);
                           contributorsCount := contributors_of nodes |}, w'))
  /\ 0 <= contributors_of nodes <= Z.of_nat (length nodes)
  /\ contributors_of (None :: nodes) = contributors_of nodes
  /\ forall login,
       contributors_of (Some login :: nodes)
       = if decide (Some login ∈ nodes) then contributors_of nodes
         else contributors_of nodes + 1.
Proof.
  intros Hup <-. split; [|split; [apply contributors_of_bounds|split; [done|]]].
  - unfold getRepoStats, request. rewrite Hup. by eexists.
  - intros login. case_decide.
    + by apply contributors_of_cons_seen.
    + by apply contributors_of_cons_new.
Qed.

Lemma contributors_are_distinct_logins_witness :
  (exists w', getRepoStats (lit "o") (lit "r") fresh_world
              = (Return {| stargazerCount := 10; commitCount := 50;
                           contributorsCount :=
                             contributors_of [Some (lit "ann"); None; Some (lit "bob");
                                              Some (lit "ann")] |}, w'))
  /\ 0 <= contributors_of [Some (lit "ann"); None; Some (lit "bob"); Some (lit "ann")] <= 4
  /\ contributors_of [Some (lit "ann"); None; Some (lit "bob"); Some (lit "ann")] = 2.
Proof.
  destruct (contributors_are_distinct_logins fresh_world (lit "o") (lit "r")
              [Some (lit "ann"); None; Some (lit "bob"); Some (lit "ann")]
              eq_refl eq_refl) as (Hrun & Hbounds & _ & _).
  split; [exact Hrun|]. split; [exact Hbounds|]. vm_compute. reflexivity.
Defined.

End MetricsExtras.

(** ** The object store under the git requests *)

Module StoreFacts.
Import StrFacts StorageClaims Samples MoreSamples.

Lemma heads_name_inj b b' : lit "refs/heads/" ++ b = lit "refs/heads/" ++ b' -> b = b'.
Proof. apply app_inv_head. Qed.

Lemma same_env_refl w : same_env w w.
Proof. by repeat split. Qed.

Lemma same_env_trans w1 w2 w3 : same_env w1 w2 -> same_env w2 w3 -> same_env w1 w3.
Proof.
  intros (?&?&?&?&?) (?&?&?&?&?). repeat split; congruence.
Qed.

Lemma agree_below_refl n r : agree_below n r r.
Proof. by intros k _. Qed.

Lemma agree_below_trans n n' r1 r2 r3 :
  (n <= n')%N -> agree_below n r1 r2 -> agree_below n' r2 r3 -> agree_below n r1 r3.
Proof.
  intros Hle H12 H23 k Hk.
  destruct (H12 k Hk) as (?&?&?). destruct (H23 k ltac:(lia)) as (?&?&?).
  repeat split; congruence.
Qed.

Lemma frame_refl target w : frame target w w.
Proof.
  split; [apply same_env_refl|]. split; [lia|]. split; [apply agree_below_refl|done].
Qed.

Lemma frame_trans target w1 w2 w3 :
  frame target w1 w2 -> frame target w2 w3 -> frame target w1 w3.
Proof.
  intros (He1 & Hn1 & Ha1 & Hr1) (He2 & Hn2 & Ha2 & Hr2).
  split; [by eapply same_env_trans|]. split; [lia|].
  split; [by eapply agree_below_trans|].
  intros name Hne. by rewrite Hr2, Hr1.
Qed.

Lemma evolves_refl target w : evolves target w w.
Proof. split; [apply frame_refl|done]. Qed.

Lemma evolves_trans target w1 w2 w3 :
  evolves target w1 w2 -> evolves target w2 w3 -> evolves target w1 w3.
Proof.
  intros [Hf1 Ht1] [Hf2 Ht2]. split; [by eapply frame_trans|]. intros s Hs. auto.
Qed.

(** Below a bound that covers every name in use, a branch whose reference
    is unchanged has the files it had. *)
Lemma file_at_agree n r r' path branch :
  names_below n r -> agree_below n r r' ->
  refs r' !! (lit "refs/heads/" ++ branch) = refs r !! (lit "refs/heads/" ++ branch) ->
  file_at r' path branch = file_at r path branch.
Proof.
  intros (Hrefs & Hcommits & Htrees & Hblobs) Hagree Href.
  unfold file_at. rewrite Href.
  destruct (refs r !! _) as [c|] eqn:Hc; [|done].
  apply Hrefs in Hc as Hcn. cbn in Hcn.
  destruct (Hagree c Hcn) as (-> & _ & _).
  destruct (commit_objs r !! c) as [co|] eqn:Hco; [|done].
  apply Hcommits in Hco as [_ Htn].
  destruct (Hagree _ Htn) as (_ & -> & _).
  destruct (tree_objs r !! commit_tree co) as [t|] eqn:Ht; [|done].
  apply Htrees in Ht as [_ Hentries].
  destruct (t !! path) as [b|] eqn:Hb; [|done].
  apply Hentries in Hb. cbn in Hb.
  by destruct (Hagree b Hb) as (_ & _ & ->).
Qed.

Lemma head_of_agree n r r' branch :
  names_below n r -> agree_below n r r' ->
  refs r' !! (lit "refs/heads/" ++ branch) = refs r !! (lit "refs/heads/" ++ branch) ->
  head_of r' branch = head_of r branch.
Proof.
  intros (Hrefs & _) Hagree Href. unfold head_of. rewrite Href.
  destruct (refs r !! _) as [c|] eqn:Hc; [|done].
  apply Hrefs in Hc. cbn in Hc. by destruct (Hagree c Hc) as (-> & _ & _).
Qed.

(** *** The requests of a commit, one by one *)

Lemma getCommit_hit w c co :
  w_fault w GetCommit = None -> commit_objs (w_repo w) !! c = Some co ->
  getCommit c w = (Return (commit_tree co), with_log (w_log w ++ [(GetCommit, [])]) w).
Proof.
  intros Hup Hc. unfold getCommit, request. rewrite Hup.
  cbn [w_repo with_log]. by rewrite Hc.
Qed.

Lemma createBlob_up w content :
  w_fault w CreateBlob = None ->
  createBlob content w
  = (Return (w_next w),
     with_next (w_next w + 1)%N
       (with_repo {| refs := refs (w_repo w); commit_objs := commit_objs (w_repo w);
                     tree_objs := tree_objs (w_repo w);
                     blob_objs := <[w_next w := content]> (blob_objs (w_repo w)) |}
                  (with_log (w_log w ++ [(CreateBlob, [])]) w))).
Proof. intros Hup. unfold createBlob, request. by rewrite Hup. Qed.

Lemma createTree_hit w base_tree path blob base :
  w_fault w CreateTree = None -> tree_objs (w_repo w) !! base_tree = Some base ->
  createTree base_tree path blob w
  = (Return (w_next w),
     with_next (w_next w + 1)%N
       (with_repo {| refs := refs (w_repo w); commit_objs := commit_objs (w_repo w);
                     tree_objs := <[w_next w := <[path := blob]> base]> (tree_objs (w_repo w));
                     blob_objs := blob_objs (w_repo w) |}
                  (with_log (w_log w ++ [(CreateTree, path)]) w))).
Proof.
  intros Hup Hbase. unfold createTree, request. rewrite Hup.
  cbn [w_repo with_log]. by rewrite Hbase.
Qed.

Lemma createCommit_up w message tree parents :
  w_fault w CreateCommit = None ->
  createCommit message tree parents w
  = (Return (w_next w),
     with_next (w_next w + 1)%N
       (with_repo {| refs := refs (w_repo w);
                     commit_objs :=
                       <[w_next w := {| commit_tree := tree; commit_parents := parents;
                                        commit_message := message |}]>
                         (commit_objs (w_repo w));
                     tree_objs := tree_objs (w_repo w);
                     blob_objs := blob_objs (w_repo w) |}
                  (with_log (w_log w ++ [(CreateCommit, [])]) w))).
Proof. intros Hup. unfold createCommit, request. by rewrite Hup. Qed.

Lemma updateRef_hit w ref s old :
  w_fault w UpdateRef = None -> refs (w_repo w) !! (lit "refs/" ++ ref) = Some old ->
  updateRef ref s w
  = (Return tt,
     with_repo (set_refs (<[lit "refs/" ++ ref := s]> (refs (w_repo w))) (w_repo w))
               (with_log (w_log w ++ [(UpdateRef, ref)]) w)).
Proof.
  intros Hup Hold. unfold updateRef, request. rewrite Hup.
  cbn [w_repo with_log]. by rewrite Hold.
Qed.

Lemma commit_goes_through w owner repo branch rootDir content fmt c co base :
  w_fault w GetRef = None -> w_fault w GetCommit = None ->
  w_fault w CreateBlob = None -> w_fault w CreateTree = None ->
  w_fault w CreateCommit = None -> w_fault w UpdateRef = None ->
  refs (w_repo w) !! (lit "refs/heads/" ++ branch) = Some c ->
  commit_objs (w_repo w) !! c = Some co ->
  tree_objs (w_repo w) !! commit_tree co = Some base ->
  exists w',
    commitFileToBranch owner repo branch rootDir content fmt w = (Return tt, w')
    /\ w_repo w'
       = committed (w_repo w) (w_next w) (lit "refs/heads/" ++ branch)
                   (statsPath rootDir owner repo fmt) (default [] content)
                   (lit "Update stats file for " ++ owner ++ "/"%char :: repo) c base
    /\ w_next w' = (w_next w + 3)%N
    /\ w_log w' = w_log w ++ commit_requests branch (statsPath rootDir owner repo fmt)
    /\ w_outputs w' = w_outputs w
    /\ same_env w w'.
Proof.
  intros Hget Hcommit Hblob Htree Hcreate Hupdate Hc Hco Hbase.
  unfold commitFileToBranch, bind.
  rewrite (getRef_hit w _ c) by done.
  rewrite (getCommit_hit _ c co) by done.
  rewrite createBlob_up by done.
  rewrite (createTree_hit _ _ _ _ base) by done.
  rewrite createCommit_up by done.
  rewrite (updateRef_hit _ _ _ c) by done.
  eexists. split; [reflexivity|].
  cbn [w_fault w_repo w_next w_log w_outputs with_log with_repo with_next set_refs refs
       commit_objs tree_objs blob_objs].
  split.
  { unfold committed, set_refs. cbn [refs commit_objs tree_objs blob_objs].
    replace (w_next w + 1 + 1)%N with (w_next w + 2)%N by lia. reflexivity. }
  split; [lia|]. split; [by rewrite <- !app_assoc|]. split; [done|by repeat split].
Qed.

(** *** What a commit leaves in the store *)

Lemma agree_below_committed r n name path content message head base :
  agree_below n r (committed r n name path content message head base).
Proof.
  intros k Hk. unfold committed. cbn [commit_objs tree_objs blob_objs].
  rewrite !lookup_insert_ne by lia. done.
Qed.

Lemma file_at_committed r n branch path content message head base :
  file_at (committed r n (lit "refs/heads/" ++ branch) path content message head base)
          path branch
  = Some content.
Proof.
  unfold file_at, committed. cbn [refs commit_objs tree_objs blob_objs].
  rewrite lookup_insert_eq. rewrite lookup_insert_eq. cbn [commit_tree].
  rewrite lookup_insert_eq. rewrite lookup_insert_eq. apply lookup_insert_eq.
Qed.

Lemma head_of_committed r n branch path content message head base :
  head_of (committed r n (lit "refs/heads/" ++ branch) path content message head base)
          branch
  = Some {| commit_tree := (n + 1)%N; commit_parents := [head];
            commit_message := message |}.
Proof.
  unfold head_of, committed. cbn [refs commit_objs].
  rewrite lookup_insert_eq. apply lookup_insert_eq.
Qed.

Lemma file_at_committed_beside r n branch path content message head co base p :
  names_below n r ->
  refs r !! (lit "refs/heads/" ++ branch) = Some head ->
  commit_objs r !! head = Some co ->
  tree_objs r !! commit_tree co = Some base ->
  p <> path ->
  file_at (committed r n (lit "refs/heads/" ++ branch) path content message head base)
          p branch
  = file_at r p branch.
Proof.
  intros (_ & _ & Htrees & _) Hhead Hco Hbase Hp.
  unfold file_at, committed. cbn [refs commit_objs tree_objs blob_objs].
  rewrite lookup_insert_eq. rewrite lookup_insert_eq. cbn [commit_tree].
  rewrite lookup_insert_eq. rewrite lookup_insert_ne by done.
  rewrite Hhead, Hco, Hbase.
  destruct (base !! p) as [b|] eqn:Hb; [|done].
  apply Htrees in Hbase as [_ Hentries]. apply Hentries in Hb. cbn in Hb.
  apply lookup_insert_ne. lia.
Qed.

Lemma file_at_committed_elsewhere r n branch path content message head base p b :
  names_below n r -> b <> branch ->
  file_at (committed r n (lit "refs/heads/" ++ branch) path content message head base) p b
  = file_at r p b.
Proof.
  intros Hbelow Hb. apply (file_at_agree n); [done|apply agree_below_committed|].
  unfold committed. cbn [refs]. apply lookup_insert_ne.
  intros Heq. by apply heads_name_inj in Heq.
Qed.

Lemma names_below_committed r n name path content message head co base :
  names_below n r ->
  refs r !! name = Some head ->
  commit_objs r !! head = Some co ->
  tree_objs r !! commit_tree co = Some base ->
  names_below (n + 3)%N (committed r n name path content message head base).
Proof.
  intros (Hrefs & Hcommits & Htrees & Hblobs) Hhead Hco Hbase.
  unfold names_below, committed. cbn [refs commit_objs tree_objs blob_objs].
  split; [|split; [|split]].
  - apply map_Forall_insert_2; [lia|].
    eapply map_Forall_impl; [exact Hrefs|]. cbn. intros _ c Hc. lia.
  - apply map_Forall_insert_2; [cbn; lia|].
    eapply map_Forall_impl; [exact Hcommits|]. cbn. intros c c' [? ?]. lia.
  - apply map_Forall_insert_2.
    + split; [lia|]. apply map_Forall_insert_2; [lia|].
      apply Htrees in Hbase as [_ Hentries].
      eapply map_Forall_impl; [exact Hentries|]. cbn. intros _ b Hb. lia.
    + eapply map_Forall_impl; [exact Htrees|]. cbn. intros t entries [Ht Hentries].
      split; [lia|]. eapply map_Forall_impl; [exact Hentries|]. cbn. intros _ b Hb. lia.
  - apply map_Forall_insert_2; [lia|].
    eapply map_Forall_impl; [exact Hblobs|]. cbn. intros b _ Hb. lia.
Qed.

Lemma heads_complete_lookup r name c :
  heads_complete r -> refs r !! name = Some c ->
  exists co base, commit_objs r !! c = Some co /\ tree_objs r !! commit_tree co = Some base.
Proof.
  intros Hheads Hc. destruct (Hheads name c Hc) as [base Hbase].
  apply bind_Some in Hbase as (co & Hco & Hbase). by exists co, base.
Qed.

Lemma heads_complete_committed r n name path content message head base :
  names_below n r -> heads_complete r ->
  heads_complete (committed r n name path content message head base).
Proof.
  intros (Hrefs & Hcommits & Htrees & _) Hheads.
  unfold heads_complete, committed. cbn [refs commit_objs tree_objs].
  apply map_Forall_insert_2.
  - rewrite lookup_insert_eq. cbn. rewrite lookup_insert_eq. by eexists.
  - intros name' c Hc.
    destruct (heads_complete_lookup r name' c Hheads Hc) as (co & base' & Hco & Hbase').
    apply Hrefs in Hc. cbn in Hc. apply Hcommits in Hco as Hbelow. destruct Hbelow as [_ Ht].
    rewrite lookup_insert_ne by lia. rewrite Hco. cbn.
    rewrite lookup_insert_ne by lia. by eexists.
Qed.

(** *** Relations that every request keeps *)

Lemma bind_assoc {A B C} (m : M A) (k : A -> M B) (h : B -> M C) w :
  bind (bind m k) h w = bind m (fun a => bind (k a) h) w.
Proof. unfold bind. by destruct (m w) as [[a|e|] w1]. Qed.

Lemma getRef_log ref w :
  snd (getRef ref w) = with_log (w_log w ++ [(GetRef, ref)]) w.
Proof.
  unfold getRef, request. destruct (w_fault w GetRef); [done|].
  cbn [w_repo with_log]. by destruct (refs _ !! _).
Qed.

Lemma getCommit_log c w :
  snd (getCommit c w) = with_log (w_log w ++ [(GetCommit, [])]) w.
Proof.
  unfold getCommit, request. destruct (w_fault w GetCommit); [done|].
  cbn [w_repo with_log]. by destruct (commit_objs _ !! _).
Qed.

Lemma getContent_only_logs path ref w :
  snd (getContent path ref w) = with_log (w_log w ++ [(GetContent, path)]) w.
Proof.
  unfold getContent, request. destruct (w_fault w GetContent); [done|].
  cbn [w_repo with_log]. by destruct (file_at _ _ _).
Qed.

Lemma getYesterdayTraffic_log d w :
  snd (getYesterdayTraffic d w) = with_log (w_log w ++ [(GetViews, d)]) w.
Proof. unfold getYesterdayTraffic, request. by destruct (w_fault w GetViews). Qed.

Lemma getYesterdayClones_log d w :
  snd (getYesterdayClones d w) = with_log (w_log w ++ [(GetClones, d)]) w.
Proof. unfold getYesterdayClones, request. by destruct (w_fault w GetClones). Qed.

Lemma getRepoStats_log owner repo w :
  snd (getRepoStats owner repo w)
  = with_log (w_log w ++ [(Graphql, owner ++ "/"%char :: repo)]) w.
Proof. unfold getRepoStats, request. by destruct (w_fault w Graphql). Qed.

Section Keeps.
Context (I : world -> world -> Prop) (branch : str).
Hypothesis I_refl : forall w, I w w.
Hypothesis I_trans : forall w1 w2 w3, I w1 w2 -> I w2 w3 -> I w1 w3.
Hypothesis I_log : forall w l, I w (with_log l w).
Hypothesis I_createRef : forall s, keeps I (createRef (lit "refs/heads/" ++ branch) s).
Hypothesis I_updateRef : forall s, keeps I (updateRef (lit "heads/" ++ branch) s).
Hypothesis I_createBlob : forall content, keeps I (createBlob content).
Hypothesis I_createTree : forall base path blob, keeps I (createTree base path blob).
Hypothesis I_createCommit :
  forall message tree parents, keeps I (createCommit message tree parents).
Hypothesis I_setOutputs : forall stats t c, keeps I (setOutputs stats t c).

Lemma keeps_ret {A} (a : A) : keeps I (ret a).
Proof. intros w. apply I_refl. Qed.

Lemma keeps_throw {A} e : keeps I (@throw A e).
Proof. intros w. apply I_refl. Qed.

Lemma keeps_lift {A} (o : outcome A) : keeps I (lift o).
Proof. intros w. apply I_refl. Qed.

Lemma keeps_bind {A B} (m : M A) (k : A -> M B) :
  keeps I m -> (forall a, keeps I (k a)) -> keeps I (bind m k).
Proof.
  intros Hm Hk w. unfold bind. specialize (Hm w).
  destruct (m w) as [[a|e|] w1]; cbn [snd] in *; [|done..].
  eapply I_trans; [exact Hm|apply Hk].
Qed.

Lemma keeps_try_catch {A} (m : M A) (handler : exn -> M A) :
  keeps I m -> (forall e, keeps I (handler e)) -> keeps I (try_catch m handler).
Proof.
  intros Hm Hh w. unfold try_catch. specialize (Hm w).
  destruct (m w) as [[a|e|] w1]; cbn [snd] in *; [done| |done].
  eapply I_trans; [exact Hm|apply Hh].
Qed.

Lemma keeps_promise_all {A B} (a : M A) (b : M B) :
  keeps I a -> keeps I b -> keeps I (promise_all a b).
Proof.
  intros Ha Hb w. unfold promise_all. specialize (Ha w).
  destruct (a w) as [ra w1]. specialize (Hb w1). destruct (b w1) as [rb w2].
  cbn [snd] in *. assert (I w w2) by by eapply I_trans.
  by destruct ra, rb.
Qed.

Lemma keeps_getRef ref : keeps I (getRef ref).
Proof. intros w. rewrite getRef_log. apply I_log. Qed.

Lemma keeps_getCommit c : keeps I (getCommit c).
Proof. intros w. rewrite getCommit_log. apply I_log. Qed.

Lemma keeps_getContent path ref : keeps I (getContent path ref).
Proof. intros w. rewrite getContent_only_logs. apply I_log. Qed.

Lemma keeps_day d :
  keeps I (promise_all (getYesterdayTraffic d) (getYesterdayClones d)).
Proof.
  apply keeps_promise_all; intros w.
  - rewrite getYesterdayTraffic_log. apply I_log.
  - rewrite getYesterdayClones_log. apply I_log.
Qed.

Lemma keeps_getRepoStats owner repo : keeps I (getRepoStats owner repo).
Proof. intros w. rewrite getRepoStats_log. apply I_log. Qed.

Lemma keeps_ensureBranchExists : keeps I (ensureBranchExists branch).
Proof.
  apply keeps_try_catch.
  - apply keeps_bind; [apply keeps_getRef|]. intros _. apply keeps_ret.
  - intros e. case_decide; [|apply keeps_throw].
    apply keeps_bind; [apply keeps_getRef|]. intros s.
    apply keeps_bind; [apply I_createRef|]. intros _. apply keeps_ret.
Qed.

Lemma keeps_emptyFile fmt : keeps I (emptyFile fmt).
Proof. unfold emptyFile. repeat case_decide; first [apply keeps_ret|apply keeps_throw]. Qed.

Lemma keeps_getInsightsFile owner repo ref rootDir fmt :
  keeps I (getInsightsFile owner repo ref rootDir fmt).
Proof.
  apply keeps_try_catch; [|intros e; apply keeps_emptyFile].
  apply keeps_bind; [apply keeps_getContent|]. intros text.
  repeat case_decide; repeat case_match;
    first [apply keeps_ret|apply keeps_throw].
Qed.

Lemma keeps_backfillDay stats fmt i file : keeps I (backfillDay stats fmt i file).
Proof.
  apply keeps_bind; [intros w; apply I_refl|]. intros d.
  apply keeps_bind; [apply keeps_day|]. intros [t c]. apply keeps_lift.
Qed.

Lemma keeps_backfillLoop fuel stats fmt : forall i file,
  keeps I (backfillLoop fuel stats fmt i file).
Proof.
  induction fuel as [|fuel IH]; intros i file; cbn [backfillLoop]; case_decide;
    try apply keeps_ret.
  - intros w. apply I_refl.
  - apply keeps_bind; [apply keeps_backfillDay|]. intros file'. apply IH.
Qed.

Lemma keeps_backfill fuel stats fmt count file :
  keeps I (backfill fuel stats fmt count file).
Proof.
  unfold backfill. destruct (less_than_14 count);
    [apply keeps_backfillLoop|apply keeps_ret].
Qed.

Lemma then_updates_bind {A} ref (m : M A) (k : A -> M unit) :
  keeps I m -> (forall a, then_updates I ref (k a)) -> then_updates I ref (bind m k).
Proof.
  intros Hm Hk w. unfold bind. specialize (Hm w).
  destruct (m w) as [[a|e|] w1]; cbn [snd] in Hm.
  - destruct (Hk a w1) as (o & w2 & H12 & ->). exists o, w2. split; [|done].
    by eapply I_trans.
  - by exists (Throw e), w1.
  - by exists Diverge, w1.
Qed.

Lemma then_updates_last ref (m : M sha) :
  keeps I m -> then_updates I ref (bind m (updateRef ref)).
Proof.
  intros Hm w. exists (fst (m w)), (snd (m w)). split; [apply Hm|].
  unfold bind. by destruct (m w) as [[c|e|] w1].
Qed.

(** A commit is a sequence of requests that ends, if it gets there, with
    the update of the reference. *)
Lemma commit_steps owner repo rootDir content fmt :
  then_updates I (lit "heads/" ++ branch)
    (commitFileToBranch owner repo branch rootDir content fmt).
Proof.
  apply then_updates_bind; [apply keeps_getRef|]. intros c.
  apply then_updates_bind; [apply keeps_getCommit|]. intros t.
  apply then_updates_bind; [apply I_createBlob|]. intros b.
  apply then_updates_bind; [apply I_createTree|]. intros nt.
  apply then_updates_last, I_createCommit.
Qed.

Lemma run_steps fuel inp :
  effective_branch inp = branch ->
  then_updates I (lit "heads/" ++ branch) (run_body fuel inp).
Proof.
  intros Hbranch. unfold run_body. rewrite Hbranch.
  apply then_updates_bind; [apply keeps_getRepoStats|]. intros stats.
  apply then_updates_bind; [apply keeps_ensureBranchExists|]. intros _.
  apply then_updates_bind; [apply keeps_getInsightsFile|]. intros [file count].
  apply then_updates_bind; [apply keeps_backfill|]. intros file'.
  apply then_updates_bind; [intros w; apply I_refl|]. intros d.
  apply then_updates_bind; [apply keeps_day|]. intros [t c].
  apply then_updates_bind; [apply I_setOutputs|]. intros _.
  apply then_updates_bind; [apply keeps_lift|]. intros content.
  apply commit_steps.
Qed.

Lemma keeps_commitFileToBranch owner repo rootDir content fmt :
  keeps I (commitFileToBranch owner repo branch rootDir content fmt).
Proof.
  intros w. destruct (commit_steps owner repo rootDir content fmt w)
    as (o & w1 & Hpre & ->).
  destruct o as [c|e|]; [|done..]. eapply I_trans; [exact Hpre|apply I_updateRef].
Qed.

Lemma keeps_run_body fuel inp :
  effective_branch inp = branch -> keeps I (run_body fuel inp).
Proof.
  intros Hbranch. unfold run_body. rewrite Hbranch.
  apply keeps_bind; [apply keeps_getRepoStats|]. intros stats.
  apply keeps_bind; [apply keeps_ensureBranchExists|]. intros _.
  apply keeps_bind; [apply keeps_getInsightsFile|]. intros [file count].
  apply keeps_bind; [apply keeps_backfill|]. intros file'.
  apply keeps_bind; [intros w; apply I_refl|]. intros d.
  apply keeps_bind; [apply keeps_day|]. intros [t c].
  apply keeps_bind; [apply I_setOutputs|]. intros _.
  apply keeps_bind; [apply keeps_lift|]. intros content.
  apply keeps_commitFileToBranch.
Qed.

End Keeps.

(** *** The requests keep the frame *)

Lemma quiet_refl w : quiet w w.
Proof.
  split; [apply same_env_refl|]. split; [lia|]. split; [apply agree_below_refl|done].
Qed.

Lemma quiet_trans w1 w2 w3 : quiet w1 w2 -> quiet w2 w3 -> quiet w1 w3.
Proof.
  intros (He1 & Hn1 & Ha1 & Hr1) (He2 & Hn2 & Ha2 & Hr2).
  split; [by eapply same_env_trans|]. split; [lia|].
  split; [by eapply agree_below_trans|congruence].
Qed.

Lemma quiet_evolves target w w' : quiet w w' -> evolves target w w'.
Proof.
  intros (He & Hn & Ha & Hr). split; [|by rewrite Hr].
  split; [done|]. split; [done|]. split; [done|]. intros name _. by rewrite Hr.
Qed.

Lemma quiet_log w l : quiet w (with_log l w).
Proof.
  split; [by repeat split|]. split; [cbn; lia|]. split; [apply agree_below_refl|done].
Qed.

Lemma quiet_createBlob content : keeps quiet (createBlob content).
Proof.
  intros w. unfold createBlob, request.
  destruct (w_fault w CreateBlob); cbn [snd]; [apply quiet_log|].
  split; [by repeat split|]. split; [cbn; lia|]. split; [|done].
  intros k Hk. cbn. by rewrite lookup_insert_ne by lia.
Qed.

Lemma quiet_createTree base path blob : keeps quiet (createTree base path blob).
Proof.
  intros w. unfold createTree, request.
  destruct (w_fault w CreateTree); cbn [snd]; [apply quiet_log|].
  cbn [w_repo with_log].
  destruct (tree_objs (w_repo w) !! base); cbn [snd]; [|apply quiet_log].
  split; [by repeat split|]. split; [cbn; lia|]. split; [|done].
  intros k Hk. cbn. by rewrite lookup_insert_ne by lia.
Qed.

Lemma quiet_createCommit message tree parents :
  keeps quiet (createCommit message tree parents).
Proof.
  intros w. unfold createCommit, request.
  destruct (w_fault w CreateCommit); cbn [snd]; [apply quiet_log|].
  split; [by repeat split|]. split; [cbn; lia|]. split; [|done].
  intros k Hk. cbn. by rewrite lookup_insert_ne by lia.
Qed.

Lemma quiet_setOutputs stats t c : keeps quiet (setOutputs stats t c).
Proof.
  intros w. split; [by repeat split|]. split; [cbn; lia|].
  split; [apply agree_below_refl|done].
Qed.

Lemma evolves_log target w l : evolves target w (with_log l w).
Proof. apply quiet_evolves, quiet_log. Qed.

Lemma frame_log target w l : frame target w (with_log l w).
Proof. apply evolves_log. Qed.

Lemma evolves_createRef branch s :
  keeps (evolves (lit "refs/heads/" ++ branch)) (createRef (lit "refs/heads/" ++ branch) s).
Proof.
  intros w. unfold createRef, request.
  destruct (w_fault w CreateRef); cbn [snd]; [apply evolves_log|].
  cbn [w_repo with_log].
  destruct (refs (w_repo w) !! _) eqn:Hnew; cbn [snd]; [apply evolves_log|].
  split.
  - split; [by repeat split|]. split; [cbn; lia|]. split; [by intros k Hk|].
    intros name Hne. cbn. by rewrite lookup_insert_ne.
  - intros s' Hs'. congruence.
Qed.

Lemma frame_updateRef branch s :
  keeps (frame (lit "refs/heads/" ++ branch)) (updateRef (lit "heads/" ++ branch) s).
Proof.
  intros w. unfold updateRef, request.
  destruct (w_fault w UpdateRef); cbn [snd]; [apply frame_log|].
  cbn [w_repo with_log].
  destruct (refs (w_repo w) !! _) eqn:Hold; cbn [snd]; [|apply frame_log].
  split; [by repeat split|]. split; [cbn; lia|]. split; [by intros k Hk|].
  intros name Hne. cbn. by rewrite lookup_insert_ne.
Qed.

(** An update that does not return changes nothing but the log. *)
Lemma updateRef_fails ref s w :
  fst (updateRef ref s w) <> Return tt ->
  snd (updateRef ref s w) = with_log (w_log w ++ [(UpdateRef, ref)]) w.
Proof.
  unfold updateRef, request. destruct (w_fault w UpdateRef); [done|].
  cbn [w_repo with_log]. by destruct (refs (w_repo w) !! _).
Qed.

(** Up to the update of the reference, a run adds objects and may create
    its branch, and changes nothing that existed. *)
Lemma run_body_steps fuel inp :
  then_updates (evolves (lit "refs/heads/" ++ effective_branch inp))
    (lit "heads/" ++ effective_branch inp) (run_body fuel inp).
Proof.
  apply (run_steps _ (effective_branch inp));
    [ apply evolves_refl | apply evolves_trans | apply evolves_log
    | apply evolves_createRef
    | intros content w; apply quiet_evolves, quiet_createBlob
    | intros base path blob w; apply quiet_evolves, quiet_createTree
    | intros message tree parents w; apply quiet_evolves, quiet_createCommit
    | intros stats t c w; apply quiet_evolves, quiet_setOutputs
    | reflexivity ].
Qed.

(** Up to the update of the reference, a commit adds objects only. *)
Lemma commit_quiet_steps owner repo branch rootDir content fmt :
  then_updates quiet (lit "heads/" ++ branch)
    (commitFileToBranch owner repo branch rootDir content fmt).
Proof.
  apply commit_steps;
    [ apply quiet_trans | apply quiet_log | apply quiet_createBlob
    | apply quiet_createTree | apply quiet_createCommit ].
Qed.

(** Whatever happens, a run changes no reference but that of its branch,
    and no object that existed. *)
Lemma run_body_frame fuel inp :
  keeps (frame (lit "refs/heads/" ++ effective_branch inp)) (run_body fuel inp).
Proof.
  apply (keeps_run_body _ (effective_branch inp));
    [ apply frame_refl | apply frame_trans | apply frame_log
    | intros s w; apply evolves_createRef | apply frame_updateRef
    | intros content w; apply quiet_evolves, quiet_createBlob
    | intros base path blob w; apply quiet_evolves, quiet_createTree
    | intros message tree parents w; apply quiet_evolves, quiet_createCommit
    | intros stats t c w; apply quiet_evolves, quiet_setOutputs
    | reflexivity ].
Qed.

(** The sample worlds are well-formed stores. *)
Lemma fresh_world_ok : store_ok fresh_world.
Proof. apply (bool_decide_unpack _). by vm_compute. Qed.

Lemma world_with_csv_ok text : store_ok (world_with_csv text).
Proof. apply (bool_decide_unpack _). by vm_compute. Qed.

End StoreFacts.

(** ** [ensureBranchExists]: the new branch and the failures *)

Module BranchExtras.
Import StrFacts StorageClaims FormatClaims StoreFacts Samples MoreSamples.

(** X8: a branch that [ensureBranchExists] creates starts with the files
    and the head commit of [main]. With the reference endpoints up, the
    branch missing and [main] present, the call returns; afterwards every
    path holds on the new branch what it holds on [main], the head commit
    of the new branch is that of [main], every other branch holds what it
    held, and no object was created. *)
Theorem new_branch_has_files_of_main w branch base :
  w_fault w GetRef = None -> w_fault w CreateRef = None ->
  refs (w_repo w) !! (lit "refs/heads/" ++ branch) = None ->
  refs (w_repo w) !! lit "refs/heads/main" = Some base ->
  exists w',
    ensureBranchExists branch w = (Return tt, w')
    /\ (forall path, file_at (w_repo w') path branch = file_at (w_repo w) path (lit "main"))
    /\ head_of (w_repo w') branch = head_of (w_repo w) (lit "main")
    /\ (forall path b, b <> branch ->
          file_at (w_repo w') path b = file_at (w_repo w) path b)
    /\ w_next w' = w_next w
    /\ commit_objs (w_repo w') = commit_objs (w_repo w)
    /\ tree_objs (w_repo w') = tree_objs (w_repo w)
    /\ blob_objs (w_repo w') = blob_objs (w_repo w).
Proof.
  intros Hget Hcreate Hmissing Hmain.
  eexists. split; [by apply (ensure_missing w branch base)|].
  cbn [w_repo w_next with_repo with_log].
  assert (Hmain' : refs (w_repo w) !! (lit "refs/heads/" ++ lit "main") = Some base)
    by exact Hmain.
  repeat split.
  - intros path. unfold file_at, set_refs. cbn [refs commit_objs tree_objs blob_objs].
    by rewrite lookup_insert_eq, Hmain'.
  - unfold head_of, set_refs. cbn [refs commit_objs].
    by rewrite lookup_insert_eq, Hmain'.
  - intros path b Hb. unfold file_at, set_refs. cbn [refs commit_objs tree_objs blob_objs].
    rewrite lookup_insert_ne; [done|]. intros Heq. by apply heads_name_inj in Heq.
Qed.

Lemma new_branch_has_files_of_main_witness :
  exists w',
    ensureBranchExists (lit "repository-insights") fresh_world = (Return tt, w')
    /\ (forall path, file_at (w_repo w') path (lit "repository-insights")
                     = file_at (w_repo fresh_world) path (lit "main"))
    /\ head_of (w_repo w') (lit "repository-insights")
       = head_of (w_repo fresh_world) (lit "main")
    /\ (forall path b, b <> lit "repository-insights" ->
          file_at (w_repo w') path b = file_at (w_repo fresh_world) path b)
    /\ w_next w' = w_next fresh_world
    /\ commit_objs (w_repo w') = commit_objs (w_repo fresh_world)
    /\ tree_objs (w_repo w') = tree_objs (w_repo fresh_world)
    /\ blob_objs (w_repo w') = blob_objs (w_repo fresh_world).
Proof.
  apply (new_branch_has_files_of_main fresh_world (lit "repository-insights") 1%N).
  - reflexivity.
  - reflexivity.
  - vm_compute. reflexivity.
  - vm_compute. reflexivity.
Defined.

(** X9: the failures of [ensureBranchExists] change nothing in the
    repository. When the lookup of the branch fails with a status other
    than 404, the error is wrapped as the branch-check error after that
    one request; when it fails with 404 and the lookup of [main] fails
    with 404 too, that second error is thrown as it is; when the branch is
    missing, [main] is there and the creation of the reference fails, the
    error of the creation is thrown as it is. In each case the world
    differs from the one before by the request log only. *)
Theorem branch_check_failures w branch :
  (forall status,
      w_fault w GetRef = Some status -> status <> 404 ->
      ensureBranchExists branch w
      = (Throw (BranchCheckFailed (HttpError status)),
         with_log (w_log w ++ [(GetRef, lit "heads/" ++ branch)]) w))
  /\ (w_fault w GetRef = Some 404 ->
      ensureBranchExists branch w
      = (Throw (HttpError 404),
         with_log (w_log w ++ [(GetRef, lit "heads/" ++ branch);
                               (GetRef, lit "heads/main")]) w))
  /\ (forall status base,
        w_fault w GetRef = None -> w_fault w CreateRef = Some status ->
        refs (w_repo w) !! (lit "refs/heads/" ++ branch) = None ->
        refs (w_repo w) !! lit "refs/heads/main" = Some base ->
        ensureBranchExists branch w
        = (Throw (HttpError status),
           with_log (w_log w ++ [(GetRef, lit "heads/" ++ branch);
                                 (GetRef, lit "heads/main");
                                 (CreateRef, lit "refs/heads/" ++ branch)]) w)).
Proof.
  split; [|split].
  - intros status Hdown Hstatus. unfold ensureBranchExists, try_catch, bind.
    rewrite (getRef_down w _ status) by done. cbn [exn_status].
    rewrite decide_False by congruence. reflexivity.
  - intros Hdown. unfold ensureBranchExists, try_catch, bind.
    rewrite (getRef_down w _ 404) by done. cbn [exn_status].
    rewrite decide_True by done.
    rewrite (getRef_down _ _ 404) by done.
    cbn [w_log with_log]. unfold with_log. cbn. by rewrite <- app_assoc.
  - intros status base Hget Hcreate Hmissing Hmain.
    unfold ensureBranchExists, try_catch, bind.
    rewrite getRef_miss by done. cbn [exn_status]. rewrite decide_True by done.
    rewrite (getRef_hit _ _ base) by done.
    rewrite (createRef_down _ _ _ status) by done.
    cbn [w_log with_log]. unfold with_log. cbn. by rewrite <- !app_assoc.
Qed.

Lemma branch_check_failures_witness :
  ensureBranchExists (lit "repository-insights") (with_fault GetRef 403 fresh_world)
  = (Throw (BranchCheckFailed (HttpError 403)),
     with_log (w_log (with_fault GetRef 403 fresh_world)
               ++ [(GetRef, lit "heads/" ++ lit "repository-insights")])
              (with_fault GetRef 403 fresh_world))
  /\ ensureBranchExists (lit "repository-insights") (with_fault CreateRef 500 fresh_world)
     = (Throw (HttpError 500),
        with_log (w_log (with_fault CreateRef 500 fresh_world)
                  ++ [(GetRef, lit "heads/" ++ lit "repository-insights");
                      (GetRef, lit "heads/main");
                      (CreateRef, lit "refs/heads/" ++ lit "repository-insights")])
                 (with_fault CreateRef 500 fresh_world)).
Proof.
  split.
  - apply (proj1 (branch_check_failures (with_fault GetRef 403 fresh_world)
                    (lit "repository-insights")) 403).
    + reflexivity.
    + lia.
  - apply (proj2 (proj2 (branch_check_failures (with_fault CreateRef 500 fresh_world)
                           (lit "repository-insights"))) 500 1%N).
    + reflexivity.
    + reflexivity.
    + vm_compute. reflexivity.
    + vm_compute. reflexivity.
Defined.

End BranchExtras.

(** ** [commitFileToBranch]: what a commit publishes, and what a failed one leaves *)

Module CommitExtras.
Import StrFacts StorageClaims StoreFacts Samples MoreSamples.

Lemma commit_in_store w owner repo branch rootDir content fmt head :
  all_up w -> store_ok w ->
  refs (w_repo w) !! (lit "refs/heads/" ++ branch) = Some head ->
  exists w' co base,
    commit_objs (w_repo w) !! head = Some co
    /\ tree_objs (w_repo w) !! commit_tree co = Some base
    /\ commitFileToBranch owner repo branch rootDir content fmt w = (Return tt, w')
    /\ w_repo w'
       = committed (w_repo w) (w_next w) (lit "refs/heads/" ++ branch)
                   (statsPath rootDir owner repo fmt) (default [] content)
                   (lit "Update stats file for " ++ owner ++ "/"%char :: repo) head base
    /\ w_next w' = (w_next w + 3)%N
    /\ w_log w' = w_log w ++ commit_requests branch (statsPath rootDir owner repo fmt)
    /\ w_outputs w' = w_outputs w
    /\ same_env w w'
    /\ store_ok w'.
Proof.
  intros Hup [Hbelow Hheads] Hhead.
  destruct (heads_complete_lookup _ _ _ Hheads Hhead) as (co & base & Hco & Hbase).
  destruct (commit_goes_through w owner repo branch rootDir content fmt head co base)
    as (w' & Hrun & Hrepo & Hnext & Hlog & Hout & Henv); try done.
  exists w', co, base. repeat (split; [done|]).
  unfold store_ok. rewrite Hrepo, Hnext. split.
  - by eapply names_below_committed.
  - by apply heads_complete_committed.
Qed.

(** X10: a commit that goes through publishes the file and nothing else.
    With every endpoint up, a well-formed store and the branch at the
    commit [head], [commitFileToBranch] returns after its six requests;
    afterwards the stats path on the branch holds the content given, every
    other path of the branch and every path of every other branch holds
    what it held, the head of the branch is a new commit whose only parent
    is [head] and whose message names the tracked repository, and the
    store is well-formed. *)
Theorem commit_publishes_file w owner repo branch rootDir content fmt head :
  all_up w -> store_ok w ->
  refs (w_repo w) !! (lit "refs/heads/" ++ branch) = Some head ->
  exists w',
    commitFileToBranch owner repo branch rootDir content fmt w = (Return tt, w')
    /\ sent w w' = commit_requests branch (statsPath rootDir owner repo fmt)
    /\ file_at (w_repo w') (statsPath rootDir owner repo fmt) branch
       = Some (default [] content)
    /\ (forall p, p <> statsPath rootDir owner repo fmt ->
          file_at (w_repo w') p branch = file_at (w_repo w) p branch)
    /\ (forall p b, b <> branch -> file_at (w_repo w') p b = file_at (w_repo w) p b)
    /\ (exists co, head_of (w_repo w') branch = Some co
                   /\ commit_parents co = [head]
                   /\ commit_message co
                      = lit "Update stats file for " ++ owner ++ "/"%char :: repo)
    /\ store_ok w'.
Proof.
  intros Hup Hok Hhead.
  destruct (commit_in_store w owner repo branch rootDir content fmt head Hup Hok Hhead)
    as (w' & co & base & Hco & Hbase & Hrun & Hrepo & Hnext & Hlog & Hout & Henv & Hok').
  destruct Hok as [Hbelow Hheads].
  exists w'. split; [done|]. rewrite Hrepo.
  split; [unfold sent; by rewrite Hlog, drop_app_length|].
  split; [apply file_at_committed|].
  split; [intros p Hp; by eapply file_at_committed_beside|].
  split; [intros p b Hb; by apply file_at_committed_elsewhere|].
  split; [|exact Hok'].
  eexists. split; [apply head_of_committed|]. done.
Qed.

Lemma commit_publishes_file_witness :
  exists w',
    commitFileToBranch (lit "o") (lit "r") (lit "repository-insights") (lit ".insights")
      (Some (lit "date")) (lit "csv") (world_with_csv (lit "old"))
    = (Return tt, w')
    /\ sent (world_with_csv (lit "old")) w'
       = commit_requests (lit "repository-insights")
           (statsPath (lit ".insights") (lit "o") (lit "r") (lit "csv"))
    /\ file_at (w_repo w') (statsPath (lit ".insights") (lit "o") (lit "r") (lit "csv"))
               (lit "repository-insights")
       = Some (default [] (Some (lit "date")))
    /\ (forall p, p <> statsPath (lit ".insights") (lit "o") (lit "r") (lit "csv") ->
          file_at (w_repo w') p (lit "repository-insights")
          = file_at (w_repo (world_with_csv (lit "old"))) p (lit "repository-insights"))
    /\ (forall p b, b <> lit "repository-insights" ->
          file_at (w_repo w') p b = file_at (w_repo (world_with_csv (lit "old"))) p b)
    /\ (exists co, head_of (w_repo w') (lit "repository-insights") = Some co
                   /\ commit_parents co = [3%N]
                   /\ commit_message co
                      = lit "Update stats file for " ++ lit "o" ++ "/"%char :: lit "r")
    /\ store_ok w'.
Proof.
  apply (commit_publishes_file (world_with_csv (lit "old")) (lit "o") (lit "r")
           (lit "repository-insights") (lit ".insights") (Some (lit "date")) (lit "csv")
           3%N).
  - intros endpoint. reflexivity.
  - apply (bool_decide_unpack _). vm_compute. reflexivity.
  - vm_compute. reflexivity.
Defined.

Lemma failed_commit_quiet w owner repo branch rootDir content fmt :
  fst (commitFileToBranch owner repo branch rootDir content fmt w) <> Return tt ->
  quiet w (snd (commitFileToBranch owner repo branch rootDir content fmt w)).
Proof.
  intros Hfail.
  destruct (commit_quiet_steps owner repo branch rootDir content fmt w)
    as (o & w1 & Hquiet & Hrun).
  rewrite Hrun in *. destruct o as [c|e|]; [|done..].
  rewrite updateRef_fails by done. eapply quiet_trans; [exact Hquiet|apply quiet_log].
Qed.

(** X11: a commit that fails leaves every branch as it was. Whatever
    endpoint fails and with whatever status, when [commitFileToBranch]
    does not return, no reference has changed and, in a store whose names
    are below the next fresh one, every path of every branch holds what it
    held: the blob, tree and commit that may have been created are not
    reachable. When the branch does not exist, the failure is the 404 of
    the first lookup, and nothing is created at all. *)
Theorem failed_commit_changes_no_branch w owner repo branch rootDir content fmt :
  names_below (w_next w) (w_repo w) ->
  fst (commitFileToBranch owner repo branch rootDir content fmt w) <> Return tt ->
  refs (w_repo (snd (commitFileToBranch owner repo branch rootDir content fmt w)))
  = refs (w_repo w)
  /\ (forall p b,
        file_at (w_repo (snd (commitFileToBranch owner repo branch rootDir content fmt w)))
                p b
        = file_at (w_repo w) p b)
  /\ (w_fault w GetRef = None ->
      refs (w_repo w) !! (lit "refs/heads/" ++ branch) = None ->
      commitFileToBranch owner repo branch rootDir content fmt w
      = (Throw (HttpError 404),
         with_log (w_log w ++ [(GetRef, lit "heads/" ++ branch)]) w)).
Proof.
  intros Hbelow Hfail.
  destruct (failed_commit_quiet w owner repo branch rootDir content fmt Hfail)
    as (Henv & Hnext & Hagree & Hrefs).
  split; [done|]. split.
  - intros p b. apply (file_at_agree (w_next w)); [done..|by rewrite Hrefs].
  - intros Hup Hmissing. unfold commitFileToBranch, bind.
    by rewrite getRef_miss.
Qed.

Lemma failed_commit_changes_no_branch_witness :
  let w := with_fault UpdateRef 500 (world_with_csv (lit "old")) in
  let after :=
    snd (commitFileToBranch (lit "o") (lit "r") (lit "repository-insights")
           (lit ".insights") (Some (lit "new")) (lit "csv") w) in
  w_next after = 10%N
  /\ refs (w_repo after) = refs (w_repo w)
  /\ (forall p b, file_at (w_repo after) p b = file_at (w_repo w) p b).
Proof.
  intros w after. split; [vm_compute; reflexivity|].
  destruct (failed_commit_changes_no_branch w (lit "o") (lit "r")
              (lit "repository-insights") (lit ".insights") (Some (lit "new"))
              (lit "csv")) as (Hrefs & Hfiles & _).
  - apply (bool_decide_unpack _). vm_compute. reflexivity.
  - vm_compute. discriminate.
  - split; [exact Hrefs|exact Hfiles].
Defined.

End CommitExtras.

(** ** [run]: what a run leaves alone *)

Module RunFrame.
Import StrFacts StorageClaims BackfillClaims StoreFacts Samples MoreSamples.

Lemma run_world fuel inp w : snd (run fuel inp w) = snd (run_body fuel inp w).
Proof. unfold run. by destruct (run_body fuel inp w) as [[[]|e|] w']. Qed.

Lemma run_succeeded fuel inp w :
  fst (run fuel inp w) = Succeeded <-> fst (run_body fuel inp w) = Return tt.
Proof. unfold run. by destruct (run_body fuel inp w) as [[[]|e|] w']. Qed.

(** X12: a run changes no branch but its own. Whatever the run meets and
    however it ends, every other reference points where it pointed and, in
    a store whose names are below the next fresh one, every other branch
    has the head commit and the files it had. *)
Theorem run_leaves_other_branches fuel inp w b :
  names_below (w_next w) (w_repo w) ->
  b <> effective_branch inp ->
  refs (w_repo (snd (run fuel inp w))) !! (lit "refs/heads/" ++ b)
  = refs (w_repo w) !! (lit "refs/heads/" ++ b)
  /\ head_of (w_repo (snd (run fuel inp w))) b = head_of (w_repo w) b
  /\ forall p, file_at (w_repo (snd (run fuel inp w))) p b = file_at (w_repo w) p b.
Proof.
  intros Hbelow Hb. rewrite run_world.
  destruct (run_body_frame fuel inp w) as (_ & _ & Hagree & Hrefs).
  assert (Href : refs (w_repo (snd (run_body fuel inp w))) !! (lit "refs/heads/" ++ b)
                 = refs (w_repo w) !! (lit "refs/heads/" ++ b)).
  { apply Hrefs. intros Heq. by apply heads_name_inj in Heq. }
  split; [done|]. split.
  - by apply (head_of_agree (w_next w)).
  - intros p. by apply (file_at_agree (w_next w)).
Qed.

Lemma run_leaves_other_branches_witness :
  let after := snd (run 13 (sample_inputs (lit "json")) fresh_world) in
  refs (w_repo after) !! (lit "refs/heads/" ++ lit "main")
  = refs (w_repo fresh_world) !! (lit "refs/heads/" ++ lit "main")
  /\ head_of (w_repo after) (lit "main") = head_of (w_repo fresh_world) (lit "main")
  /\ forall p, file_at (w_repo after) p (lit "main")
               = file_at (w_repo fresh_world) p (lit "main").
Proof.
  apply (run_leaves_other_branches 13 (sample_inputs (lit "json")) fresh_world (lit "main")).
  - apply (bool_decide_unpack _). vm_compute. reflexivity.
  - vm_compute. discriminate.
Defined.

Lemma failed_run_evolves fuel inp w :
  fst (run fuel inp w) <> Succeeded ->
  evolves (lit "refs/heads/" ++ effective_branch inp) w (snd (run fuel inp w)).
Proof.
  intros Hfail. rewrite run_world.
  assert (Hfail' : fst (run_body fuel inp w) <> Return tt).
  { intros Hret. by apply Hfail, run_succeeded. }
  destruct (run_body_steps fuel inp w) as (o & w1 & Hsteps & Hrun).
  rewrite Hrun in *. destruct o as [c|e|]; [|done..].
  rewrite updateRef_fails by done. eapply evolves_trans; [exact Hsteps|apply evolves_log].
Qed.

(** X13: a run that does not succeed leaves every existing branch as it
    was. Whatever made the run fail, each reference that existed points
    where it pointed and, in a store whose names are below the next fresh
    one, each branch that existed has the head commit and the files it
    had: the stored history is as it was before the run. *)
Theorem failed_run_keeps_every_branch fuel inp w b :
  names_below (w_next w) (w_repo w) ->
  fst (run fuel inp w) <> Succeeded ->
  is_Some (refs (w_repo w) !! (lit "refs/heads/" ++ b)) ->
  refs (w_repo (snd (run fuel inp w))) !! (lit "refs/heads/" ++ b)
  = refs (w_repo w) !! (lit "refs/heads/" ++ b)
  /\ head_of (w_repo (snd (run fuel inp w))) b = head_of (w_repo w) b
  /\ forall p, file_at (w_repo (snd (run fuel inp w))) p b = file_at (w_repo w) p b.
Proof.
  intros Hbelow Hfail [c Hc].
  destruct (failed_run_evolves fuel inp w Hfail) as [(_ & _ & Hagree & Hrefs) Hkept].
  assert (Href : refs (w_repo (snd (run fuel inp w))) !! (lit "refs/heads/" ++ b)
                 = refs (w_repo w) !! (lit "refs/heads/" ++ b)).
  { destruct (decide (b = effective_branch inp)) as [->|Hb].
    - rewrite Hc. by apply Hkept.
    - apply Hrefs. intros Heq. by apply heads_name_inj in Heq. }
  split; [done|]. split.
  - by apply (head_of_agree (w_next w)).
  - intros p. by apply (file_at_agree (w_next w)).
Qed.

Lemma failed_run_keeps_every_branch_witness :
  let w := with_fault UpdateRef 500 world_with_history in
  let after := snd (run 13 (sample_inputs (lit "json")) w) in
  fst (run 13 (sample_inputs (lit "json")) w) = Failed (HttpError 500)
  /\ refs (w_repo after) !! (lit "refs/heads/" ++ lit "repository-insights")
     = refs (w_repo w) !! (lit "refs/heads/" ++ lit "repository-insights")
  /\ head_of (w_repo after) (lit "repository-insights")
     = head_of (w_repo w) (lit "repository-insights")
  /\ forall p, file_at (w_repo after) p (lit "repository-insights")
               = file_at (w_repo w) p (lit "repository-insights").
Proof.
  intros w after. split; [vm_compute; reflexivity|].
  apply (failed_run_keeps_every_branch 13 (sample_inputs (lit "json")) w
           (lit "repository-insights")).
  - apply (bool_decide_unpack _). vm_compute. reflexivity.
  - vm_compute. discriminate.
  - vm_compute. by eexists.
Defined.

(** *** The outputs *)
















End RunFrame.

(** ** [run]: a run that meets no obstacle *)

Module RunSuccess.
Import StrFacts JsonFacts DatasetFacts GenerateFacts UpsertClaims StorageClaims
  BackfillClaims ClockFacts TotalsClaims LoadExtras StoreFacts CommitExtras RunFrame
  Samples MoreSamples.

Lemma backfillEntry_env w w' stats i :
  same_env w w' -> backfillEntry w' stats i = backfillEntry w stats i.
Proof. intros (_ & Hv & Hc & _ & Ht). unfold backfillEntry. by rewrite Hv, Hc, Ht. Qed.

Lemma run_start_stats_env w w' : same_env w w' -> run_start_stats w' = run_start_stats w.
Proof. intros (Hs & _). unfold run_start_stats. by rewrite Hs. Qed.

Lemma next_dataset_env w w' D : same_env w w' -> next_dataset w' D = next_dataset w D.
Proof.
  intros Henv. unfold next_dataset, yesterdayEntry.
  rewrite (run_start_stats_env w w') by done.
  rewrite (backfillEntry_env w w') by done.
  assert (Hmap : map (backfillEntry w' (run_start_stats w)) backfillOffsets
                 = map (backfillEntry w (run_start_stats w)) backfillOffsets).
  { apply map_ext. intros i. by apply backfillEntry_env. }
  by rewrite Hmap.
Qed.

(** *** Upserting again what was upserted *)

Lemma spec_upsert_fixed_cons e D R :
  spec_upsert (e :: D) R = e :: D <->
  if bool_decide (date e = date R) then R = e else spec_upsert D R = D.
Proof.
  rewrite spec_upsert_cons. destruct (bool_decide (date e = date R)); split; congruence.
Qed.

Lemma spec_upsert_fixed_other D R R' :
  date R' <> date R -> spec_upsert D R = D -> spec_upsert (spec_upsert D R') R = spec_upsert D R'.
Proof.
  intros Hne. induction D as [|e D IH]; intros Hfixed.
  - by rewrite spec_upsert_nil in Hfixed.
  - apply spec_upsert_fixed_cons in Hfixed.
    rewrite (spec_upsert_cons e D R').
    destruct (decide (date e = date R')) as [He'|He'].
    + rewrite bool_decide_eq_true_2 by done.
      apply spec_upsert_fixed_cons. rewrite bool_decide_eq_false_2 by done.
      rewrite bool_decide_eq_false_2 in Hfixed by congruence. done.
    + rewrite bool_decide_eq_false_2 by done.
      apply spec_upsert_fixed_cons.
      destruct (bool_decide (date e = date R)); [done|by apply IH].
Qed.

Lemma spec_upsert_fixed_keeps D R R' :
  (date R' = date R -> R' = R) -> spec_upsert D R = D ->
  spec_upsert (spec_upsert D R') R = spec_upsert D R'.
Proof.
  intros Hsame Hfixed. destruct (decide (date R' = date R)) as [Heq|Hne].
  - rewrite (Hsame Heq). apply spec_upsert_idempotent.
  - by apply spec_upsert_fixed_other.
Qed.

Lemma fold_spec_upsert_fixed_keeps Rs : forall D R,
  (forall R', R' ∈ Rs -> date R' = date R -> R' = R) -> spec_upsert D R = D ->
  spec_upsert (fold_left spec_upsert Rs D) R = fold_left spec_upsert Rs D.
Proof.
  induction Rs as [|R0 Rs IH]; intros D R Hsame Hfixed; [done|].
  cbn [fold_left]. apply IH.
  - intros R' HR'. apply Hsame. by right.
  - apply spec_upsert_fixed_keeps; [|done]. apply Hsame. by left.
Qed.

(** When records of one date are equal, upserting any of them again
    changes nothing. *)
Lemma fold_spec_upsert_fixed Rs : forall D R,
  (forall R1 R2, R1 ∈ Rs -> R2 ∈ Rs -> date R1 = date R2 -> R1 = R2) ->
  R ∈ Rs ->
  spec_upsert (fold_left spec_upsert Rs D) R = fold_left spec_upsert Rs D.
Proof.
  induction Rs as [|R0 Rs IH]; intros D R Hsame Hin; [by apply elem_of_nil in Hin|].
  cbn [fold_left]. apply elem_of_cons in Hin as [->|Hin].
  - apply fold_spec_upsert_fixed_keeps; [|apply spec_upsert_idempotent].
    intros R' HR' Hd. apply Hsame; [by right|by left|done].
  - apply IH; [|done]. intros R1 R2 H1 H2. apply Hsame; by right.
Qed.

Lemma fold_spec_upsert_again Rs : forall D,
  (forall R, R ∈ Rs -> spec_upsert D R = D) -> fold_left spec_upsert Rs D = D.
Proof.
  induction Rs as [|R Rs IH]; intros D Hfixed; [done|].
  cbn [fold_left]. rewrite (Hfixed R) by by left. apply IH.
  intros R' HR'. apply Hfixed. by right.
Qed.

Lemma spec_upsert_length_le D R : (length D <= length (spec_upsert D R))%nat.
Proof. rewrite spec_upsert_length. destruct (findIndex _ D); lia. Qed.

Lemma fold_spec_upsert_snoc (Rs : list entry) (y : entry) D :
  fold_left spec_upsert (Rs ++ [y]) D = spec_upsert (fold_left spec_upsert Rs D) y.
Proof. rewrite fold_left_app. reflexivity. Qed.

(** A backfill and an upsert on top of what a backfill and the same upsert
    wrote change nothing. *)
Lemma upsert_all_again (Rs : list entry) (y : entry) D :
  (forall R1 R2, R1 ∈ Rs ++ [y] -> R2 ∈ Rs ++ [y] -> date R1 = date R2 -> R1 = R2) ->
  spec_upsert
    (if Z.of_nat (length (spec_upsert (if Z.of_nat (length D) <? 14
                                       then fold_left spec_upsert Rs D else D) y)) <? 14
     then fold_left spec_upsert Rs
            (spec_upsert (if Z.of_nat (length D) <? 14
                          then fold_left spec_upsert Rs D else D) y)
     else spec_upsert (if Z.of_nat (length D) <? 14
                       then fold_left spec_upsert Rs D else D) y)
    y
  = spec_upsert (if Z.of_nat (length D) <? 14 then fold_left spec_upsert Rs D else D) y.
Proof.
  intros Hsame. destruct (Z.of_nat (length D) <? 14) eqn:Hcount.
  - rewrite <- (fold_spec_upsert_snoc Rs y D).
    assert (Hfixed : forall R, R ∈ Rs ++ [y] ->
                       spec_upsert (fold_left spec_upsert (Rs ++ [y]) D) R
                       = fold_left spec_upsert (Rs ++ [y]) D).
    { intros R HR. by apply fold_spec_upsert_fixed. }
    assert (Hy : spec_upsert (fold_left spec_upsert (Rs ++ [y]) D) y
                 = fold_left spec_upsert (Rs ++ [y]) D).
    { apply Hfixed, elem_of_app. right. by left. }
    destruct (Z.of_nat (length (fold_left spec_upsert (Rs ++ [y]) D)) <? 14);
      [|exact Hy].
    rewrite fold_spec_upsert_again; [exact Hy|].
    intros R HR. apply Hfixed, elem_of_app. by left.
  - assert (Hlen : (Z.of_nat (length (spec_upsert D y)) <? 14) = false).
    { apply Z.ltb_ge. apply Z.ltb_ge in Hcount.
      pose proof (spec_upsert_length_le D y). lia. }
    rewrite Hlen. apply spec_upsert_idempotent.
Qed.

(** The dataset a run writes is the one a second run of the same day
    writes on top of it. *)
Lemma next_dataset_idempotent w D : next_dataset w (next_dataset w D) = next_dataset w D.
Proof.
  unfold next_dataset. apply upsert_all_again.
  assert (Hall : forall R,
             R ∈ map (backfillEntry w (run_start_stats w)) backfillOffsets
                 ++ [yesterdayEntry w] ->
             exists i, R = backfillEntry w (run_start_stats w) i).
  { intros R HR. apply elem_of_app in HR as [HR|HR].
    - apply list_elem_of_fmap in HR as (i & -> & _). by exists i.
    - apply list_elem_of_singleton in HR as ->. by exists 1. }
  intros R1 R2 H1 H2 Hd. destruct (Hall R1 H1) as [i ->]. destruct (Hall R2 H2) as [j ->].
  by apply backfillEntry_same_date.
Qed.

(** *** The stages of a run in a world that is ready *)

Lemma ensure_ready w branch :
  w_fault w GetRef = None -> w_fault w CreateRef = None -> store_ok w ->
  is_Some (refs (w_repo w) !! (lit "refs/heads/" ++ base_branch (w_repo w) branch)) ->
  exists w' head,
    ensureBranchExists branch w = (Return tt, w')
    /\ refs (w_repo w') !! (lit "refs/heads/" ++ branch) = Some head
    /\ store_ok w'
    /\ w_next w' = w_next w
    /\ same_env w w'
    /\ w_outputs w' = w_outputs w
    /\ (forall p, file_at (w_repo w') p branch
                  = file_at (w_repo w) p (base_branch (w_repo w) branch))
    /\ (forall p b, b <> branch -> file_at (w_repo w') p b = file_at (w_repo w) p b).
Proof.
  intros Hget Hcreate Hok. unfold base_branch.
  destruct (refs (w_repo w) !! (lit "refs/heads/" ++ branch)) as [head|] eqn:Hbranch.
  - intros _. eexists _, head. split; [by apply (ensure_existing w branch head)|].
    split; [exact Hbranch|]. split; [exact Hok|]. split; [done|].
    split; [by repeat split|]. by repeat split.
  - intros [base Hmain].
    assert (Hmain' : refs (w_repo w) !! lit "refs/heads/main" = Some base) by exact Hmain.
    eexists _, base. split; [by apply (ensure_missing w branch base)|].
    cbn [w_repo w_next w_outputs with_repo with_log].
    destruct Hok as [(Hrefs & Hcommits & Htrees & Hblobs) Hheads].
    split; [unfold set_refs; cbn [refs]; apply lookup_insert_eq|].
    split.
    { split.
      - split; [|done]. unfold set_refs. cbn [refs].
        apply map_Forall_insert_2; [|done]. by apply Hrefs in Hmain.
      - unfold heads_complete, set_refs. cbn [refs commit_objs tree_objs].
        apply map_Forall_insert_2; [|done]. by apply Hheads in Hmain. }
    split; [done|]. split; [by repeat split|]. split; [done|].
    split.
    + intros p. unfold file_at, set_refs. cbn [refs commit_objs tree_objs blob_objs].
      by rewrite lookup_insert_eq, Hmain.
    + intros p b Hb. unfold file_at, set_refs. cbn [refs commit_objs tree_objs blob_objs].
      rewrite lookup_insert_ne; [done|]. intros Heq. by apply heads_name_inj in Heq.
Qed.

Lemma load_ready w owner repo branch rootDir fmt D :
  supported fmt -> w_fault w GetContent = None ->
  match file_at (w_repo w) (statsPath rootDir owner repo fmt) branch with
  | None => D = []
  | Some text => represents fmt text D
  end ->
  exists text0,
    getInsightsFile owner repo branch rootDir fmt w
    = (Return (Some text0, Some (Z.of_nat (length D))),
       with_log (w_log w ++ [(GetContent, statsPath rootDir owner repo fmt)]) w)
    /\ represents fmt text0 D.
Proof.
  intros Hfmt Hup Hstored.
  destruct (file_at (w_repo w) (statsPath rootDir owner repo fmt) branch) as [text|] eqn:Hfile.
  - by apply (load_stored w owner repo branch rootDir fmt text D).
  - subst D. eexists. split; [|by apply empty_file_represents].
    unfold getInsightsFile, try_catch, bind. rewrite getContent_miss by done.
    by rewrite emptyFile_supported.
Qed.

Lemma dates_ok_fold fmt Rs : forall D,
  dates_ok fmt (Rs ++ D) -> dates_ok fmt (fold_left spec_upsert Rs D).
Proof.
  induction Rs as [|R Rs IH]; intros D Hok; [done|].
  cbn [fold_left]. apply IH. intros Hf. specialize (Hok Hf). cbn [app] in Hok.
  apply Forall_cons in Hok as [HR Hok]. apply Forall_app in Hok as [HRs HD].
  apply Forall_app. split; [done|].
  apply (dates_ok_upsert fmt R D); [|done]. intros _. by constructor.
Qed.

Lemma backfill_ready fuel w stats fmt text D :
  (13 <= fuel)%nat -> supported fmt -> metrics_up w -> 0 <= w_today w < 2786860 ->
  represents fmt text D -> dates_ok fmt D ->
  exists text1 l,
    backfill fuel stats fmt (Some (Z.of_nat (length D))) (Some text) w
    = (Return (Some text1), with_log l w)
    /\ represents fmt text1
         (if Z.of_nat (length D) <? 14
          then fold_left spec_upsert (map (backfillEntry w stats) backfillOffsets) D
          else D)
    /\ dates_ok fmt
         (if Z.of_nat (length D) <? 14
          then fold_left spec_upsert (map (backfillEntry w stats) backfillOffsets) D
          else D).
Proof.
  intros Hfuel Hfmt Hup Htoday Hrep Hdates. rewrite backfill_unfold by done.
  destruct (Z.of_nat (length D) <? 14).
  - pose proof (backfill_dates_ok fmt stats D w Htoday Hdates) as Hok.
    destruct (upsert_files_refines fmt (map (backfillEntry w stats) backfillOffsets)
                text D Hfmt Hrep Hok) as (text1 & Hrun & Hrep1).
    destruct (backfillDays_up stats fmt backfillOffsets (Some text) w Hup) as [Hfst Hsnd].
    rewrite Hrun in Hfst. specialize (Hsnd _ Hfst).
    destruct (backfillDays stats fmt backfillOffsets (Some text) w) as [r w'].
    cbn [fst snd] in *. subst. eexists _, _. split; [reflexivity|].
    split; [done|by apply dates_ok_fold].
  - exists text, (w_log w). split; [by destruct w|done].
Qed.

Lemma day_up d w :
  metrics_up w ->
  promise_all (getYesterdayTraffic d) (getYesterdayClones d) w
  = (Return (find_day (w_views w) d, find_day (w_clones w) d),
     with_log (w_log w ++ [(GetViews, d); (GetClones, d)]) w).
Proof.
  intros [Hviews Hclones].
  unfold promise_all, getYesterdayTraffic, getYesterdayClones, request.
  rewrite Hviews. cbn [w_fault with_log]. rewrite Hclones.
  cbn [w_log w_views w_clones with_log]. by rewrite <- app_assoc.
Qed.

(** A run in a world that is ready. *)
Lemma run_ready fuel inp w D :
  (13 <= fuel)%nat -> ready inp w D ->
  exists w',
    run fuel inp w = (Succeeded, w')
    /\ file_at (w_repo w') (stats_path inp) (effective_branch inp)
       = Some (encode (effective_format inp) (next_dataset w D))
    /\ (forall p, p <> stats_path inp ->
          file_at (w_repo w') p (effective_branch inp)
          = file_at (w_repo w) p (base_branch (w_repo w) (effective_branch inp)))
    /\ (forall p b, b <> effective_branch inp ->
          file_at (w_repo w') p b = file_at (w_repo w) p b)
    /\ w_outputs w' = w_outputs w ++ run_outputs w
    /\ same_env w w'
    /\ store_ok w'
    /\ is_Some (refs (w_repo w') !! (lit "refs/heads/" ++ effective_branch inp))
    /\ dates_ok (effective_format inp) (next_dataset w D).
Proof.
  intros Hfuel (Hup & Hok & Hbase & Hfmt & Hstored & Hdates & Htoday).
  unfold stored, stats_path in *.
  set (fmt := effective_format inp) in *. set (branch := effective_branch inp) in *.
  set (rootDir := or_else (in_directory inp) (lit ".insights")) in *.
  set (stats := run_start_stats w).
  unfold run, run_body, bind. fold fmt branch rootDir.
  rewrite getRepoStats_up by apply Hup. fold stats.
  set (w1 := with_log _ w).
  destruct (ensure_ready w1 branch)
    as (w2 & head & E2 & Hhead & Hok2 & Hnext2 & Henv2 & Hout2 & Hfiles2 & Hother2);
    [apply Hup|apply Hup|exact Hok|exact Hbase|].
  rewrite E2.
  change (w_repo w1) with (w_repo w) in *. change (w_next w1) with (w_next w) in *.
  change (w_outputs w1) with (w_outputs w) in *.
  assert (Henv : same_env w w2) by exact Henv2.
  destruct Henv as (Hs & Hv & Hc & Hf & Ht).
  assert (Hup2 : all_up w2) by (intros endpoint; rewrite Hf; apply Hup).
  destruct (load_ready w2 (in_owner inp) (in_repository inp) branch rootDir fmt D)
    as (text0 & E3 & Hrep0); [done|apply Hup2|by rewrite Hfiles2|].
  rewrite E3. set (w3 := with_log _ w2).
  destruct (backfill_ready fuel w3 stats fmt text0 D)
    as (text1 & l & E4 & Hrep1 & Hdates1);
    [done|done|split; apply Hup2|by (cbn; rewrite Ht)|done|done|].
  rewrite E4. set (w4 := with_log l w3).
  assert (Hentry : forall i, backfillEntry w3 stats i = backfillEntry w stats i).
  { intros i. by apply (backfillEntry_env w w3). }
  assert (Hmap : map (backfillEntry w3 stats) backfillOffsets
                 = map (backfillEntry w stats) backfillOffsets).
  { apply map_ext. intros i. apply Hentry. }
  rewrite Hmap in Hrep1, Hdates1.
  set (D1 := if Z.of_nat (length D) <? 14
             then fold_left spec_upsert (map (backfillEntry w stats) backfillOffsets) D
             else D) in *.
  unfold getYesterdayDateString, daysAgo.
  rewrite day_up by (split; apply Hup2).
  set (w5 := with_log _ w4). unfold setOutputs, lift.
  set (w6 := with_outputs _ w5).
  set (y := backfillEntry w stats 1).
  assert (Hy : dates_ok fmt (y :: D1)).
  { intros Hcsv. constructor; [|by apply Hdates1].
    apply isoDate_iso. lia. }
  assert (Hgen : generateFileContent (Some text1) (stargazerCount stats) (commitCount stats)
                   (contributorsCount stats)
                   (find_day (w_views w4) (isoDate (w_today w4 - 1)))
                   (find_day (w_clones w4) (isoDate (w_today w4 - 1)))
                   (isoDate (w_today w4 - 1)) fmt
                 = Return (Some (encode fmt (spec_upsert D1 y)))).
  { rewrite <- (upsert_file_refines fmt text1 D1 y) by done.
    unfold y. rewrite <- (Hentry 1). reflexivity. }
  rewrite Hgen.
  destruct (commit_in_store w6 (in_owner inp) (in_repository inp) branch rootDir
              (Some (encode fmt (spec_upsert D1 y))) fmt head)
    as (w7 & co & base & Hco & Hbase7 & E7 & Hrepo7 & Hnext7 & Hlog7 & Hout7 & Henv7 & Hok7);
    [exact Hup2|exact Hok2|exact Hhead|].
  rewrite E7. exists w7.
  change (w_repo w6) with (w_repo w2) in *. change (w_next w6) with (w_next w2) in *.
  destruct Hok2 as [Hbelow2 Hheads2].
  split; [done|]. split.
  { rewrite Hrepo7. apply file_at_committed. }
  split.
  { intros p Hp. rewrite Hrepo7.
    rewrite (file_at_committed_beside _ _ _ _ _ _ head co base) by done. apply Hfiles2. }
  split.
  { intros p b Hb. rewrite Hrepo7.
    rewrite file_at_committed_elsewhere by done. by apply Hother2. }
  split.
  { rewrite Hout7. unfold w6, w5, w4, w3. cbn [w_outputs with_outputs with_log].
    rewrite Hout2.
    f_equal. unfold run_outputs, yesterdayEntry. fold stats. fold y.
    unfold y. rewrite <- (Hentry 1). reflexivity. }
  split.
  { eapply same_env_trans; [|exact Henv7]. by repeat split. }
  split; [done|]. split.
  { rewrite Hrepo7. unfold committed. cbn [refs]. rewrite lookup_insert_eq. by eexists. }
  by apply dates_ok_upsert.
Qed.

(** After such a run the world is ready for the next one, with the
    dataset the run wrote. *)
Lemma ready_after fuel inp w D w' :
  (13 <= fuel)%nat -> ready inp w D -> run fuel inp w = (Succeeded, w') ->
  ready inp w' (next_dataset w D).
Proof.
  intros Hfuel Hready Hrun.
  destruct (run_ready fuel inp w D Hfuel Hready)
    as (w'' & Hrun' & Hfile & _ & _ & _ & Henv & Hok' & Hbranch & Hdates').
  rewrite Hrun in Hrun'. simplify_eq.
  destruct Hready as (Hup & _ & _ & Hfmt & _ & _ & Htoday).
  destruct Henv as (Hs & Hv & Hc & Hf & Ht).
  assert (Hbase : base_branch (w_repo w'') (effective_branch inp) = effective_branch inp).
  { unfold base_branch. by destruct Hbranch as [c ->]. }
  split; [intros endpoint; rewrite Hf; apply Hup|].
  split; [done|]. split; [by rewrite Hbase|]. split; [done|].
  split; [|split; [done|by rewrite Ht]].
  unfold stored. rewrite Hbase, Hfile. by apply represents_encode.
Qed.

(** X15: a run that meets no obstacle writes the next dataset. In a
    world that is ready with the stored dataset [D] (every endpoint up, a
    well-formed store, the branch or [main] present, a supported format,
    the stats file absent or storing [D], the clock between 1970 and
    9600), with fuel for the 13 turns of the loop, the run succeeds;
    afterwards the stats path on the branch holds a text that stores the
    dataset [D] with the 13 days of the backfill upserted when [D] has
    fewer than 14 entries, and then the day before upserted; every other
    path of the branch holds what the branch, or [main] when the branch
    was created, held; every other branch holds what it held; the outputs
    are set once; and the world is ready for the next run with the
    dataset written. *)
Theorem ready_run_writes_next_dataset fuel inp w D :
  (13 <= fuel)%nat -> ready inp w D ->
  exists w' text,
    run fuel inp w = (Succeeded, w')
    /\ file_at (w_repo w') (stats_path inp) (effective_branch inp) = Some text
    /\ represents (effective_format inp) text (next_dataset w D)
    /\ (forall p, p <> stats_path inp ->
          file_at (w_repo w') p (effective_branch inp)
          = file_at (w_repo w) p (base_branch (w_repo w) (effective_branch inp)))
    /\ (forall p b, b <> effective_branch inp ->
          file_at (w_repo w') p b = file_at (w_repo w) p b)
    /\ w_outputs w' = w_outputs w ++ run_outputs w
    /\ ready inp w' (next_dataset w D).
Proof.
  intros Hfuel Hready.
  destruct (run_ready fuel inp w D Hfuel Hready)
    as (w' & Hrun & Hfile & Hbeside & Hother & Hout & Henv & Hok' & Hbranch & Hdates').
  exists w', (encode (effective_format inp) (next_dataset w D)).
  split; [done|]. split; [done|].
  split; [apply represents_encode; [apply Hready|done]|].
  split; [done|]. split; [done|]. split; [done|].
  by apply (ready_after fuel).
Qed.

Lemma ready_run_writes_next_dataset_witness :
  let inp := sample_inputs (lit "csv") in
  let w := world_with_rows in
  exists w' text,
    run 13 inp w = (Succeeded, w')
    /\ file_at (w_repo w') (stats_path inp) (effective_branch inp) = Some text
    /\ represents (effective_format inp) text (next_dataset w [old_day])
    /\ (forall p, p <> stats_path inp ->
          file_at (w_repo w') p (effective_branch inp)
          = file_at (w_repo w) p (base_branch (w_repo w) (effective_branch inp)))
    /\ (forall p b, b <> effective_branch inp ->
          file_at (w_repo w') p b = file_at (w_repo w) p b)
    /\ w_outputs w' = w_outputs w ++ run_outputs w
    /\ ready inp w' (next_dataset w [old_day]).
Proof.
  apply (ready_run_writes_next_dataset 13 (sample_inputs (lit "csv")) world_with_rows
           [old_day]).
  - lia.
  - split; [intros endpoint; reflexivity|].
    split; [apply (bool_decide_unpack _); vm_compute; reflexivity|].
    split; [vm_compute; by eexists|].
    split; [right; reflexivity|].
    split; [vm_compute; reflexivity|].
    split; [intros _; repeat constructor|].
    simpl. lia.
Defined.

(** X16: a second run on the same day writes the same file. In a world
    that is ready, with the metrics source answering the second run as it
    answered the first, the first run succeeds, the second run succeeds in
    the world the first one left, and the stats file after the second run
    is, character for character, the file after the first; the second run
    sets the same output values again. *)
Theorem second_run_same_day_writes_same_file fuel inp w D :
  (13 <= fuel)%nat -> ready inp w D ->
  exists w1 w2 text,
    run fuel inp w = (Succeeded, w1)
    /\ run fuel inp w1 = (Succeeded, w2)
    /\ file_at (w_repo w1) (stats_path inp) (effective_branch inp) = Some text
    /\ file_at (w_repo w2) (stats_path inp) (effective_branch inp) = Some text
    /\ w_outputs w2 = (w_outputs w ++ run_outputs w) ++ run_outputs w.
Proof.
  intros Hfuel Hready.
  destruct (run_ready fuel inp w D Hfuel Hready)
    as (w1 & Hrun1 & Hfile1 & _ & _ & Hout1 & Henv1 & _).
  pose proof (ready_after fuel inp w D w1 Hfuel Hready Hrun1) as Hready1.
  destruct (run_ready fuel inp w1 _ Hfuel Hready1)
    as (w2 & Hrun2 & Hfile2 & _ & _ & Hout2 & _).
  exists w1, w2, (encode (effective_format inp) (next_dataset w D)).
  split; [done|]. split; [done|]. split; [done|]. split.
  - rewrite Hfile2. rewrite (next_dataset_env w w1) by done.
    by rewrite next_dataset_idempotent.
  - rewrite Hout2, Hout1. f_equal. unfold run_outputs, yesterdayEntry.
    rewrite (run_start_stats_env w w1) by done.
    by rewrite (backfillEntry_env w w1) by done.
Qed.

Lemma second_run_same_day_writes_same_file_witness :
  let inp := sample_inputs (lit "json") in
  exists w1 w2 text,
    run 13 inp fresh_world = (Succeeded, w1)
    /\ run 13 inp w1 = (Succeeded, w2)
    /\ file_at (w_repo w1) (stats_path inp) (effective_branch inp) = Some text
    /\ file_at (w_repo w2) (stats_path inp) (effective_branch inp) = Some text
    /\ w_outputs w2
       = (w_outputs fresh_world ++ run_outputs fresh_world) ++ run_outputs fresh_world.
Proof.
  apply (second_run_same_day_writes_same_file 13 (sample_inputs (lit "json")) fresh_world []).
  - lia.
  - split; [intros endpoint; reflexivity|].
    split; [apply (bool_decide_unpack _); vm_compute; reflexivity|].
    split; [vm_compute; by eexists|].
    split; [left; reflexivity|].
    split; [vm_compute; reflexivity|].
    split; [intros _; constructor|].
    simpl. lia.
Defined.

(** *** A stats file that is JSON but no array *)

Lemma generate_no_array text v s c n t cl d :
  JSON_parse text = Some v -> no_array v = true ->
  generateFileContent (Some text) s c n t cl d (lit "json")
  = Throw (GenerateFailed TypeError).
Proof.
  intros Hparse Hv. unfold generateFileContent. rewrite decide_True by done.
  unfold generateFileContent_json. rewrite Hparse. by destruct v.
Qed.

(** X17: a stats file that holds JSON other than an array makes the run
    fail and stay failed. With every endpoint up, a well-formed store, the
    json format, and at the stats path a text that parses to an object, a
    number, a string or a boolean, the load accepts the text, the first
    upsert throws a TypeError, and the run fails with it wrapped as the
    generation error; the file and every branch that existed are as they
    were, so the next run meets the same file. *)
Theorem run_fails_on_json_that_is_no_array fuel inp w text v :
  (13 <= fuel)%nat -> all_up w -> store_ok w ->
  is_Some (refs (w_repo w)
           !! (lit "refs/heads/" ++ base_branch (w_repo w) (effective_branch inp))) ->
  effective_format inp = lit "json" ->
  file_at (w_repo w) (stats_path inp) (base_branch (w_repo w) (effective_branch inp))
  = Some text ->
  JSON_parse text = Some v -> no_array v = true ->
  fst (run fuel inp w) = Failed (GenerateFailed TypeError)
  /\ file_at (w_repo (snd (run fuel inp w))) (stats_path inp)
             (base_branch (w_repo w) (effective_branch inp))
     = Some text.
Proof.
  intros Hfuel Hup Hok Hbase Hfmt Hfile Hparse Hv.
  assert (Hfails : fst (run fuel inp w) = Failed (GenerateFailed TypeError)).
  { unfold stats_path in *. rewrite Hfmt in *.
    set (branch := effective_branch inp) in *.
    set (rootDir := or_else (in_directory inp) (lit ".insights")) in *.
    unfold run, run_body, bind. fold branch rootDir. rewrite Hfmt.
    rewrite getRepoStats_up by apply Hup.
    set (w1 := with_log _ w).
    destruct (ensure_ready w1 branch)
      as (w2 & head & E2 & Hhead & Hok2 & Hnext2 & Henv2 & Hout2 & Hfiles2 & Hother2);
      [apply Hup|apply Hup|exact Hok|exact Hbase|].
    rewrite E2. change (w_repo w1) with (w_repo w) in *.
    assert (Henv : same_env w w2) by exact Henv2.
    destruct Henv as (Hs & Hvw & Hc & Hf & Ht).
    assert (Hup2 : all_up w2) by (intros endpoint; rewrite Hf; apply Hup).
    unfold getInsightsFile, try_catch. unfold bind at 1.
    rewrite (getContent_hit w2 _ _ text) by (apply Hup2 || by rewrite Hfiles2).
    rewrite decide_True by done. rewrite Hparse.
    assert (Hlen : exists count, js_length v = inr count)
      by (destruct v; try done; by eexists).
    destruct Hlen as [count ->]. unfold ret.
    set (w3 := with_log _ w2).
    assert (Hup3 : metrics_up w3) by (split; apply Hup2).
    destruct count as [k|].
    - rewrite backfill_unfold by done. destruct (k <? 14).
      + cbn [backfillOffsets backfillDays]. unfold bind at 1.
        rewrite backfillDay_up by done. unfold upsert_file.
        by rewrite (generate_no_array text v).
      + unfold getYesterdayDateString, daysAgo. rewrite day_up by done.
        unfold setOutputs, lift. by rewrite (generate_no_array text v).
    - unfold backfill. cbn [less_than_14]. unfold ret.
      unfold getYesterdayDateString, daysAgo. rewrite day_up by done.
      unfold setOutputs, lift. by rewrite (generate_no_array text v). }
  split; [done|].
  assert (Hfail : fst (run fuel inp w) <> Succeeded) by by rewrite Hfails.
  destruct (failed_run_evolves fuel inp w Hfail) as [(_ & _ & Hagree & Hrefs) Hkept].
  rewrite <- Hfile. apply (file_at_agree (w_next w)); [apply Hok|done|].
  destruct Hbase as [c Hc].
  destruct (decide (base_branch (w_repo w) (effective_branch inp) = effective_branch inp))
    as [Heq|Hne].
  - rewrite Heq in *. rewrite Hc. by apply Hkept.
  - apply Hrefs. intros Heq. by apply heads_name_inj in Heq.
Qed.

Lemma run_fails_on_json_that_is_no_array_witness :
  let inp := sample_inputs (lit "json") in
  let w := world_with_object in
  fst (run 13 inp w) = Failed (GenerateFailed TypeError)
  /\ file_at (w_repo (snd (run 13 inp w))) (stats_path inp)
             (base_branch (w_repo w) (effective_branch inp))
     = Some (lit "{" ++ quote (lit "date") ++ lit ": 1}").
Proof.
  apply (run_fails_on_json_that_is_no_array 13 (sample_inputs (lit "json"))
           world_with_object (lit "{" ++ quote (lit "date") ++ lit ": 1}")
           (JObj [(lit "date", JNum 1)])).
  - lia.
  - intros endpoint. reflexivity.
  - apply (bool_decide_unpack _). vm_compute. reflexivity.
  - vm_compute. by eexists.
  - reflexivity.
  - vm_compute. reflexivity.
  - vm_compute. reflexivity.
  - reflexivity.
Defined.

(** *** The loop and the paths *)

Lemma backfill_fuel fuel stats fmt count file w :
  (13 <= fuel)%nat ->
  backfill fuel stats fmt count file w = backfill 13 stats fmt count file w.
Proof.
  intros Hfuel. destruct count as [k|]; [|done].
  by rewrite !backfill_unfold by lia.
Qed.

(** X19: the loop of a run ends after thirteen turns. In every world and
    for every input, a run with thirteen units of fuel or more ends, by
    succeeding or by failing, and it ends as the run with exactly thirteen
    units does, in the same world: no run takes a fourteenth turn. *)
Theorem run_ends_within_thirteen_turns fuel inp w :
  (13 <= fuel)%nat ->
  fst (run fuel inp w) <> Hangs /\ run fuel inp w = run 13 inp w.
Proof.
  intros Hfuel. split; [by apply LogFacts.run_terminates|].
  unfold run, run_body, bind.
  destruct (getRepoStats _ _ w) as [[stats|e|] w1]; [|done..].
  destruct (ensureBranchExists _ w1) as [[[]|e|] w2]; [|done..].
  destruct (getInsightsFile _ _ _ _ _ w2) as [[[file count]|e|] w3]; [|done..].
  by rewrite (backfill_fuel fuel).
Qed.

Lemma run_ends_within_thirteen_turns_witness :
  fst (run 40 (sample_inputs (lit "csv")) fresh_world) <> Hangs
  /\ run 40 (sample_inputs (lit "csv")) fresh_world
     = run 13 (sample_inputs (lit "csv")) fresh_world.
Proof.
  apply (run_ends_within_thirteen_turns 40 (sample_inputs (lit "csv")) fresh_world). lia.
Defined.

Lemma statsPath_format_inj rootDir owner repo fmt fmt' :
  statsPath rootDir owner repo fmt = statsPath rootDir owner repo fmt' -> fmt = fmt'.
Proof.
  unfold statsPath. intros H.
  apply app_inv_head in H. injection H as H.
  apply app_inv_head in H. injection H as H.
  apply app_inv_head in H. injection H as H. exact H.
Qed.

(** X20: the two formats have separate files. A run in one format, in a
    world that is ready, succeeds and leaves the stats file of every other
    format, at the path of the same directory, owner and repository, as
    the branch (or [main], when the branch was created) held it: a run
    that writes csv does not touch the json history, and the other way
    round. *)
Theorem run_leaves_file_of_other_format fuel inp w D fmt' :
  (13 <= fuel)%nat -> ready inp w D -> fmt' <> effective_format inp ->
  let other := statsPath (or_else (in_directory inp) (lit ".insights")) (in_owner inp)
                         (in_repository inp) fmt' in
  exists w',
    run fuel inp w = (Succeeded, w')
    /\ file_at (w_repo w') other (effective_branch inp)
       = file_at (w_repo w) other (base_branch (w_repo w) (effective_branch inp)).
Proof.
  intros Hfuel Hready Hfmt other.
  destruct (run_ready fuel inp w D Hfuel Hready) as (w' & Hrun & _ & Hbeside & _).
  exists w'. split; [done|]. apply Hbeside.
  unfold other, stats_path. intros Heq. by apply statsPath_format_inj in Heq.
Qed.

Lemma run_leaves_file_of_other_format_witness :
  let inp := sample_inputs (lit "csv") in
  exists w',
    run 13 inp world_with_history = (Succeeded, w')
    /\ file_at (w_repo w') (statsPath (lit ".insights") (lit "o") (lit "r") (lit "json"))
               (lit "repository-insights")
       = Some (encode_json [old_day]).
Proof.
  apply (run_leaves_file_of_other_format 13 (sample_inputs (lit "csv")) world_with_history
           [] (lit "json")).
  - lia.
  - split; [intros endpoint; reflexivity|].
    split; [apply (bool_decide_unpack _); vm_compute; reflexivity|].
    split; [vm_compute; by eexists|].
    split; [right; reflexivity|].
    split; [vm_compute; reflexivity|].
    split; [intros _; constructor|].
    simpl. lia.
  - vm_compute. discriminate.
Defined.

End RunSuccess.
